(** * People Manager: date normalisation, reminder derivation and the
      recurring birthday-task lifecycle

    A shallow embedding of [src/index.ts] of the Logseq People Manager
    plugin, and the properties its specification states about it.

    Conventions of the embedding.
    - A JavaScript string is the list of its UTF-16 code units
      ([jsstring]); ASCII literals are written with [lit].
    - A JavaScript [Date] is its time value, an integer number of
      milliseconds ([Z]).  Local time is taken without zone offset and
      without daylight saving (the specification's "timezone-naive calendar
      dates"), and all time values stay inside the range in which a [Date]
      is valid, so [Invalid Date] is not represented.
    - The calendar functions are those of ECMA-262 section 21.4.1
      ([Day], [DayFromYear], [YearFromTime], [MonthFromTime],
      [DateFromTime], [MakeDay], [MakeDate]).
    - "Now" is an explicit argument [now] wherever the source calls
      [new Date()]; one call of a function sees one value of [now].
    - A function of the source that awaits calls of the host is a tree of
      such calls ([Prog]); it is run against any host, or against the
      reference host [RefHost] where a statement speaks of stored pages.

    The embedding comes first, then the vocabulary of the statements, then
    the facts: each claim of the specification under its number, and
    further properties of the code under the numbers X1, X2 and so on. *)

From Stdlib Require Import ZArith NArith List Bool Lia String Ascii.
From Stdlib Require Import Sorting.Sorted Sorting.Permutation.
From Stdlib Require Import Numbers.DecimalString.
From Stdlib Require DecimalPos.
Import ListNotations.

Local Open Scope Z_scope.

(* ====================================================================== *)
(** * The built-in [Date] object *)
(* ====================================================================== *)

Module JsDate.

(** A [Date] is its time value in milliseconds. *)
Definition Date := Z.

Definition msPerDay : Z := 86400000.

Definition Day (t : Z) : Z := t / msPerDay.
Definition TimeWithinDay (t : Z) : Z := t mod msPerDay.

Definition isLeapYear (y : Z) : bool :=
  if negb (y mod 4 =? 0) then false
  else if negb (y mod 100 =? 0) then true
  else (y mod 400 =? 0).

Definition DaysInYear (y : Z) : Z := if isLeapYear y then 366 else 365.

Definition DayFromYear (y : Z) : Z :=
  365 * (y - 1970) + (y - 1969) / 4 - (y - 1901) / 100 + (y - 1601) / 400.

(** [YearFromTime]: the largest [y] with [DayFromYear y <= Day t]
    (see [yearFromDay_spec]); computed from an estimate that is off by at
    most one. *)
Definition yearFromDay (d : Z) : Z :=
  let y0 := 1970 + (400 * d) / 146097 in
  if DayFromYear (y0 + 1) <=? d then y0 + 1
  else if DayFromYear y0 <=? d then y0
  else y0 - 1.

Definition YearFromTime (t : Z) : Z := yearFromDay (Day t).

Definition InLeapYear (t : Z) : Z :=
  if isLeapYear (YearFromTime t) then 1 else 0.

Definition DayWithinYear (t : Z) : Z :=
  Day t - DayFromYear (YearFromTime t).

(** Number of days before month [m] (0-based) in a year, [leap] being
    0 or 1. *)
Definition daysBeforeMonth (leap m : Z) : Z :=
  match m with
  | 0 => 0
  | 1 => 31
  | 2 => 59 + leap
  | 3 => 90 + leap
  | 4 => 120 + leap
  | 5 => 151 + leap
  | 6 => 181 + leap
  | 7 => 212 + leap
  | 8 => 243 + leap
  | 9 => 273 + leap
  | 10 => 304 + leap
  | 11 => 334 + leap
  | _ => 365 + leap
  end.

Definition monthOfYearDay (leap dwy : Z) : Z :=
  if dwy <? 31 then 0
  else if dwy <? 59 + leap then 1
  else if dwy <? 90 + leap then 2
  else if dwy <? 120 + leap then 3
  else if dwy <? 151 + leap then 4
  else if dwy <? 181 + leap then 5
  else if dwy <? 212 + leap then 6
  else if dwy <? 243 + leap then 7
  else if dwy <? 273 + leap then 8
  else if dwy <? 304 + leap then 9
  else if dwy <? 334 + leap then 10
  else 11.

Definition MonthFromTime (t : Z) : Z :=
  monthOfYearDay (InLeapYear t) (DayWithinYear t).

Definition DateFromTime (t : Z) : Z :=
  DayWithinYear t - daysBeforeMonth (InLeapYear t) (MonthFromTime t) + 1.

(** [MakeDay(year, month, date)]: months outside 0..11 carry into the
    year, and [date] is an offset from the first of the month, so day 0,
    day 32 or month 12 silently normalise to a neighbouring date. *)
Definition MakeDay (year month date : Z) : Z :=
  let ym := year + month / 12 in
  let mn := month mod 12 in
  DayFromYear ym
  + daysBeforeMonth (if isLeapYear ym then 1 else 0) mn
  + date - 1.

Definition MakeDate (day time : Z) : Z := day * msPerDay + time.

(** [new Date(year, monthIndex, day)]: a year 0..99 means 1900 + year. *)
Definition newDate (year monthIndex day : Z) : Date :=
  let yr := if (0 <=? year) && (year <=? 99) then 1900 + year else year in
  MakeDate (MakeDay yr monthIndex day) 0.

Definition getFullYear (d : Date) : Z := YearFromTime d.
Definition getMonth (d : Date) : Z := MonthFromTime d.
Definition getDate (d : Date) : Z := DateFromTime d.
Definition getTime (d : Date) : Z := d.

(** [d.setHours(0, 0, 0, 0)] *)
Definition setHours0 (d : Date) : Date := MakeDate (Day d) 0.

(** [d.setFullYear(y)]: month and day of month are those of [d]. *)
Definition setFullYear (d : Date) (y : Z) : Date :=
  MakeDate (MakeDay y (MonthFromTime d) (DateFromTime d)) (TimeWithinDay d).

(** [Math.floor(a / b)] and [Math.ceil(a / b)] for integers [a] and
    [b > 0]; exact for the day counts of valid dates. *)
Definition floorDiv (a b : Z) : Z := a / b.
Definition ceilDiv (a b : Z) : Z := - ((- a) / b).

(** The calendar date [(year, month, day)] of a [Date], month 1-based. *)
Definition ymd (d : Date) : Z * Z * Z :=
  (getFullYear d, getMonth d + 1, getDate d).

(** Days in month [m] (0-based) of a year, [leap] being 0 or 1. *)
Definition daysInMonthTable (leap m : Z) : Z :=
  match m with
  | 1 => 28 + leap
  | 3 | 5 | 8 | 10 => 30
  | _ => 31
  end.

Definition DaysInMonth (y m : Z) : Z :=
  daysInMonthTable (if isLeapYear y then 1 else 0) m.

End JsDate.
Import JsDate.

(* ====================================================================== *)
(** * JavaScript strings and the regular expressions of the source *)
(* ====================================================================== *)

Module JsString.

(** A string is the list of its UTF-16 code units. *)
Definition jschar := N.
Definition jsstring := list jschar.

(** An ASCII literal as a JavaScript string. *)
Definition lit (s : string) : jsstring :=
  map N_of_ascii (list_ascii_of_string s).

Fixpoint streq (a b : jsstring) : bool :=
  match a, b with
  | [], [] => true
  | x :: a', y :: b' => (x =? y)%N && streq a' b'
  | _, _ => false
  end.

(** White space and line terminators: what [trim] strips and [\s]
    matches. *)
Definition isWhiteSpace (c : jschar) : bool :=
  existsb (N.eqb c)
    [9; 10; 11; 12; 13; 32; 160; 5760; 8192; 8193; 8194; 8195; 8196;
     8197; 8198; 8199; 8200; 8201; 8202; 8232; 8233; 8239; 8287; 12288;
     65279]%N.

Fixpoint trimStart (s : jsstring) : jsstring :=
  match s with
  | c :: s' => if isWhiteSpace c then trimStart s' else s
  | [] => []
  end.

Definition trimEnd (s : jsstring) : jsstring := rev (trimStart (rev s)).

Definition trim (s : jsstring) : jsstring := trimEnd (trimStart s).

(** [\d] *)
Definition isDigit (c : jschar) : bool := ((48 <=? c) && (c <=? 57))%N.

(** [[a-zA-Z]] *)
Definition isAlpha (c : jschar) : bool :=
  (((97 <=? c) && (c <=? 122)) || ((65 <=? c) && (c <=? 90)))%N.

Definition isChar (a : ascii) (c : jschar) : bool := (c =? N_of_ascii a)%N.

(** [toLowerCase] on the letters [A-Z]; the source applies it only to
    text matched by [[a-zA-Z]+]. *)
Definition toLowerCase (s : jsstring) : jsstring :=
  map (fun c => if ((65 <=? c) && (c <=? 90))%N then (c + 32)%N else c) s.

(** [parseInt] on a run of decimal digits, which is all the source
    passes to it in the date parser. *)
Definition parseInt (s : jsstring) : Z :=
  fold_left (fun acc c => 10 * acc + (Z.of_N c - 48)) s 0.

Fixpoint startsWith (s prefix : jsstring) : bool :=
  match prefix, s with
  | [], _ => true
  | p :: prefix', c :: s' => (c =? p)%N && startsWith s' prefix'
  | _ :: _, [] => false
  end.

Fixpoint includes (s needle : jsstring) : bool :=
  startsWith s needle ||
  match s with
  | [] => false
  | _ :: s' => includes s' needle
  end.

(** [String(n)] for an integer. *)
Definition stringOfZ (n : Z) : jsstring :=
  lit (NilZero.string_of_int (Z.to_int n)).

(** [s.padStart(2, '0')] *)
Definition padStart2 (s : jsstring) : jsstring :=
  match s with
  | [] => lit "00"
  | [c] => lit "0" ++ [c]
  | _ => s
  end.

(** ** Regular expressions

    Every regular expression of the source that is modelled is a sequence
    of quantified character classes, some of them captured: [\d{1,2}],
    [[a-zA-Z]+], [,?], a literal character (a class of one character
    taken once).  [rxitem] is one such element; quantifiers are greedy
    and give back characters when the rest of the pattern fails. *)
Record rxitem := RxItem {
  rxClass : jschar -> bool;
  rxMin : nat;
  rxMax : option nat;     (* [None]: unbounded *)
  rxCapture : bool
}.

(** Length of the longest prefix of [s] in class [cls], at most [bound]
    characters. *)
Fixpoint runLength (cls : jschar -> bool) (bound : nat) (s : jsstring) : nat :=
  match bound, s with
  | S bound', c :: s' => if cls c then S (runLength cls bound' s') else O
  | _, _ => O
  end.

Definition maxRun (it : rxitem) (s : jsstring) : nat :=
  runLength (rxClass it)
    (match rxMax it with Some k => k | None => List.length s end) s.

(** A greedy quantifier tries the longest run first and then gives back
    one character at a time, down to its minimum: [tryLengths k lo n] is
    the first success of [k] on the lengths [n], [n - 1], ..., [lo]. *)
Fixpoint tryLengths {R : Type} (k : nat -> option R) (lo n : nat)
  : option R :=
  if (n <? lo)%nat then None
  else
    match k n with
    | Some r => Some r
    | None =>
        match n with
        | O => None
        | S n' => tryLengths k lo n'
        end
    end.

(** Match [items] at the start of [s]; with [toEnd] the match must
    consume all of [s] (the pattern ends in [$]).  Returns the captured
    groups in order. *)
Fixpoint rxMatchHere (toEnd : bool) (items : list rxitem) (s : jsstring)
  : option (list jsstring) :=
  match items with
  | [] =>
      if toEnd then match s with [] => Some [] | _ => None end
      else Some []
  | it :: items' =>
      tryLengths
        (fun n =>
           match rxMatchHere toEnd items' (skipn n s) with
           | Some caps =>
               Some (if rxCapture it then firstn n s :: caps else caps)
           | None => None
           end)
        (rxMin it) (maxRun it s)
  end.

(** A pattern anchored at both ends: [/^...$/]. *)
Definition rxMatchWhole (items : list rxitem) (s : jsstring)
  : option (list jsstring) :=
  rxMatchHere true items s.

(** An unanchored pattern: the leftmost match. *)
Fixpoint rxSearch (items : list rxitem) (s : jsstring)
  : option (list jsstring) :=
  match rxMatchHere false items s with
  | Some caps => Some caps
  | None =>
      match s with
      | [] => None
      | _ :: s' => rxSearch items s'
      end
  end.

(** Pattern elements. *)
Definition one (cls : jschar -> bool) : rxitem := RxItem cls 1 (Some 1%nat) false.
Definition chr (a : ascii) : rxitem := one (isChar a).
Definition chars (s : string) : list rxitem :=
  map chr (list_ascii_of_string s).
Definition optional (cls : jschar -> bool) : rxitem :=
  RxItem cls 0 (Some 1%nat) false.
Definition plus (cls : jschar -> bool) : rxitem := RxItem cls 1 None false.
Definition group (cls : jschar -> bool) (lo : nat) (hi : option nat) : rxitem :=
  RxItem cls lo hi true.
Definition digits (lo hi : nat) : rxitem := group isDigit lo (Some hi).

End JsString.
Import JsString.

(* ====================================================================== *)
(** * Date utilities ([src/index.ts], DATE UTILITIES) *)
(* ====================================================================== *)

(** [getDaysUntilBirthday(birthday)], with [now] the value of [new Date()]. *)
Definition getDaysUntilBirthday (now : Date) (birthday : Date) : Z :=
  let today := setHours0 now in
  let thisYearBirthday :=
    newDate (getFullYear today) (getMonth birthday) (getDate birthday) in
  let thisYearBirthday :=
    if thisYearBirthday <? today
    then setFullYear thisYearBirthday (getFullYear today + 1)
    else thisYearBirthday in
  let diffTime := getTime thisYearBirthday - getTime today in
  ceilDiv diffTime (1000 * 60 * 60 * 24).

(** [getDaysSince(date)] *)
Definition getDaysSince (now : Date) (date : Date) : Z :=
  let today := setHours0 now in
  let targetDate := setHours0 date in
  let diffTime := getTime today - getTime targetDate in
  floorDiv diffTime (1000 * 60 * 60 * 24).

(** [calculateAge(birthday)] *)
Definition calculateAge (now : Date) (birthday : Date) : Z :=
  let today := now in
  let age := getFullYear today - getFullYear birthday in
  let monthDiff := getMonth today - getMonth birthday in
  if (monthDiff <? 0)
     || ((monthDiff =? 0) && (getDate today <? getDate birthday))
  then age - 1
  else age.

(** [getNextBirthdayDate(birthday)] *)
Definition getNextBirthdayDate (now : Date) (birthday : Date) : Date :=
  let today := setHours0 now in
  let nextBirthday :=
    newDate (getFullYear today) (getMonth birthday) (getDate birthday) in
  if nextBirthday <=? today
  then setFullYear nextBirthday (getFullYear today + 1)
  else nextBirthday.

(** [formatDateForLogseq(date)]: [YYYY-MM-DD]. *)
Definition formatDateForLogseq (date : Date) : jsstring :=
  let year := getFullYear date in
  let month := padStart2 (stringOfZ (getMonth date + 1)) in
  let day := padStart2 (stringOfZ (getDate date)) in
  stringOfZ year ++ lit "-" ++ month ++ lit "-" ++ day.

(** ** The birthday parser *)

(** What [parseBirthdayInput] returns: [null], a date, or the [Date]
    object with no time value ([Invalid Date]), which is not [null]. *)
Inductive ParsedDate :=
| PNull
| PDate (d : Date)
| PInvalidDate.

(** [months[key]].  [months] is an object literal, so besides its own
    keys the lookup finds what every object inherits; the one inherited
    name made of lower-case letters only is [constructor], whose value is
    not a number. *)
Inductive MonthLookup :=
| MonthIndex (m : Z)
| MonthInherited
| MonthUndefined.

Definition months : list (string * Z) :=
  [ ("jan", 0); ("january", 0);
    ("feb", 1); ("february", 1);
    ("mar", 2); ("march", 2);
    ("apr", 3); ("april", 3);
    ("may", 4);
    ("jun", 5); ("june", 5);
    ("jul", 6); ("july", 6);
    ("aug", 7); ("august", 7);
    ("sep", 8); ("sept", 8); ("september", 8);
    ("oct", 9); ("october", 9);
    ("nov", 10); ("november", 10);
    ("dec", 11); ("december", 11) ]%string.

Definition monthsLookup (key : jsstring) : MonthLookup :=
  match find (fun e => streq (lit (fst e)) key) months with
  | Some e => MonthIndex (snd e)
  | None =>
      if streq key (lit "constructor") then MonthInherited
      else MonthUndefined
  end.

(** [/^(\d{4})-(\d{1,2})-(\d{1,2})$/] *)
Definition isoRe : list rxitem :=
  [digits 4 4; chr "-"; digits 1 2; chr "-"; digits 1 2].

(** [[\/\-\.]] and [[\/\-]] *)
Definition isEuroSep (c : jschar) : bool :=
  isChar "/" c || isChar "-" c || isChar "." c.
Definition isUsSep (c : jschar) : bool :=
  isChar "/" c || isChar "-" c.

(** [/^(\d{1,2})[\/\-\.](\d{1,2})[\/\-\.](\d{4})$/] *)
Definition euroRe : list rxitem :=
  [digits 1 2; one isEuroSep; digits 1 2; one isEuroSep; digits 4 4].

(** [/^(\d{1,2})[\/\-](\d{1,2})[\/\-](\d{4})$/] *)
Definition usRe : list rxitem :=
  [digits 1 2; one isUsSep; digits 1 2; one isUsSep; digits 4 4].

(** [/^(\d{1,2})\s+([a-zA-Z]+)\s+(\d{4})$/] *)
Definition dayMonthYearRe : list rxitem :=
  [digits 1 2; plus isWhiteSpace; group isAlpha 1 None; plus isWhiteSpace;
   digits 4 4].

(** [/^([a-zA-Z]+)\s+(\d{1,2}),?\s+(\d{4})$/] *)
Definition monthDayYearRe : list rxitem :=
  [group isAlpha 1 None; plus isWhiteSpace; digits 1 2; optional (isChar ",");
   plus isWhiteSpace; digits 4 4].

(** [/^(\d{4})\s+([a-zA-Z]+)\s+(\d{1,2})$/] *)
Definition yearMonthDayRe : list rxitem :=
  [digits 4 4; plus isWhiteSpace; group isAlpha 1 None; plus isWhiteSpace;
   digits 1 2].

Section BirthdayParser.

(** [new Date(text)]: the host's own date-string parser, [None] when the
    result has no time value. *)
Variable nativeDateParse : jsstring -> option Date.

(** The three month-name branches share this shape: on a match whose
    month name is in the table the date is returned, otherwise the next
    branch is tried. *)
Definition monthNameDate (year month day : jsstring) : option ParsedDate :=
  match monthsLookup (toLowerCase month) with
  | MonthIndex m => Some (PDate (newDate (parseInt year) m (parseInt day)))
  | MonthInherited => Some PInvalidDate
  | MonthUndefined => None
  end.

Definition nativeFallback (trimmed : jsstring) : ParsedDate :=
  match nativeDateParse trimmed with
  | Some d => PDate d
  | None => PNull
  end.

Definition tryYearMonthDay (trimmed : jsstring) : ParsedDate :=
  match rxMatchWhole yearMonthDayRe trimmed with
  | Some [year; monthStr; day] =>
      match monthNameDate year monthStr day with
      | Some r => r
      | None => nativeFallback trimmed
      end
  | _ => nativeFallback trimmed
  end.

Definition tryMonthDayYear (trimmed : jsstring) : ParsedDate :=
  match rxMatchWhole monthDayYearRe trimmed with
  | Some [monthStr; day; year] =>
      match monthNameDate year monthStr day with
      | Some r => r
      | None => tryYearMonthDay trimmed
      end
  | _ => tryYearMonthDay trimmed
  end.

Definition tryDayMonthYear (trimmed : jsstring) : ParsedDate :=
  match rxMatchWhole dayMonthYearRe trimmed with
  | Some [day; monthStr; year] =>
      match monthNameDate year monthStr day with
      | Some r => r
      | None => tryMonthDayYear trimmed
      end
  | _ => tryMonthDayYear trimmed
  end.

Definition tryUs (trimmed : jsstring) : ParsedDate :=
  match rxMatchWhole usRe trimmed with
  | Some [first; second; year] =>
      let firstNum := parseInt first in
      let secondNum := parseInt second in
      if firstNum >? 12 then
        PDate (newDate (parseInt year) (secondNum - 1) firstNum)
      else if secondNum >? 12 then
        PDate (newDate (parseInt year) (firstNum - 1) secondNum)
      else
        PDate (newDate (parseInt year) (secondNum - 1) firstNum)
  | _ => tryDayMonthYear trimmed
  end.

Definition tryEuro (trimmed : jsstring) : ParsedDate :=
  match rxMatchWhole euroRe trimmed with
  | Some [day; month; year] =>
      PDate (newDate (parseInt year) (parseInt month - 1) (parseInt day))
  | _ => tryUs trimmed
  end.

Definition tryIso (trimmed : jsstring) : ParsedDate :=
  match rxMatchWhole isoRe trimmed with
  | Some [year; month; day] =>
      PDate (newDate (parseInt year) (parseInt month - 1) (parseInt day))
  | _ => tryEuro trimmed
  end.

(** [parseBirthdayInput(input)] *)
Definition parseBirthdayInput (input : jsstring) : ParsedDate :=
  match input with
  | [] => PNull
  | _ =>
      if streq (trim input) [] then PNull
      else tryIso (trim input)
  end.

End BirthdayParser.

(* ====================================================================== *)
(** * Reminder logic ([src/index.ts], TYPES and REMINDER LOGIC) *)
(* ====================================================================== *)

(** The numbers the reminder code computes with: integers, and the
    non-finite values that [Infinity] and its arithmetic bring in. *)
Inductive num :=
| Fin (z : Z)
| PosInf
| NegInf
| NaN.

Definition numSub (a b : num) : num :=
  match a, b with
  | Fin x, Fin y => Fin (x - y)
  | Fin _, PosInf => NegInf
  | Fin _, NegInf => PosInf
  | PosInf, (Fin _ | NegInf) => PosInf
  | NegInf, (Fin _ | PosInf) => NegInf
  | _, _ => NaN
  end.

(** [a >= 0] and [a > 0] *)
Definition numGe0 (a : num) : bool :=
  match a with
  | Fin z => 0 <=? z
  | PosInf => true
  | _ => false
  end.

Definition numGt0 (a : num) : bool :=
  match a with
  | Fin z => 0 <? z
  | PosInf => true
  | _ => false
  end.

Record Person := {
  uuid : jsstring;
  name : jsstring;
  birthday : option Date;
  lastContact : option Date;
  contactFrequency : option Z;
  relationship : option jsstring;
  email : option jsstring
}.

Record BirthdayReminder := {
  brPerson : Person;
  daysUntil : Z;
  age : option Z
}.

Record ContactReminder := {
  crPerson : Person;
  daysSinceContact : num;
  daysOverdue : num
}.

(** [Array.prototype.sort(compare)]: the sort is stable, and an element
    moves behind another only when [compare] of the two is positive; with
    a consistent comparator this determines the result, which insertion
    from the right computes. *)
Section ArraySort.
Context {A : Type} (compare : A -> A -> num).

Fixpoint sortInsert (x : A) (l : list A) : list A :=
  match l with
  | [] => [x]
  | y :: l' =>
      if numGt0 (compare x y) then y :: sortInsert x l'
      else x :: y :: l'
  end.

Fixpoint arraySort (l : list A) : list A :=
  match l with
  | [] => []
  | x :: l' => sortInsert x (arraySort l')
  end.
End ArraySort.

(** The loop body of [getUpcomingBirthdays]: the reminder pushed for one
    person, if any. *)
Definition birthdayReminderOf (now : Date) (withinDays : Z) (person : Person)
  : option BirthdayReminder :=
  match birthday person with
  | None => None
  | Some b =>
      let daysUntil := getDaysUntilBirthday now b in
      if daysUntil <=? withinDays then
        Some {| brPerson := person;
                daysUntil := daysUntil;
                age := Some (if daysUntil =? 0 then calculateAge now b
                             else calculateAge now b + 1) |}
      else None
  end.

Fixpoint filterMap {A B : Type} (f : A -> option B) (l : list A) : list B :=
  match l with
  | [] => []
  | x :: l' =>
      match f x with
      | Some y => y :: filterMap f l'
      | None => filterMap f l'
      end
  end.

(** [getUpcomingBirthdays(people, withinDays)] *)
Definition getUpcomingBirthdays (now : Date) (people : list Person)
    (withinDays : Z) : list BirthdayReminder :=
  let reminders := filterMap (birthdayReminderOf now withinDays) people in
  arraySort (fun a b => Fin (daysUntil a - daysUntil b)) reminders.

(** The loop body of [getPeopleToContact].  A frequency of [null] or [0]
    is "not configured". *)
Definition contactReminderOf (now : Date) (person : Person)
  : option ContactReminder :=
  match contactFrequency person with
  | None => None
  | Some 0 => None
  | Some freq =>
      let daysSince :=
        match lastContact person with
        | Some d => Fin (getDaysSince now d)
        | None => PosInf
        end in
      let daysOverdue := numSub daysSince (Fin freq) in
      if numGe0 daysOverdue
         || (match lastContact person with None => true | Some _ => false end)
      then
        Some {| crPerson := person;
                daysSinceContact :=
                  match daysSince with PosInf => Fin (-1) | _ => daysSince end;
                daysOverdue :=
                  match lastContact person with
                  | Some _ => daysOverdue
                  | None => Fin freq
                  end |}
      else None
  end.

(** [getPeopleToContact(people)] *)
Definition getPeopleToContact (now : Date) (people : list Person)
  : list ContactReminder :=
  let reminders := filterMap (contactReminderOf now) people in
  arraySort (fun a b => numSub (daysOverdue b) (daysOverdue a)) reminders.

(* ====================================================================== *)
(** * The host application *)
(* ====================================================================== *)

(** The plugin reaches the host through asynchronous calls that resolve or
    reject.  A function of the source that awaits such calls is a [Prog]:
    a tree of calls, each continued by its outcome.  Nothing is assumed of
    the host here; [run] executes a program against any handler. *)
Module Host.

(** A property value: text, a number, or a reference to another entity
    by its identifier. *)
Inductive PropValue :=
| PropStr (s : jsstring)
| PropNum (z : Z)
| PropRef (id : jsstring).

(** A page or block entity as the host returns it: its identifier and
    its properties by key. *)
Record Page := {
  pageUuid : jsstring;
  pageProperties : list (jsstring * PropValue)
}.
Record Block := { blockUuid : jsstring }.

(** What a rejected call carries: the text [String(error)] gives. *)
Definition Error := jsstring.

Inductive HostCall : Type -> Type :=
| GetPage (pageName : jsstring) : HostCall (option Page)
| GetBlock (id : jsstring) : HostCall (option Page)
| CreatePage (pageName : jsstring) (journal : bool) : HostCall (option Page)
| AddBlockTag (target tag : jsstring) : HostCall unit
| UpsertBlockProperty (target key : jsstring) (value : PropValue)
  : HostCall unit
| AppendBlockInPage (page content : jsstring) : HostCall (option Block)
| ShowMsg (msg kind : jsstring) : HostCall unit.

Inductive Outcome (X : Type) :=
| Resolved (x : X)
| Rejected (e : Error).
Arguments Resolved {X} x.
Arguments Rejected {X} e.

Inductive Prog (A : Type) : Type :=
| Ret (a : A)
| Throw (e : Error)
| Await {X : Type} (c : HostCall X) (k : Outcome X -> Prog A).
Arguments Ret {A} a.
Arguments Throw {A} e.
Arguments Await {A X} c k.

Fixpoint bind {A B : Type} (p : Prog A) (f : A -> Prog B) : Prog B :=
  match p with
  | Ret a => f a
  | Throw e => Throw e
  | Await c k => Await c (fun o => bind (k o) f)
  end.

(** [await call]: a rejection is thrown at the point of the [await]. *)
Definition await {X : Type} (c : HostCall X) : Prog X :=
  Await c (fun o =>
    match o with
    | Resolved x => Ret x
    | Rejected e => Throw e
    end).

(** [try { p } catch (error) { handler(error) }] *)
Fixpoint tryCatch {A : Type} (p : Prog A) (handler : Error -> Prog A)
  : Prog A :=
  match p with
  | Ret a => Ret a
  | Throw e => handler e
  | Await c k => Await c (fun o => tryCatch (k o) handler)
  end.

Inductive AnyCall : Type :=
| Call : forall X : Type, HostCall X -> AnyCall.
Arguments Call {X} c.

Definition Handler (S : Type) : Type :=
  forall X : Type, HostCall X -> S -> S * Outcome X.

(** Run a program against a host: the final host state, the calls made
    in order, and the result or the uncaught error. *)
Fixpoint run {S A : Type} (h : Handler S) (p : Prog A) (s : S)
  : S * list AnyCall * Outcome A :=
  match p with
  | Ret a => (s, [], Resolved a)
  | Throw e => (s, [], Rejected e)
  | Await c k =>
      let '(s1, o) := h _ c s in
      let '(s2, calls, r) := run h (k o) s1 in
      (s2, Call c :: calls, r)
  end.

End Host.
Import Host.

Declare Scope prog_scope.
Delimit Scope prog_scope with prog.
Notation "x <- p ;; q" := (bind p (fun x => q))
  (at level 61, p at next level, right associativity) : prog_scope.
Notation "p ;;; q" := (bind p (fun _ => q))
  (at level 61, right associativity) : prog_scope.

(* ====================================================================== *)
(** * Person creation and the recurring birthday task *)
(* ====================================================================== *)

Definition PEOPLE_TAG_UUID : jsstring :=
  lit "00000002-3698-7117-0000-000000000000".
Definition TASK_TAG_UUID : jsstring :=
  lit "00000002-1282-1814-5700-000000000000".

Module PEOPLE_PROPERTIES.
Definition birthday : jsstring := lit "birthday-GB6GsLcK".
Definition lastContact : jsstring := lit "last-contact-zKo0vxkv".
Definition contactFrequency : jsstring := lit "contact-frequency-rE_86ouV".
Definition relationship : jsstring := lit "relationship-F2JPblxy".
Definition email : jsstring := lit "email-EYPFhTdc".
Definition phone : jsstring := lit "phone-jPxSkIoq".
End PEOPLE_PROPERTIES.

(** [NewPersonData].  [npName] is [None] when the caller passes no name
    at all, which [!data.name] also guards against. *)
Record NewPersonData := {
  npName : option jsstring;
  npBirthday : option jsstring;
  npRelationship : option jsstring;
  npContactFrequency : option Z;
  npEmail : option jsstring
}.

Record CreateResult := {
  success : bool;
  error : option jsstring
}.

Definition failure (msg : jsstring) : CreateResult :=
  {| success := false; error := Some msg |}.

(** A string used as a condition: [null] and the empty string are false. *)
Definition truthyString (s : option jsstring) : option jsstring :=
  match s with
  | Some (_ :: _) => s
  | _ => None
  end.

Definition quote : jsstring := [34%N].

(** The task text [`[[${personName}]]'s Birthday!`] *)
Definition birthdayTaskContent (personName : jsstring) : jsstring :=
  lit "[[" ++ personName ++ lit "]]'s Birthday!".

Section Lifecycle.
Local Open Scope prog_scope.

(** [new Date(text)], as in the parser. *)
Variable nativeDateParse : jsstring -> option Date.

(** Lines 1102-1129 of [handleBirthdayTaskCompleted], the property
    resolver applied to the person's page: find the [birthday] property,
    follow a reference to its date block with [getBlock], and read the
    date; [None] where the handler returns early for want of a
    birthday. *)
Variable resolveBirthdayDate : Page -> Prog (option Date).

(** [createBirthdayReminderTask(personName, birthday)] *)
Definition createBirthdayReminderTask (now : Date) (personName : jsstring)
    (birthday : Date) : Prog bool :=
  tryCatch
    (let nextBirthday := getNextBirthdayDate now birthday in
     let journalDateStr := formatDateForLogseq nextBirthday in
     journalPage <- await (GetPage journalDateStr) ;;
     journalPage <-
       match journalPage with
       | Some pg => Ret (Some pg)
       | None => await (CreatePage journalDateStr true)
       end ;;
     match journalPage with
     | None => Ret false
     | Some journalPage =>
         let taskContent := birthdayTaskContent personName in
         newBlock <-
           await (AppendBlockInPage (pageUuid journalPage) taskContent) ;;
         match newBlock with
         | Some newBlock => await (AddBlockTag (blockUuid newBlock) TASK_TAG_UUID)
         | None => Ret tt
         end ;;;
         Ret true
     end)
    (fun _ => Ret false).

(** [if (value) await upsertBlockProperty(page.uuid, key, value)] *)
Definition upsertIf (pg : Page) (key : jsstring) (value : option PropValue)
  : Prog unit :=
  match value with
  | Some v => await (UpsertBlockProperty (pageUuid pg) key v)
  | None => Ret tt
  end.

(** [createPerson(data)] *)
Definition createPerson (now : Date) (data : NewPersonData)
  : Prog CreateResult :=
  tryCatch
    (match truthyString (npName data) with
     | None => Ret (failure (lit "Name is required"))
     | Some n =>
         if streq (trim n) [] then Ret (failure (lit "Name is required"))
         else
           let personName := trim n in
           existingPage <- await (GetPage personName) ;;
           match existingPage with
           | Some _ =>
               Ret (failure (lit "A page named " ++ quote ++ personName
                             ++ quote ++ lit " already exists"))
           | None =>
               page <- await (CreatePage personName false) ;;
               match page with
               | None => Ret (failure (lit "Failed to create page"))
               | Some page =>
                   await (AddBlockTag (pageUuid page) PEOPLE_TAG_UUID) ;;;
                   upsertIf page PEOPLE_PROPERTIES.birthday
                     (option_map PropStr (truthyString (npBirthday data))) ;;;
                   upsertIf page PEOPLE_PROPERTIES.relationship
                     (option_map PropStr
                        (truthyString (npRelationship data))) ;;;
                   upsertIf page PEOPLE_PROPERTIES.contactFrequency
                     (match npContactFrequency data with
                      | Some f => if 0 <? f then Some (PropNum f) else None
                      | None => None
                      end) ;;;
                   upsertIf page PEOPLE_PROPERTIES.email
                     (option_map PropStr (truthyString (npEmail data))) ;;;
                   match truthyString (npBirthday data) with
                   | Some b =>
                       match nativeDateParse b with
                       | Some birthdayDate =>
                           _ <- createBirthdayReminderTask now personName
                                  birthdayDate ;;
                           Ret tt
                       | None => Ret tt
                       end
                   | None => Ret tt
                   end ;;;
                   Ret {| success := true; error := None |}
               end
           end
     end)
    (fun e => Ret (failure e)).

(** Lines 1131-1136 of [handleBirthdayTaskCompleted]: the date of the
    follow-up task. *)
Definition nextYearBirthday (now : Date) (birthdayDate : Date) : Date :=
  let today := setHours0 now in
  newDate (getFullYear today + 1) (getMonth birthdayDate)
    (getDate birthdayDate).

(** [handleBirthdayTaskCompleted(personName)] *)
Definition handleBirthdayTaskCompleted (now : Date) (personName : jsstring)
  : Prog unit :=
  tryCatch
    (personPage <- await (GetPage personName) ;;
     match personPage with
     | None => Ret tt
     | Some personPage =>
         birthdayDate <- resolveBirthdayDate personPage ;;
         match birthdayDate with
         | None => Ret tt
         | Some birthdayDate =>
             let journalDateStr :=
               formatDateForLogseq (nextYearBirthday now birthdayDate) in
             journalPage <- await (GetPage journalDateStr) ;;
             journalPage <-
               match journalPage with
               | Some pg => Ret (Some pg)
               | None => await (CreatePage journalDateStr true)
               end ;;
             match journalPage with
             | Some journalPage =>
                 let taskContent := birthdayTaskContent personName in
                 newBlock <-
                   await (AppendBlockInPage (pageUuid journalPage)
                            taskContent) ;;
                 match newBlock with
                 | Some newBlock =>
                     await (AddBlockTag (blockUuid newBlock) TASK_TAG_UUID)
                 | None => Ret tt
                 end
             | None => Ret tt
             end ;;;
             await (ShowMsg
                      (lit "Created next year's birthday reminder for "
                       ++ personName)
                      (lit "success"))
         end
     end)
    (fun _ => Ret tt).

End Lifecycle.

(** ** Detecting a completed birthday task *)

(** [[^\]]] and [['']] *)
Definition notCloseBracket (c : jschar) : bool := negb (isChar "]" c).
Definition isApostrophe (c : jschar) : bool := isChar "'" c || isChar "'" c.

(** [/\[\[([^\]]+)\]\]['']s Birthday/] *)
Definition birthdayTaskRe : list rxitem :=
  chars "[[" ++ [group notCloseBracket 1 None] ++ chars "]]"
  ++ [one isApostrophe] ++ chars "s Birthday".

(** [extractBirthdayPersonName(content)] *)
Definition extractBirthdayPersonName (content : jsstring) : option jsstring :=
  match rxSearch birthdayTaskRe content with
  | Some (personName :: _) => Some personName
  | _ => None
  end.

(** [isBirthdayTask(content)] *)
Definition isBirthdayTask (content : jsstring) : bool :=
  includes content (lit "'s Birthday") && includes content (lit "[[").

(** A changed block as the host reports it; [content] may be absent. *)
Record ChangedBlock := { content : option jsstring }.

(** The body of the loop in [setupTaskCompletionListener]: the person for
    whom [handleBirthdayTaskCompleted] is scheduled, if the block is a
    birthday task that is done. *)
Definition completionTrigger (block : ChangedBlock) : option jsstring :=
  let content := match content block with Some c => c | None => [] end in
  if isBirthdayTask content && startsWith content (lit "DONE") then
    match extractBirthdayPersonName content with
    | Some (c :: personName) => Some (c :: personName)
    | _ => None
    end
  else None.

(** The [onChanged] callback: the handler invocations it schedules, in
    order. *)
Definition onChanged (blocks : list ChangedBlock) : list jsstring :=
  filterMap completionTrigger blocks.

(** ** Reminder tasks on the current page *)

(** The task text of [createBirthdayTask(person, daysUntil)] (lines
    544-546), which the function inserts on the current page. *)
Definition createBirthdayTaskContent (personName : jsstring) (daysUntil : Z)
  : jsstring :=
  if daysUntil =? 0
  then lit "TODO [[" ++ personName ++ lit "]]'s Birthday is TODAY!"
  else lit "TODO [[" ++ personName ++ lit "]]'s Birthday in "
       ++ stringOfZ daysUntil ++ lit " days".

(** The task text of [createContactTask(person, daysOverdue)] (lines
    566-568). *)
Definition createContactTaskContent (personName : jsstring) (daysOverdue : Z)
  : jsstring :=
  if 0 <? daysOverdue
  then lit "TODO Reach out to [[" ++ personName ++ lit "]] ("
       ++ stringOfZ daysOverdue ++ lit " days overdue)"
  else lit "TODO Time to contact [[" ++ personName ++ lit "]]".

(* ====================================================================== *)
(** * Property helpers and stored dates ([src/index.ts], PROPERTY HELPERS) *)
(* ====================================================================== *)

(** [[A-Za-z0-9_-]] and [[^/]] *)
Definition isSuffixChar (c : jschar) : bool :=
  isAlpha c || isDigit c || isChar "_" c || isChar "-" c.
Definition notSlash (c : jschar) : bool := negb (isChar "/" c).

(** [pattern.test(key)] for a pattern anchored at both ends. *)
Definition rxTest (items : list rxitem) (key : jsstring) : bool :=
  match rxMatchWhole items key with
  | Some _ => true
  | None => false
  end.

(** A pattern that ends in the optional group [(-[A-Za-z0-9_-]+)?$]:
    the key matches with the group or without it. *)
Definition withOptionalSuffix (items : list rxitem) (key : jsstring) : bool :=
  rxTest (items ++ [chr "-"; plus isSuffixChar]) key || rxTest items key.

(** The three patterns built from the base name, for a base name of
    letters and hyphens, which a pattern takes literally; every caller
    passes such a name.
    [^:user\.property/${baseName}(-[A-Za-z0-9_-]+)?$],
    [^:plugin\.property\.[^/]+/${baseName}(-[A-Za-z0-9_-]+)?$] and
    [^${baseName}-[A-Za-z0-9_-]+$]. *)
Definition userPropPattern (baseName : string) : jsstring -> bool :=
  withOptionalSuffix (chars ":user.property/" ++ chars baseName).
Definition pluginPropPattern (baseName : string) : jsstring -> bool :=
  withOptionalSuffix
    (chars ":plugin.property." ++ [plus notSlash] ++ chars "/"
     ++ chars baseName).
Definition suffixedPattern (baseName : string) : jsstring -> bool :=
  rxTest (chars baseName ++ [chr "-"; plus isSuffixChar]).

Section FindProperty.
Context {V : Type}.

(** The value of the first key, in the order of [Object.keys], that
    passes [test]. *)
Definition firstKey (test : jsstring -> bool) (obj : list (jsstring * V))
  : option V :=
  option_map snd (find (fun e => test (fst e)) obj).

(** [findProperty(obj, baseName)]: [obj] is the list of the object's keys
    with their values, none of them [undefined]; [None] is
    [undefined]. *)
Definition findProperty (obj : list (jsstring * V)) (baseName : string)
  : option V :=
  match firstKey (fun key => streq key (lit baseName)) obj with
  | Some v => Some v
  | None =>
      match firstKey (userPropPattern baseName) obj with
      | Some v => Some v
      | None =>
          match firstKey (pluginPropPattern baseName) obj with
          | Some v => Some v
          | None => firstKey (suffixedPattern baseName) obj
          end
      end
  end.

End FindProperty.

(** [s.substring(a, b)] for [a <= b]; both ends are clamped to the
    length of [s]. *)
Definition substring (s : jsstring) (a b : nat) : jsstring :=
  firstn (b - a) (skipn a s).

(** The longest prefix of [s] in class [cls]. *)
Definition takeWhile (cls : jschar -> bool) (s : jsstring) : jsstring :=
  firstn (runLength cls (List.length s) s) s.

(** [[0-9a-fA-F]] and the value of such a digit. *)
Definition isHexDigit (c : jschar) : bool :=
  (isDigit c || ((97 <=? c) && (c <=? 102)) || ((65 <=? c) && (c <=? 70)))%N.
Definition hexValue (c : jschar) : Z :=
  if isDigit c then Z.of_N c - 48
  else if (97 <=? c)%N then Z.of_N c - 87
  else Z.of_N c - 55.

(** [parseInt(s)] with no radix: leading white space is skipped, a sign
    is read, [0x] or [0X] selects base 16, and the longest run of digits
    of the base is the number; [None] is [NaN], the result when there is
    no digit. *)
Definition jsParseInt (s : jsstring) : option Z :=
  let s := trimStart s in
  let '(sign, s) :=
    match s with
    | c :: r =>
        if isChar "-" c then (-1, r)
        else if isChar "+" c then (1, r)
        else (1, s)
    | [] => (1, s)
    end in
  let '(hex, s) :=
    match s with
    | z :: x :: r =>
        if isChar "0" z && (isChar "x" x || isChar "X" x) then (true, r)
        else (false, s)
    | _ => (false, s)
    end in
  if hex then
    match takeWhile isHexDigit s with
    | [] => None
    | ds => Some (sign * fold_left (fun acc c => 16 * acc + hexValue c) ds 0)
    end
  else
    match takeWhile isDigit s with
    | [] => None
    | ds => Some (sign * parseInt ds)
    end.

(** [parseJournalDay(journalDay)], for an integer [journalDay] below
    10^21 in magnitude, which [String] writes in decimal digits.  A field
    that [parseInt] cannot read makes the date invalid. *)
Definition parseJournalDay (journalDay : Z) : ParsedDate :=
  let str := stringOfZ journalDay in
  match jsParseInt (substring str 0 4),
        jsParseInt (substring str 4 6),
        jsParseInt (substring str 6 8) with
  | Some year, Some month, Some day => PDate (newDate year (month - 1) day)
  | _, _, _ => PInvalidDate
  end.

(** A value of any type, as far as [parseDate] tells values apart: an
    object is given by its fields [journal] and [date], [VUndefined]
    when absent; a [Date] by its time value, [None] when it has none. *)
Inductive JsValue :=
| VUndefined
| VNull
| VBoolean (b : bool)
| VNumber (n : num)
| VString (s : jsstring)
| VDate (t : option Date)
| VObject (journal date : JsValue).

(** A value used as a condition. *)
Definition truthy (value : JsValue) : bool :=
  match value with
  | VUndefined | VNull => false
  | VBoolean b => b
  | VNumber (Fin 0) | VNumber NaN => false
  | VNumber _ => true
  | VString [] => false
  | VString _ => true
  | VDate _ | VObject _ _ => true
  end.

(** [new Date(value)] for a number: a time value beyond 8.64e15 ms on
    either side of the epoch is no time value. *)
Definition newDateOfNumber (n : num) : ParsedDate :=
  match n with
  | Fin z =>
      if (-8640000000000000 <=? z) && (z <=? 8640000000000000) then PDate z
      else PInvalidDate
  | _ => PInvalidDate
  end.

(** [/(\d{4})-(\d{2})-(\d{2})/] *)
Definition ymdRe : list rxitem :=
  [digits 4 4; chr "-"; digits 2 2; chr "-"; digits 2 2].

(** [parseDate(value)] *)
Fixpoint parseDate (nativeDateParse : jsstring -> option Date)
    (value : JsValue) : ParsedDate :=
  if negb (truthy value) then PNull
  else
    match value with
    | VNumber n => newDateOfNumber n
    | VString s =>
        match nativeDateParse s with
        | Some date => PDate date
        | None =>
            match rxSearch ymdRe s with
            | Some [year; month; day] =>
                PDate (newDate (parseInt year) (parseInt month - 1)
                         (parseInt day))
            | _ => PNull
            end
        end
    | VDate (Some t) => PDate t
    | VDate None => PInvalidDate
    | VObject journal date =>
        if truthy journal then parseDate nativeDateParse journal
        else if truthy date then parseDate nativeDateParse date
        else PNull
    | _ => PNull
    end.

(* ====================================================================== *)
(** * Vocabulary of the statements

    What the properties below are stated with: sample data, the
    specification's own wording of a rule where a statement compares the
    code with it, and a reference host. *)
(* ====================================================================== *)

(** A person with the given name, birthday, last contact and cadence. *)
Definition examplePerson (n : string) (b lc : option Date) (f : option Z)
  : Person :=
  {| uuid := lit n; name := lit n; birthday := b; lastContact := lc;
     contactFrequency := f; relationship := None; email := None |}.

(** 1 June 2024, and a person born on 1 June 1990. *)
Definition june1_2024 : Date := newDate 2024 5 1.
Definition alice : Person :=
  examplePerson "Alice" (Some (newDate 1990 5 1)) None None.

(** A person never contacted, one last contacted on 12 May 2024 and one
    on 27 May 2024, each with a cadence of 14 days. *)
Definition bob : Person := examplePerson "Bob" None None (Some 14).
Definition carol : Person :=
  examplePerson "Carol" None (Some (newDate 2024 4 12)) (Some 14).
Definition dave : Person :=
  examplePerson "Dave" None (Some (newDate 2024 4 27)) (Some 14).

(** The specification's words for [derivePeopleToContact]: a person is
    listed when a cadence is configured and either the last contact is
    unknown or the days since it reach the cadence; the overdue value is
    the excess over the cadence, or the cadence itself for a person never
    contacted. *)
Definition specListed (now : Date) (p : Person) : bool :=
  match contactFrequency p with
  | None => false
  | Some f =>
      negb (f =? 0) &&
      match lastContact p with
      | Some d => 0 <=? getDaysSince now d - f
      | None => true
      end
  end.

Definition specDaysOverdue (now : Date) (p : Person) : Z :=
  match contactFrequency p, lastContact p with
  | Some f, Some d => getDaysSince now d - f
  | Some f, None => f
  | None, _ => 0
  end.

Definition specDaysSinceContact (now : Date) (p : Person) : Z :=
  match lastContact p with
  | Some d => getDaysSince now d
  | None => -1
  end.

(** Sorting descending by [daysOverdue] is sorting ascending by its
    negation; the overdue values that occur are finite. *)
Definition overdueKey (r : ContactReminder) : Z :=
  match daysOverdue r with
  | Fin z => - z
  | _ => 0
  end.

Definition finiteOverdue (r : ContactReminder) : Prop :=
  exists z, daysOverdue r = Fin z.

(** The order of a list sorted ascending by [key]. *)
Definition keyLe {A : Type} (key : A -> Z) (a b : A) : Prop :=
  key a <= key b.

(** The elements of one key, in their order. *)
Definition withKey {A : Type} (key : A -> Z) (k : Z) (l : list A) : list A :=
  filter (fun a => key a =? k) l.

(** Every character of [s] is in the class [cls]. *)
Definition allIn (cls : jschar -> bool) (s : jsstring) : Prop :=
  Forall (fun c => cls c = true) s.

(** The text [rest] does not continue a run of [cls]. *)
Definition stops (cls : jschar -> bool) (rest : jsstring) : Prop :=
  match rest with
  | [] => True
  | c :: _ => cls c = false
  end.

(** Two patterns of the same shape, the classes of the second including
    those of the first. *)
Inductive rxWider : list rxitem -> list rxitem -> Prop :=
| rxWider_nil : rxWider [] []
| rxWider_cons (i1 i2 : rxitem) (l1 l2 : list rxitem) :
    (forall c, rxClass i1 c = true -> rxClass i2 c = true) ->
    rxMin i1 = rxMin i2 -> rxMax i1 = rxMax i2 ->
    rxWider l1 l2 -> rxWider (i1 :: l1) (i2 :: l2).

(** A run of [lo] to [hi] decimal digits. *)
Definition numeral (lo hi : nat) (a : jsstring) : Prop :=
  allIn isDigit a /\ (lo <= List.length a <= hi)%nat.

(** The date [new Date(year, month - 1, day)] of three numeric fields. *)
Definition fieldsDate (year month day : jsstring) : Date :=
  newDate (parseInt year) (parseInt month - 1) (parseInt day).

Definition dash : jschar := N_of_ascii "-".
Definition slash : jschar := N_of_ascii "/".

(** U+0027 and U+2019. *)
Definition straightApostrophe : jschar := 39%N.
Definition curlyApostrophe : jschar := 8217%N.

(** The specification's pattern [[[<Name>]]'s Birthday], with [apos] for
    the apostrophe: somewhere in [content], a non-empty name without [']']
    in double brackets, followed by the apostrophe and [s Birthday]. *)
Definition matchesBirthdayPattern (apos : jschar) (content : jsstring)
  : Prop :=
  exists pre personName post,
    content = pre ++ lit "[[" ++ personName ++ lit "]]"
              ++ apos :: lit "s Birthday" ++ post /\
    personName <> [] /\ allIn notCloseBracket personName.

(** No usable name: none passed, or one that is empty once trimmed. *)
Definition nameMissing (data : NewPersonData) : Prop :=
  match npName data with
  | None => True
  | Some n => trim n = []
  end.

(** ** A reference host *)

Module RefHost.

(** Modelled from the spec: the host's record store behind the
    collaborator operations of section 6 ([findRecordByName],
    [createRecord], [appendEntry], [tagEntry], [setProperty]), which is
    not part of the source.  A page is identified by its name, a block
    by its page and position, and no call is rejected. *)
Record StoredPage := {
  spName : jsstring;
  spJournal : bool;
  spBlocks : list jsstring
}.

Record Store := {
  stPages : list StoredPage;
  stTags : list (jsstring * jsstring);
  stProps : list (jsstring * jsstring * PropValue);
  stMsgs : list jsstring
}.

Definition findPage (n : jsstring) (pages : list StoredPage)
  : option StoredPage :=
  find (fun p => streq (spName p) n) pages.

Definition appendBlock (n content : jsstring) (pages : list StoredPage)
  : list StoredPage :=
  map (fun p =>
         if streq (spName p) n
         then {| spName := spName p; spJournal := spJournal p;
                 spBlocks := spBlocks p ++ [content] |}
         else p) pages.

(** The properties set on the entity [target]. *)
Definition propsOf (st : Store) (target : jsstring)
  : list (jsstring * PropValue) :=
  map (fun e => (snd (fst e), snd e))
    (filter (fun e => streq (fst (fst e)) target) (stProps st)).

Definition pageOf (st : Store) (n : jsstring) : Page :=
  {| pageUuid := n; pageProperties := propsOf st n |}.

Definition withPages (st : Store) (pages : list StoredPage) : Store :=
  {| stPages := pages; stTags := stTags st; stProps := stProps st;
     stMsgs := stMsgs st |}.

Definition handler : Handler Store :=
  fun X c st =>
    match c in HostCall X return Store * Outcome X with
    | GetPage n =>
        (st, Resolved
               (option_map (fun p => pageOf st (spName p))
                  (findPage n (stPages st))))
    | GetBlock id =>
        (st, Resolved
               (option_map (fun p => pageOf st (spName p))
                  (findPage id (stPages st))))
    | CreatePage n journal =>
        match findPage n (stPages st) with
        | Some _ => (st, Resolved None)
        | None =>
            (withPages st
               (stPages st
                ++ [{| spName := n; spJournal := journal; spBlocks := [] |}]),
             Resolved (Some {| pageUuid := n; pageProperties := [] |}))
        end
    | AddBlockTag target tag =>
        ({| stPages := stPages st; stTags := stTags st ++ [(target, tag)];
            stProps := stProps st; stMsgs := stMsgs st |},
         Resolved tt)
    | UpsertBlockProperty target key value =>
        ({| stPages := stPages st; stTags := stTags st;
            stProps := stProps st ++ [(target, key, value)];
            stMsgs := stMsgs st |},
         Resolved tt)
    | AppendBlockInPage pg content =>
        match findPage pg (stPages st) with
        | Some p =>
            (withPages st (appendBlock pg content (stPages st)),
             Resolved
               (Some {| blockUuid :=
                          pg ++ lit "/"
                          ++ stringOfZ (Z.of_nat (List.length (spBlocks p)))
                     |}))
        | None => (st, Resolved None)
        end
    | ShowMsg msg _ =>
        ({| stPages := stPages st; stTags := stTags st;
            stProps := stProps st; stMsgs := stMsgs st ++ [msg] |},
         Resolved tt)
    end.

(** The blocks on the page named [n]; none when there is no such page. *)
Definition blocksOn (st : Store) (n : jsstring) : list jsstring :=
  match findPage n (stPages st) with
  | Some p => spBlocks p
  | None => []
  end.

Definition emptyStore : Store :=
  {| stPages := []; stTags := []; stProps := []; stMsgs := [] |}.

Definition storeWithPage (n : jsstring) : Store :=
  withPages emptyStore
    [{| spName := n; spJournal := false; spBlocks := [] |}].

End RefHost.

(** The tail of [handleBirthdayTaskCompleted], from the lookup of the
    journal page on: the block is appended to the page of that name. *)
Definition scheduleOn (journalDateStr personName : jsstring) : Prog unit :=
  (journalPage <- await (GetPage journalDateStr) ;;
   journalPage <-
     match journalPage with
     | Some pg => Ret (Some pg)
     | None => await (CreatePage journalDateStr true)
     end ;;
   match journalPage with
   | Some journalPage =>
       newBlock <-
         await (AppendBlockInPage (pageUuid journalPage)
                  (birthdayTaskContent personName)) ;;
       match newBlock with
       | Some newBlock =>
           await (AddBlockTag (blockUuid newBlock) TASK_TAG_UUID)
       | None => Ret tt
       end
   | None => Ret tt
   end ;;;
   await (ShowMsg
            (lit "Created next year's birthday reminder for " ++ personName)
            (lit "success")))%prog.

(** The person's page exists and its birthday resolves to [b], the host
    being left in state [st1]. *)
Definition resolvesTo (resolve : Page -> Prog (option Date))
    (personName : jsstring) (st st1 : RefHost.Store) (b : Date) : Prop :=
  RefHost.findPage personName (RefHost.stPages st) <> None /\
  exists calls,
    run RefHost.handler (resolve (RefHost.pageOf st personName)) st
    = (st1, calls, Resolved (Some b)).

(** The host state a run ends in. *)
Definition storeAfter {A : Type} (r : RefHost.Store * list AnyCall * Outcome A)
  : RefHost.Store := fst (fst r).

(** A non-empty run of letters, and of white space. *)
Definition word (s : jsstring) : Prop := allIn isAlpha s /\ s <> [].
Definition spaces (s : jsstring) : Prop := allIn isWhiteSpace s /\ s <> [].

(** [s] is the decimal numeral of [value], written with [len] digits. *)
Definition isNumeral (len : nat) (value : Z) (s : jsstring) : bool :=
  forallb isDigit s && (List.length s =? len)%nat && (parseInt s =? value).

(** A hyphen and a non-empty run of [[A-Za-z0-9_-]]. *)
Definition suffixOf (opt : jsstring) : Prop :=
  exists suffix,
    opt = dash :: suffix /\ suffix <> [] /\ allIn isSuffixChar suffix.

(** The keys under which [findProperty] looks for [baseName]: the name
    itself, the name in the user namespace or in the namespace of a
    plug-in, with or without a suffix, and the name with a suffix. *)
Definition propertyKey (baseName : string) (key : jsstring) : Prop :=
  key = lit baseName \/
  (exists opt,
      key = lit ":user.property/" ++ lit baseName ++ opt /\
      (opt = [] \/ suffixOf opt)) \/
  (exists id opt,
      id <> [] /\ allIn notSlash id /\
      key = lit ":plugin.property." ++ id ++ lit "/" ++ lit baseName ++ opt /\
      (opt = [] \/ suffixOf opt)) \/
  (exists opt, key = lit baseName ++ opt /\ suffixOf opt).

(** The base names under which the plugin reads the properties of a
    person, each with the identifier under which it writes the
    property. *)
Definition personPropertyNames : list (string * jsstring) :=
  [ ("birthday", PEOPLE_PROPERTIES.birthday);
    ("last-contact", PEOPLE_PROPERTIES.lastContact);
    ("contact-frequency", PEOPLE_PROPERTIES.contactFrequency);
    ("relationship", PEOPLE_PROPERTIES.relationship);
    ("email", PEOPLE_PROPERTIES.email) ]%string.

(** Every call a program can make, whatever the host answers, is one
    that [allowed] admits. *)
Fixpoint callsIn {A : Type} (allowed : AnyCall -> Prop) (p : Prog A)
  : Prop :=
  match p with
  | Ret _ | Throw _ => True
  | Await c k => allowed (Call c) /\ forall o, callsIn allowed (k o)
  end.

(** The calls of a run. *)
Definition callsOf {S A : Type} (r : S * list AnyCall * Outcome A)
  : list AnyCall := snd (fst r).

(** The properties [createPerson] may write for the form [data]: a field
    that holds something, and a contact frequency above zero. *)
Definition writtenFields (data : NewPersonData)
  : list (jsstring * PropValue) :=
  (match truthyString (npBirthday data) with
   | Some b => [(PEOPLE_PROPERTIES.birthday, PropStr b)]
   | None => []
   end)
  ++ (match truthyString (npRelationship data) with
      | Some r => [(PEOPLE_PROPERTIES.relationship, PropStr r)]
      | None => []
      end)
  ++ (match npContactFrequency data with
      | Some f =>
          if 0 <? f then [(PEOPLE_PROPERTIES.contactFrequency, PropNum f)]
          else []
      | None => []
      end)
  ++ (match truthyString (npEmail data) with
      | Some e => [(PEOPLE_PROPERTIES.email, PropStr e)]
      | None => []
      end).

(** What [createPerson] may ask of the host for the form [data]. *)
Definition personCall (data : NewPersonData) (call : AnyCall) : Prop :=
  match call with
  | Call c =>
      match c with
      | GetPage _ => True
      | GetBlock _ => False
      | CreatePage pageName journal =>
          journal = true \/ Some pageName = option_map trim (npName data)
      | AddBlockTag _ tag => tag = PEOPLE_TAG_UUID \/ tag = TASK_TAG_UUID
      | UpsertBlockProperty _ key value => In (key, value) (writtenFields data)
      | AppendBlockInPage _ text =>
          exists n, npName data = Some n
                    /\ text = birthdayTaskContent (trim n)
      | ShowMsg _ _ => False
      end
  end.

(** What [handleBirthdayTaskCompleted] may ask of the host for
    [personName], the look-ups of its property resolver included. *)
Definition completionCall (personName : jsstring) (call : AnyCall) : Prop :=
  match call with
  | Call c =>
      match c with
      | GetPage _ | GetBlock _ => True
      | CreatePage _ journal => journal = true
      | AddBlockTag _ tag => tag = TASK_TAG_UUID
      | UpsertBlockProperty _ _ _ => False
      | AppendBlockInPage _ text => text = birthdayTaskContent personName
      | ShowMsg msg kind =>
          msg = lit "Created next year's birthday reminder for "
                ++ personName
          /\ kind = lit "success"
      end
  end.

(* ====================================================================== *)
(** * Facts about the calendar functions *)
(* ====================================================================== *)

(** Linear arithmetic with the floor divisions of the calendar made
    explicit. *)
Ltac zlia := Z.div_mod_to_equations; lia.

Section CalendarFacts.

Lemma DaysInYear_step (y : Z) :
  DayFromYear (y + 1) = DayFromYear y + DaysInYear y.
Proof.
  unfold DayFromYear, DaysInYear, isLeapYear.
  destruct (y mod 4 =? 0) eqn:E4; cbn [negb];
    [ destruct (y mod 100 =? 0) eqn:E100; cbn [negb];
      [ destruct (y mod 400 =? 0) eqn:E400 | ] | ];
    repeat match goal with
           | H : (_ =? _) = true |- _ => apply Z.eqb_eq in H
           | H : (_ =? _) = false |- _ => apply Z.eqb_neq in H
           end; zlia.
Qed.

Lemma DayFromYear_le (y1 y2 : Z) :
  y1 <= y2 -> DayFromYear y1 <= DayFromYear y2.
Proof. unfold DayFromYear. zlia. Qed.

(** [yearFromDay d] is the year whose days contain [d]. *)
Lemma yearFromDay_spec (d : Z) :
  DayFromYear (yearFromDay d) <= d < DayFromYear (yearFromDay d + 1).
Proof.
  unfold yearFromDay.
  set (y0 := 1970 + 400 * d / 146097).
  assert (Hlo : DayFromYear (y0 - 1) <= d)
    by (unfold y0, DayFromYear; zlia).
  assert (Hhi : d < DayFromYear (y0 + 2))
    by (unfold y0, DayFromYear; zlia).
  destruct (DayFromYear (y0 + 1) <=? d) eqn:E1.
  - apply Z.leb_le in E1. replace (y0 + 1 + 1) with (y0 + 2) by lia. lia.
  - apply Z.leb_gt in E1.
    destruct (DayFromYear y0 <=? d) eqn:E0.
    + apply Z.leb_le in E0. lia.
    + apply Z.leb_gt in E0. replace (y0 - 1 + 1) with y0 by lia. lia.
Qed.

Lemma yearFromDay_unique (d y : Z) :
  DayFromYear y <= d < DayFromYear (y + 1) -> yearFromDay d = y.
Proof.
  intros [Hlo Hhi].
  destruct (yearFromDay_spec d) as [Glo Ghi].
  destruct (Z.lt_trichotomy (yearFromDay d) y) as [Hlt | [Heq | Hgt]]; auto.
  - assert (DayFromYear (yearFromDay d + 1) <= DayFromYear y)
      by (apply DayFromYear_le; lia). lia.
  - assert (DayFromYear (y + 1) <= DayFromYear (yearFromDay d))
      by (apply DayFromYear_le; lia). lia.
Qed.

Lemma Day_MakeDate (day tm : Z) :
  0 <= tm < msPerDay -> Day (MakeDate day tm) = day.
Proof. unfold Day, MakeDate, msPerDay. intros. zlia. Qed.



Lemma leap_flag_DaysInYear (y : Z) :
  DaysInYear y = 365 + (if isLeapYear y then 1 else 0).
Proof. unfold DaysInYear. destruct (isLeapYear y); reflexivity. Qed.

(** A month index in range is one of the twelve. *)
Lemma month_cases (m : Z) :
  0 <= m <= 11 ->
  m = 0 \/ m = 1 \/ m = 2 \/ m = 3 \/ m = 4 \/ m = 5 \/
  m = 6 \/ m = 7 \/ m = 8 \/ m = 9 \/ m = 10 \/ m = 11.
Proof. lia. Qed.

Lemma monthOfYearDay_inv (leap m d : Z) :
  0 <= leap <= 1 -> 0 <= m <= 11 ->
  1 <= d <= daysInMonthTable leap m ->
  monthOfYearDay leap (daysBeforeMonth leap m + d - 1) = m.
Proof.
  intros Hl Hm Hd.
  assert (Hleap : leap = 0 \/ leap = 1) by lia.
  apply month_cases in Hm.
  destruct Hleap; subst leap;
    repeat (destruct Hm as [Hm | Hm]); subst m;
    unfold monthOfYearDay, daysBeforeMonth, daysInMonthTable in *;
    repeat match goal with
           | |- context [?a <? ?b] =>
               destruct (Z.ltb_spec a b); try lia
           end.
Qed.

Lemma daysBeforeMonth_bound (leap m d : Z) :
  0 <= leap <= 1 -> 0 <= m <= 11 ->
  1 <= d <= daysInMonthTable leap m ->
  0 <= daysBeforeMonth leap m + d - 1 < 365 + leap.
Proof.
  intros Hl Hm Hd.
  assert (Hleap : leap = 0 \/ leap = 1) by lia.
  apply month_cases in Hm.
  destruct Hleap; subst leap;
    repeat (destruct Hm as [Hm | Hm]); subst m;
    unfold daysBeforeMonth, daysInMonthTable in *; lia.
Qed.

(** Reading back a date built from an existing calendar day. *)
Lemma civil_MakeDay (y m d tm : Z) :
  0 <= m <= 11 -> 1 <= d <= DaysInMonth y m -> 0 <= tm < msPerDay ->
  let t := MakeDate (MakeDay y m d) tm in
  YearFromTime t = y /\ MonthFromTime t = m /\ DateFromTime t = d.
Proof.
  intros Hm Hd Htm t.
  assert (Hday : Day t = MakeDay y m d) by (apply Day_MakeDate; exact Htm).
  assert (Hmk : MakeDay y m d =
                DayFromYear y
                + daysBeforeMonth (if isLeapYear y then 1 else 0) m + d - 1).
  { unfold MakeDay. replace (m / 12) with 0 by zlia.
    replace (m mod 12) with m by zlia.
    replace (y + 0) with y by lia. reflexivity. }
  set (leap := if isLeapYear y then 1 else 0) in *.
  assert (Hl : 0 <= leap <= 1) by (unfold leap; destruct (isLeapYear y); lia).
  unfold DaysInMonth in Hd. fold leap in Hd.
  assert (Hbound : 0 <= daysBeforeMonth leap m + d - 1 < 365 + leap)
    by (apply daysBeforeMonth_bound; assumption).
  assert (Hy : YearFromTime t = y).
  { unfold YearFromTime. rewrite Hday, Hmk. apply yearFromDay_unique.
    rewrite DaysInYear_step, leap_flag_DaysInYear. fold leap. lia. }
  assert (Hdwy : DayWithinYear t = daysBeforeMonth leap m + d - 1).
  { unfold DayWithinYear. rewrite Hy, Hday, Hmk. lia. }
  assert (Hil : InLeapYear t = leap).
  { unfold InLeapYear. rewrite Hy. reflexivity. }
  assert (Hmo : MonthFromTime t = m).
  { unfold MonthFromTime. rewrite Hil, Hdwy.
    apply monthOfYearDay_inv; assumption. }
  repeat split; auto.
  unfold DateFromTime. rewrite Hmo, Hil, Hdwy. lia.
Qed.

(** Every date reads back as an existing calendar day. *)
Lemma civil_range (t : Z) :
  0 <= MonthFromTime t <= 11 /\
  1 <= DateFromTime t <= DaysInMonth (YearFromTime t) (MonthFromTime t).
Proof.
  unfold DateFromTime, MonthFromTime, DaysInMonth.
  assert (Hil : InLeapYear t = if isLeapYear (YearFromTime t) then 1 else 0)
    by reflexivity.
  rewrite <- Hil.
  assert (Hd : 0 <= DayWithinYear t < 365 + InLeapYear t).
  { unfold DayWithinYear, YearFromTime.
    pose proof (yearFromDay_spec (Day t)) as Hs.
    rewrite DaysInYear_step, leap_flag_DaysInYear in Hs.
    rewrite Hil. unfold YearFromTime. lia. }
  assert (Hl : InLeapYear t = 0 \/ InLeapYear t = 1)
    by (rewrite Hil; destruct (isLeapYear _); auto).
  generalize dependent (DayWithinYear t). intros dwy Hd.
  destruct Hl as [Hl | Hl]; rewrite Hl in *; clear Hil Hl;
    unfold monthOfYearDay;
    repeat match goal with
           | |- context [?a <? ?b] =>
               destruct (Z.ltb_spec a b);
               [unfold daysBeforeMonth, daysInMonthTable; lia | ]
           end; unfold daysBeforeMonth, daysInMonthTable; lia.
Qed.

End CalendarFacts.

(* ====================================================================== *)
(** * Properties of [Array.prototype.sort] as modelled *)
(* ====================================================================== *)

Section SortFacts.
Context {A : Type} (compare : A -> A -> num) (key : A -> Z).

(** The elements being sorted all lie in [dom], on which the comparator
    orders by [key], ascending. *)
Variable dom : A -> Prop.
Hypothesis compare_key :
  forall x y, dom x -> dom y -> numGt0 (compare x y) = (key y <? key x).

Lemma sortInsert_perm (x : A) (l : list A) :
  Permutation (x :: l) (sortInsert compare x l).
Proof.
  induction l as [| y l IH]; simpl; auto.
  destruct (numGt0 (compare x y)); auto.
  eapply perm_trans; [apply perm_swap | apply perm_skip, IH].
Qed.

Lemma arraySort_perm (l : list A) : Permutation l (arraySort compare l).
Proof.
  induction l as [| x l IH]; simpl; auto.
  eapply perm_trans; [apply perm_skip, IH | apply sortInsert_perm].
Qed.

Lemma arraySort_In (x : A) (l : list A) :
  In x (arraySort compare l) <-> In x l.
Proof.
  split; apply Permutation_in;
    [apply Permutation_sym |]; apply arraySort_perm.
Qed.

Lemma arraySort_Forall (P : A -> Prop) (l : list A) :
  Forall P l -> Forall P (arraySort compare l).
Proof.
  intros H. eapply Permutation_Forall; [apply arraySort_perm | exact H].
Qed.

Lemma sortInsert_sorted (x : A) (l : list A) :
  dom x -> Forall dom l ->
  StronglySorted (keyLe key) l -> StronglySorted (keyLe key) (sortInsert compare x l).
Proof.
  intros Hx Hl Hs. induction Hs as [| y l Hs IH Hy]; simpl.
  - repeat constructor.
  - inversion Hl as [| ? ? Hdy Hdl]; subst.
    rewrite (compare_key x y Hx Hdy).
    destruct (Z.ltb_spec (key y) (key x)) as [Hlt | Hge].
    + constructor; [apply IH; assumption |].
      eapply Permutation_Forall; [apply sortInsert_perm |].
      constructor; [unfold keyLe; lia | exact Hy].
    + constructor; [constructor; assumption |].
      constructor; [exact Hge |].
      eapply Forall_impl; [| exact Hy].
      unfold keyLe. intros; lia.
Qed.

Lemma arraySort_sorted (l : list A) :
  Forall dom l -> StronglySorted (keyLe key) (arraySort compare l).
Proof.
  induction l as [| x l IH]; simpl; intros Hl.
  - constructor.
  - inversion Hl; subst.
    apply sortInsert_sorted; auto.
    apply arraySort_Forall; assumption.
Qed.

Lemma sortInsert_stable (k : Z) (x : A) (l : list A) :
  dom x -> Forall dom l -> StronglySorted (keyLe key) l ->
  withKey key k (sortInsert compare x l) = withKey key k (x :: l).
Proof.
  intros Hx Hl Hs. induction Hs as [| y l Hs IH Hy]; simpl; auto.
  inversion Hl as [| ? ? Hdy Hdl]; subst.
  rewrite (compare_key x y Hx Hdy).
  destruct (Z.ltb_spec (key y) (key x)) as [Hlt | Hge]; auto.
  unfold withKey in *. simpl in *. rewrite (IH Hdl).
  destruct (Z.eqb_spec (key x) k), (Z.eqb_spec (key y) k); auto; lia.
Qed.

Lemma arraySort_stable (k : Z) (l : list A) :
  Forall dom l -> withKey key k (arraySort compare l) = withKey key k l.
Proof.
  induction l as [| x l IH]; simpl; intros Hl; auto.
  inversion Hl as [| ? ? Hx Hl']; subst.
  rewrite sortInsert_stable; auto.
  - unfold withKey in *. simpl. rewrite (IH Hl'). reflexivity.
  - apply arraySort_Forall; assumption.
  - apply arraySort_sorted; assumption.
Qed.

End SortFacts.

Section FilterMapFacts.
Context {A B : Type} (f : A -> option B).

Lemma filterMap_In (y : B) (l : list A) :
  In y (filterMap f l) <-> exists x, In x l /\ f x = Some y.
Proof.
  induction l as [| x l IH]; simpl.
  - split; [tauto | intros [? [[] _]]].
  - destruct (f x) eqn:E; simpl; rewrite IH; split.
    + intros [-> | [x' [Hin Hf]]]; eauto.
    + intros [x' [[-> | Hin] Hf]]; [left; congruence | right; eauto].
    + intros [x' [Hin Hf]]; eauto.
    + intros [x' [[-> | Hin] Hf]]; [congruence | eauto].
Qed.

Lemma filterMap_Forall (P : B -> Prop) (l : list A) :
  (forall x y, In x l -> f x = Some y -> P y) -> Forall P (filterMap f l).
Proof.
  intros H. apply Forall_forall. intros y Hy.
  apply filterMap_In in Hy. destruct Hy as [x [Hin Hf]]. eauto.
Qed.

(** [filterMap] keeps the order of the list: behind a selection by [g]
    of the results lies the selection of the inputs. *)
Lemma filterMap_filter (g : B -> bool) (proj : B -> A) (l : list A) :
  (forall x y, f x = Some y -> proj y = x) ->
  map proj (filter g (filterMap f l)) =
  filter (fun x => match f x with Some y => g y | None => false end) l.
Proof.
  intros Hproj. induction l as [| x l IH]; simpl; auto.
  destruct (f x) as [y |] eqn:E; simpl; auto.
  destruct (g y); simpl; rewrite IH; auto.
  rewrite (Hproj x y E). reflexivity.
Qed.

End FilterMapFacts.

(* ====================================================================== *)
(** * Birthday reminders *)
(* ====================================================================== *)

Section BirthdayReminders.
Variables (now : Date) (withinDays : Z).

Lemma birthdayReminderOf_Some (p : Person) (r : BirthdayReminder) :
  birthdayReminderOf now withinDays p = Some r ->
  exists b,
    birthday p = Some b /\ brPerson r = p /\
    daysUntil r = getDaysUntilBirthday now b /\
    daysUntil r <= withinDays /\
    age r = Some (if daysUntil r =? 0 then calculateAge now b
                  else calculateAge now b + 1).
Proof.
  unfold birthdayReminderOf. cbv zeta.
  destruct (birthday p) as [b |]; [| discriminate].
  intros Hr. exists b. revert Hr.
  generalize (getDaysUntilBirthday now b) (calculateAge now b).
  intros d a.
  destruct (d <=? withinDays) eqn:Hw; [| discriminate].
  apply Z.leb_le in Hw.
  intros Hr. injection Hr as <-.
  cbn [brPerson daysUntil age]. repeat split; assumption || reflexivity.
Qed.

Lemma birthday_compare_key (x y : BirthdayReminder) :
  True -> True ->
  numGt0 (Fin (daysUntil x - daysUntil y)) = (daysUntil y <? daysUntil x).
Proof.
  intros _ _. cbn [numGt0].
  destruct (Z.ltb_spec 0 (daysUntil x - daysUntil y)),
           (Z.ltb_spec (daysUntil y) (daysUntil x)); auto; lia.
Qed.

Lemma upcoming_In (people : list Person) (r : BirthdayReminder) :
  In r (getUpcomingBirthdays now people withinDays) ->
  exists p, In p people /\ birthdayReminderOf now withinDays p = Some r.
Proof.
  unfold getUpcomingBirthdays. rewrite arraySort_In.
  apply filterMap_In.
Qed.

End BirthdayReminders.

(** Claim C2, as the code has it: for every person in the birthday-reminder
    list, the reported age is [calculateAge(birthday)] when [daysUntil] is 0
    (the birthday is today, and the age already counts it), and
    [calculateAge(birthday) + 1] otherwise (the age the person will turn). *)
Theorem upcoming_birthdays_age
    (now : Date) (people : list Person) (withinDays : Z)
    (r : BirthdayReminder) :
  In r (getUpcomingBirthdays now people withinDays) ->
  exists b,
    birthday (brPerson r) = Some b /\
    daysUntil r = getDaysUntilBirthday now b /\
    age r = Some (if daysUntil r =? 0 then calculateAge now b
                  else calculateAge now b + 1).
Proof.
  intros Hin. apply upcoming_In in Hin. destruct Hin as [p [_ Hr]].
  apply birthdayReminderOf_Some in Hr.
  destruct Hr as [b [Hb [Hp [Hd [_ Ha]]]]].
  exists b. rewrite Hp. auto.
Qed.

Lemma upcoming_birthdays_age_witness :
  exists b,
    birthday alice = Some b /\
    0 = getDaysUntilBirthday june1_2024 b /\
    Some 34 = Some (if 0 =? 0 then calculateAge june1_2024 b
                    else calculateAge june1_2024 b + 1).
Proof.
  apply (upcoming_birthdays_age june1_2024 [alice] 30
           {| brPerson := alice; daysUntil := 0; age := Some 34 |}).
  vm_compute. left. reflexivity.
Defined.

(** Claim C2 as stated fails: on her birthday, 1 June 2024, a person born
    on 1 June 1990 is listed with [daysUntil = 0] and age 34, which is
    [calculateAge(birthday)] and not [calculateAge(birthday) + 1]. *)
Lemma upcoming_birthdays_age_counterexample :
  ~ (forall (now : Date) (people : list Person) (withinDays : Z)
            (r : BirthdayReminder),
        In r (getUpcomingBirthdays now people withinDays) ->
        exists b,
          birthday (brPerson r) = Some b /\
          age r = Some (if daysUntil r =? 0 then calculateAge now b + 1
                        else calculateAge now b)).
Proof.
  intros H.
  destruct (H june1_2024 [alice] 30
              {| brPerson := alice; daysUntil := 0; age := Some 34 |})
    as [b [Hb Hage]].
  - vm_compute. left. reflexivity.
  - cbn [brPerson alice examplePerson birthday] in Hb.
    injection Hb as <-. vm_compute in Hage. discriminate.
Qed.

(** Claim C8: the birthday reminders are sorted ascending by [daysUntil];
    the people listed with any one [daysUntil] appear in their input order;
    no entry is further away than [withinDays]; every entry's person has a
    birthday. *)
Theorem upcoming_birthdays_sorted_stable_window
    (now : Date) (people : list Person) (withinDays : Z) :
  let out := getUpcomingBirthdays now people withinDays in
  StronglySorted (fun a b => daysUntil a <= daysUntil b) out /\
  (forall k : Z,
      map brPerson (filter (fun r => daysUntil r =? k) out) =
      filter (fun p =>
                match birthday p with
                | Some b =>
                    (getDaysUntilBirthday now b =? k) && (k <=? withinDays)
                | None => false
                end) people) /\
  Forall (fun r => daysUntil r <= withinDays) out /\
  Forall (fun r => birthday (brPerson r) <> None) out.
Proof.
  intros out. unfold out, getUpcomingBirthdays.
  set (cmp := fun a b : BirthdayReminder => Fin (daysUntil a - daysUntil b)).
  set (rs := filterMap (birthdayReminderOf now withinDays) people).
  assert (Hdom : Forall (fun _ : BirthdayReminder => True) rs)
    by (apply Forall_forall; auto).
  repeat split.
  - exact (arraySort_sorted cmp daysUntil (fun _ => True)
             birthday_compare_key rs Hdom).
  - intros k.
    pose proof (arraySort_stable cmp daysUntil (fun _ => True)
                  birthday_compare_key k rs Hdom) as Hst.
    unfold withKey in Hst. rewrite Hst. unfold rs.
    rewrite (filterMap_filter (birthdayReminderOf now withinDays)
               (fun r => daysUntil r =? k) brPerson).
    + apply filter_ext. intros p. unfold birthdayReminderOf. cbv zeta.
      destruct (birthday p) as [b |]; [| reflexivity].
      generalize (getDaysUntilBirthday now b). intros d.
      destruct (Z.leb_spec d withinDays); cbn [daysUntil];
        destruct (Z.eqb_spec d k); destruct (Z.leb_spec k withinDays);
        reflexivity || lia.
    + intros p r Hr. apply birthdayReminderOf_Some in Hr.
      destruct Hr as [b [_ [Hp _]]]. exact Hp.
  - apply arraySort_Forall. apply filterMap_Forall.
    intros p r _ Hr. apply birthdayReminderOf_Some in Hr.
    destruct Hr as [b [_ [_ [_ [Hw _]]]]]. exact Hw.
  - apply arraySort_Forall. apply filterMap_Forall.
    intros p r _ Hr. apply birthdayReminderOf_Some in Hr.
    destruct Hr as [b [Hb [Hp _]]]. rewrite Hp, Hb. discriminate.
Qed.

(* ====================================================================== *)
(** * Contact reminders *)
(* ====================================================================== *)

Section ContactReminders.
Variable now : Date.

(** What the loop body of [getPeopleToContact] produces. *)
Lemma contactReminderOf_spec (p : Person) :
  contactReminderOf now p =
  if specListed now p then
    Some {| crPerson := p;
            daysSinceContact := Fin (specDaysSinceContact now p);
            daysOverdue := Fin (specDaysOverdue now p) |}
  else None.
Proof.
  unfold contactReminderOf, specListed, specDaysOverdue,
    specDaysSinceContact.
  destruct (contactFrequency p) as [f |]; [| reflexivity].
  destruct (lastContact p) as [d |].
  - generalize (getDaysSince now d). intros n.
    destruct f; cbn [Z.eqb negb andb numSub numGe0 orb]; try reflexivity;
      destruct (0 <=? _); reflexivity.
  - destruct f; reflexivity.
Qed.

Lemma contactReminderOf_person (p : Person) (r : ContactReminder) :
  contactReminderOf now p = Some r -> crPerson r = p.
Proof.
  rewrite contactReminderOf_spec. destruct (specListed now p);
    [| discriminate].
  intros H. apply (f_equal (option_map crPerson)) in H.
  cbn [option_map crPerson] in H. congruence.
Qed.

Lemma contactReminderOf_fields (p : Person) (r : ContactReminder) :
  contactReminderOf now p = Some r ->
  specListed now p = true /\
  r = {| crPerson := p;
         daysSinceContact := Fin (specDaysSinceContact now p);
         daysOverdue := Fin (specDaysOverdue now p) |}.
Proof.
  rewrite contactReminderOf_spec. destruct (specListed now p);
    [| discriminate].
  generalize (specDaysSinceContact now p) (specDaysOverdue now p).
  intros a b H. injection H as <-. auto.
Qed.

Lemma contact_compare_key (x y : ContactReminder) :
  finiteOverdue x -> finiteOverdue y ->
  numGt0 (numSub (daysOverdue y) (daysOverdue x))
  = (overdueKey y <? overdueKey x).
Proof.
  intros [a Ha] [b Hb]. unfold overdueKey. rewrite Ha, Hb.
  cbn [numSub numGt0].
  destruct (Z.ltb_spec 0 (b - a)), (Z.ltb_spec (- b) (- a));
    reflexivity || lia.
Qed.

Lemma contact_reminders_finite (people : list Person) :
  Forall finiteOverdue (filterMap (contactReminderOf now) people).
Proof.
  apply filterMap_Forall. intros p r _ Hr.
  apply contactReminderOf_fields in Hr. destruct Hr as [_ ->].
  eexists. reflexivity.
Qed.

Lemma contact_In (people : list Person) (r : ContactReminder) :
  In r (getPeopleToContact now people) <->
  exists p, In p people /\ contactReminderOf now p = Some r.
Proof.
  unfold getPeopleToContact. rewrite arraySort_In. apply filterMap_In.
Qed.

End ContactReminders.

Lemma StronglySorted_on {A : Type} (R R' : A -> A -> Prop) (dom : A -> Prop)
    (l : list A) :
  (forall a b, dom a -> dom b -> R a b -> R' a b) ->
  Forall dom l -> StronglySorted R l -> StronglySorted R' l.
Proof.
  intros Himp Hdom Hs. induction Hs as [| a l Hs IH Ha]; constructor.
  - inversion Hdom; auto.
  - inversion Hdom as [| ? ? Hda Hdl]; subst.
    rewrite Forall_forall in *. intros b Hb. auto.
Qed.

Lemma filterMap_map_filter {A B : Type} (f : A -> option B) (g : A -> bool)
    (proj : B -> A) (l : list A) :
  (forall x, g x = match f x with Some _ => true | None => false end) ->
  (forall x y, f x = Some y -> proj y = x) ->
  map proj (filterMap f l) = filter g l.
Proof.
  intros Hg Hproj. induction l as [| x l IH]; simpl; auto.
  rewrite Hg. destruct (f x) as [y |] eqn:E; simpl; auto.
  rewrite IH, (Hproj x y E). reflexivity.
Qed.

(** Claim C6: [getPeopleToContact] lists exactly the people with a
    configured cadence whose days since the last contact reach the cadence,
    together with every such person never contacted; the overdue value is
    [daysSince(lastContact) - cadence], or the cadence itself for a person
    never contacted; the list is sorted descending by the overdue value.
    With cadence 14: never contacted gives 14, a contact 20 days ago gives
    6, a contact 5 days ago is left out. *)
Theorem people_to_contact_listed_sorted (now : Date) (people : list Person) :
  let out := getPeopleToContact now people in
  Permutation (map crPerson out) (filter (specListed now) people) /\
  Forall (fun r =>
            daysOverdue r = Fin (specDaysOverdue now (crPerson r)) /\
            daysSinceContact r = Fin (specDaysSinceContact now (crPerson r)))
         out /\
  StronglySorted
    (fun a b => exists x y,
         daysOverdue a = Fin x /\ daysOverdue b = Fin y /\ y <= x) out /\
  (forall p, In p people -> contactFrequency p = Some 14 ->
             lastContact p = None ->
             In {| crPerson := p; daysSinceContact := Fin (-1);
                   daysOverdue := Fin 14 |} out) /\
  (forall p d, In p people -> contactFrequency p = Some 14 ->
               lastContact p = Some d -> getDaysSince now d = 20 ->
               In {| crPerson := p; daysSinceContact := Fin 20;
                     daysOverdue := Fin 6 |} out) /\
  (forall p d, contactFrequency p = Some 14 ->
               lastContact p = Some d -> getDaysSince now d = 5 ->
               ~ In p (map crPerson out)).
Proof.
  intros out. unfold out.
  assert (Hperm : Permutation
                    (map crPerson (getPeopleToContact now people))
                    (filter (specListed now) people)).
  { unfold getPeopleToContact.
    eapply perm_trans.
    - apply Permutation_map, Permutation_sym, arraySort_perm.
    - rewrite (filterMap_map_filter (contactReminderOf now) (specListed now)
                 crPerson); [apply Permutation_refl | |].
      + intros p. rewrite contactReminderOf_spec.
        destruct (specListed now p); reflexivity.
      + intros p r. apply contactReminderOf_person. }
  split; [exact Hperm |].
  split.
  { unfold getPeopleToContact. apply arraySort_Forall, filterMap_Forall.
    intros p r _ Hr. apply contactReminderOf_fields in Hr.
    destruct Hr as [_ ->]. cbn [daysOverdue daysSinceContact crPerson]. auto. }
  split.
  { unfold getPeopleToContact.
    eapply (StronglySorted_on (keyLe overdueKey) _ finiteOverdue).
    - intros a b [x Hx] [y Hy]. unfold keyLe, overdueKey.
      rewrite Hx, Hy. intros Hle. exists x, y. repeat split; auto. lia.
    - apply arraySort_Forall, contact_reminders_finite.
    - apply (arraySort_sorted _ overdueKey finiteOverdue).
      + intros x y Hx Hy. apply contact_compare_key; assumption.
      + apply contact_reminders_finite. }
  split; [| split].
  - intros p Hin Hf Hl. apply contact_In. exists p. split; [exact Hin |].
    rewrite contactReminderOf_spec.
    unfold specListed, specDaysOverdue, specDaysSinceContact.
    rewrite Hf, Hl. reflexivity.
  - intros p d Hin Hf Hl Hd. apply contact_In. exists p.
    split; [exact Hin |].
    rewrite contactReminderOf_spec.
    unfold specListed, specDaysOverdue, specDaysSinceContact.
    rewrite Hf, Hl, Hd. reflexivity.
  - intros p d Hf Hl Hd Hin.
    eapply Permutation_in in Hin; [| exact Hperm].
    apply filter_In in Hin. destruct Hin as [_ Hlisted].
    unfold specListed in Hlisted. rewrite Hf, Hl, Hd in Hlisted.
    discriminate.
Qed.

(** On 1 June 2024: Bob, never contacted, is 14 overdue; Carol, contacted
    20 days ago, is 6 overdue; Dave, contacted 5 days ago, is not listed. *)
Lemma people_to_contact_listed_sorted_witness :
  In {| crPerson := bob; daysSinceContact := Fin (-1);
        daysOverdue := Fin 14 |}
     (getPeopleToContact june1_2024 [dave; carol; bob]) /\
  In {| crPerson := carol; daysSinceContact := Fin 20;
        daysOverdue := Fin 6 |}
     (getPeopleToContact june1_2024 [dave; carol; bob]) /\
  ~ In dave (map crPerson (getPeopleToContact june1_2024 [dave; carol; bob])).
Proof.
  destruct (people_to_contact_listed_sorted june1_2024 [dave; carol; bob])
    as [_ [_ [_ [Hnever [Hdue Hrecent]]]]].
  split; [| split].
  - apply Hnever; [right; right; left |..]; reflexivity.
  - apply (Hdue carol (newDate 2024 4 12));
      [right; left; reflexivity | reflexivity | reflexivity |].
    vm_compute. reflexivity.
  - apply (Hrecent dave (newDate 2024 4 27));
      [reflexivity | reflexivity |].
    vm_compute. reflexivity.
Defined.

(** Claim C10: a person with a configured cadence and no known last contact
    is always listed, and the reminder carries [daysSinceContact = -1], a
    finite number; inside [getPeopleToContact] the gap is [Infinity], so
    that [daysOverdue >= 0] holds whatever the cadence. *)
Theorem never_contacted_sentinel
    (now : Date) (people : list Person) (p : Person) (f : Z) :
  In p people -> contactFrequency p = Some f -> f <> 0 ->
  lastContact p = None ->
  In {| crPerson := p; daysSinceContact := Fin (-1); daysOverdue := Fin f |}
     (getPeopleToContact now people) /\
  (forall r, In r (getPeopleToContact now people) -> crPerson r = p ->
             daysSinceContact r = Fin (-1)) /\
  Forall (fun r => exists z, daysSinceContact r = Fin z)
         (getPeopleToContact now people) /\
  numSub PosInf (Fin f) = PosInf /\
  numGe0 (numSub PosInf (Fin f)) = true.
Proof.
  intros Hin Hf Hf0 Hl.
  split; [| split; [| split; [| split; reflexivity]]].
  - apply contact_In. exists p. split; [exact Hin |].
    rewrite contactReminderOf_spec.
    unfold specListed, specDaysOverdue, specDaysSinceContact.
    rewrite Hf, Hl. destruct (Z.eqb_spec f 0); [contradiction | reflexivity].
  - intros r Hr Hp. apply contact_In in Hr. destruct Hr as [q [_ Hq]].
    apply contactReminderOf_fields in Hq. destruct Hq as [_ ->].
    cbn [crPerson] in Hp. subst q.
    cbn [daysSinceContact]. unfold specDaysSinceContact. rewrite Hl.
    reflexivity.
  - unfold getPeopleToContact. apply arraySort_Forall, filterMap_Forall.
    intros q r _ Hr. apply contactReminderOf_fields in Hr.
    destruct Hr as [_ ->]. eexists. reflexivity.
Qed.

Lemma never_contacted_sentinel_witness :
  In {| crPerson := bob; daysSinceContact := Fin (-1);
        daysOverdue := Fin 14 |}
     (getPeopleToContact june1_2024 [bob]) /\
  (forall r, In r (getPeopleToContact june1_2024 [bob]) -> crPerson r = bob ->
             daysSinceContact r = Fin (-1)) /\
  Forall (fun r => exists z, daysSinceContact r = Fin z)
         (getPeopleToContact june1_2024 [bob]) /\
  numSub PosInf (Fin 14) = PosInf /\
  numGe0 (numSub PosInf (Fin 14)) = true.
Proof.
  apply (never_contacted_sentinel june1_2024 [bob] bob 14).
  - left. reflexivity.
  - reflexivity.
  - lia.
  - reflexivity.
Defined.

(* ====================================================================== *)
(** * Year rollover of the next occurrence *)
(* ====================================================================== *)

Section Rollover.

Lemma setHours0_Day (t : Date) : Day (setHours0 t) = Day t.
Proof. unfold setHours0. apply Day_MakeDate. unfold msPerDay. lia. Qed.

Lemma setHours0_year (t : Date) :
  getFullYear (setHours0 t) = getFullYear t.
Proof. unfold getFullYear, YearFromTime. rewrite setHours0_Day. reflexivity. Qed.


Lemma daysInMonthTable_le (leap m : Z) :
  0 <= leap <= 1 -> daysInMonthTable leap m <= daysInMonthTable 1 m.
Proof.
  intros H. unfold daysInMonthTable.
  destruct m as [| p | p]; try lia.
  repeat (destruct p as [p | p |]; try lia).
Qed.



Lemma year_end_after (t : Date) :
  Day t < DayFromYear (getFullYear t + 1).
Proof. apply yearFromDay_spec. Qed.

Lemma year_start_before (t : Date) :
  DayFromYear (getFullYear t) <= Day t.
Proof. apply yearFromDay_spec. Qed.




End Rollover.



(* ====================================================================== *)
(** * Facts about the regular-expression matcher *)
(* ====================================================================== *)

Section RegexFacts.

Lemma runLength_stops (cls : jschar -> bool) (bound : nat)
    (a rest : jsstring) :
  allIn cls a -> (List.length a <= bound)%nat -> stops cls rest ->
  runLength cls bound (a ++ rest) = List.length a.
Proof.
  intros Ha. revert bound. induction Ha as [| c a Hc Ha IH];
    intros bound Hb Hs.
  - destruct bound, rest; simpl in *; auto. rewrite Hs. reflexivity.
  - destruct bound; simpl in *; [lia |].
    rewrite Hc, IH; auto. lia.
Qed.

Lemma runLength_le (cls : jschar -> bool) (bound : nat) (s : jsstring) :
  (runLength cls bound s <= bound)%nat /\
  (runLength cls bound s <= List.length s)%nat.
Proof.
  revert s. induction bound as [| bound IH]; intros s; simpl; [lia |].
  destruct s as [| c s]; simpl; [lia |].
  destruct (cls c); [| lia]. specialize (IH s). lia.
Qed.

Lemma runLength_mono (cls1 cls2 : jschar -> bool) (bound : nat)
    (s : jsstring) :
  (forall c, cls1 c = true -> cls2 c = true) ->
  (runLength cls1 bound s <= runLength cls2 bound s)%nat.
Proof.
  intros Hsub. revert s. induction bound as [| bound IH]; intros s;
    simpl; [lia |].
  destruct s as [| c s]; [lia |].
  destruct (cls1 c) eqn:E1; [| lia].
  rewrite (Hsub c E1). specialize (IH s). lia.
Qed.

Section TryLengths.
Context {R : Type} (k : nat -> option R).

Lemma tryLengths_first (lo n : nat) (r : R) :
  (lo <= n)%nat -> k n = Some r -> tryLengths k lo n = Some r.
Proof.
  intros Hlo Hk. destruct n; cbn [tryLengths];
    match goal with
    | |- context [(?x <? lo)%nat] => destruct (Nat.ltb_spec x lo); [lia |]
    end; rewrite Hk; reflexivity.
Qed.

Lemma tryLengths_short (lo n : nat) :
  (n < lo)%nat -> tryLengths k lo n = None.
Proof.
  intros Hlt. destruct n; cbn [tryLengths];
    match goal with
    | |- context [(?x <? lo)%nat] =>
        destruct (Nat.ltb_spec x lo); [reflexivity | lia]
    end.
Qed.

(** Some length succeeds exactly when one in the range does. *)
Lemma tryLengths_some (lo n : nat) :
  tryLengths k lo n <> None <->
  exists m, (lo <= m <= n)%nat /\ k m <> None.
Proof.
  induction n as [| n IH].
  - cbn [tryLengths]. destruct (Nat.ltb_spec 0 lo) as [Hlt | Hge].
    + split; [congruence | intros [m [Hm _]]; lia].
    + destruct (k 0%nat) eqn:E0; split; try congruence.
      * intros _. exists 0%nat. split; [lia | congruence].
      * intros [m [Hm Hk]]. assert (m = 0%nat) by lia. subst.
        congruence.
  - cbn [tryLengths]. destruct (Nat.ltb_spec (S n) lo) as [Hlt | Hge].
    + split; [congruence | intros [m [Hm _]]; lia].
    + destruct (k (S n)) eqn:ES.
      * split; [| congruence]. intros _. exists (S n).
        split; [lia | congruence].
      * rewrite IH. split; intros [m [Hm Hk]]; exists m.
        -- split; [lia | exact Hk].
        -- split; [| exact Hk].
           assert (m <> S n) by congruence. lia.
Qed.
End TryLengths.

(** A quantified class that takes exactly the run [a] in front of a
    [rest] on which the remaining pattern matches. *)
Lemma rx_item_ok (toEnd : bool) (it : rxitem) (items : list rxitem)
    (a rest : jsstring) (caps : list jsstring) :
  allIn (rxClass it) a ->
  (rxMin it <= List.length a)%nat ->
  match rxMax it with
  | Some hi => (List.length a <= hi)%nat
  | None => True
  end ->
  stops (rxClass it) rest ->
  rxMatchHere toEnd items rest = Some caps ->
  rxMatchHere toEnd (it :: items) (a ++ rest)
  = Some (if rxCapture it then a :: caps else caps).
Proof.
  intros Ha Hmin Hmax Hstop Hrest. cbn [rxMatchHere].
  assert (Hrun : maxRun it (a ++ rest) = List.length a).
  { unfold maxRun. apply runLength_stops; auto.
    destruct (rxMax it); [exact Hmax |].
    rewrite length_app. lia. }
  rewrite Hrun. apply tryLengths_first; [exact Hmin |].
  rewrite skipn_app, skipn_all, Nat.sub_diag. cbn [skipn app].
  rewrite Hrest, firstn_app, firstn_all, Nat.sub_diag.
  cbn [firstn]. rewrite app_nil_r. reflexivity.
Qed.

Lemma rx_item_short (toEnd : bool) (it : rxitem) (items : list rxitem)
    (s : jsstring) :
  (maxRun it s < rxMin it)%nat ->
  rxMatchHere toEnd (it :: items) s = None.
Proof. intros H. cbn [rxMatchHere]. apply tryLengths_short, H. Qed.

Lemma rx_one_ok (toEnd : bool) (cls : jschar -> bool)
    (items : list rxitem) (c : jschar) (rest : jsstring)
    (caps : list jsstring) :
  cls c = true ->
  rxMatchHere toEnd items rest = Some caps ->
  rxMatchHere toEnd (one cls :: items) (c :: rest) = Some caps.
Proof.
  intros Hc Hrest. cbn [rxMatchHere]. unfold maxRun. cbn [one rxClass rxMax rxMin rxCapture runLength].
  rewrite Hc. cbn [tryLengths Nat.ltb Nat.leb skipn].
  rewrite Hrest. reflexivity.
Qed.

Lemma rxWider_match (toEnd : bool) (items1 items2 : list rxitem) :
  rxWider items1 items2 ->
  forall s, rxMatchHere toEnd items1 s <> None ->
            rxMatchHere toEnd items2 s <> None.
Proof.
  induction 1 as [| i1 i2 l1 l2 Hcls Hmin Hmax Hw IH]; intros s; auto.
  cbn [rxMatchHere]. rewrite !tryLengths_some.
  intros [m [[Hlo Hhi] Hk]]. exists m. split.
  - split; [rewrite <- Hmin; exact Hlo |].
    eapply Nat.le_trans; [exact Hhi |].
    unfold maxRun. rewrite <- Hmax. apply runLength_mono, Hcls.
  - specialize (IH (skipn m s)). cbv beta in Hk |- *. revert Hk IH.
    destruct (rxMatchHere toEnd l1 (skipn m s));
      [| intros Hn; exfalso; apply Hn; reflexivity].
    intros _ IH.
    destruct (rxMatchHere toEnd l2 (skipn m s)); [discriminate |].
    exfalso. apply IH; [discriminate | reflexivity].
Qed.

End RegexFacts.

(* ====================================================================== *)
(** * The birthday parser on numeric dates *)
(* ====================================================================== *)

Section ParserFacts.
Variable nativeDateParse : jsstring -> option Date.

Lemma digit_not_space (c : jschar) :
  isDigit c = true -> isWhiteSpace c = false.
Proof.
  unfold isDigit. intros H. apply andb_prop in H. destruct H as [H1 H2].
  apply N.leb_le in H1, H2.
  destruct (isWhiteSpace c) eqn:E; [| reflexivity].
  unfold isWhiteSpace in E. apply existsb_exists in E.
  destruct E as [x [Hin Heq]]. apply N.eqb_eq in Heq. subst x.
  cbn [In] in Hin.
  repeat (destruct Hin as [Hin | Hin]; [subst c; lia |]).
  contradiction.
Qed.

Lemma eurosep_cases (c : jschar) :
  isEuroSep c = true -> c = 47%N \/ c = 45%N \/ c = 46%N.
Proof.
  unfold isEuroSep, isChar. intros H.
  apply orb_prop in H. destruct H as [H | H];
    [apply orb_prop in H; destruct H as [H | H] |];
    apply N.eqb_eq in H; auto.
Qed.

Lemma eurosep_not_digit (c : jschar) :
  isEuroSep c = true -> isDigit c = false.
Proof.
  intros H. apply eurosep_cases in H.
  destruct H as [-> | [-> | ->]]; reflexivity.
Qed.

Lemma ussep_eurosep (c : jschar) : isUsSep c = true -> isEuroSep c = true.
Proof. unfold isUsSep, isEuroSep. intros ->. reflexivity. Qed.

Lemma trimStart_id (c : jschar) (s : jsstring) :
  isWhiteSpace c = false -> trimStart (c :: s) = c :: s.
Proof. intros H. cbn [trimStart]. rewrite H. reflexivity. Qed.

Lemma trimEnd_id (s : jsstring) (l : jschar) :
  isWhiteSpace l = false -> trimEnd (s ++ [l]) = s ++ [l].
Proof.
  intros H. unfold trimEnd. rewrite rev_app_distr. cbn [rev app].
  rewrite trimStart_id by exact H.
  cbn [rev]. rewrite rev_involutive. reflexivity.
Qed.

(** Text that begins and ends with a digit is not changed by [trim]. *)
Lemma trim_between_digits (a mid y : jsstring) :
  allIn isDigit a -> a <> [] -> allIn isDigit y -> y <> [] ->
  exists c s, a ++ mid ++ y = c :: s /\ trim (c :: s) = c :: s.
Proof.
  intros Ha Hane Hy Hyne.
  destruct a as [| c a']; [contradiction |].
  exists c, (a' ++ mid ++ y). split; [reflexivity |].
  destruct (exists_last Hyne) as [y' [l Hl]].
  assert (Hld : isDigit l = true).
  { unfold allIn in Hy. rewrite Forall_forall in Hy. apply Hy.
    rewrite Hl. apply in_or_app. right. left. reflexivity. }
  inversion Ha as [| ? ? Hc _]; subst.
  unfold trim. rewrite trimStart_id by (apply digit_not_space, Hc).
  replace (c :: a' ++ mid ++ y' ++ [l])
    with ((c :: a' ++ mid ++ y') ++ [l]).
  - apply trimEnd_id, digit_not_space, Hld.
  - cbn [app]. rewrite <- !app_assoc. reflexivity.
Qed.

Lemma parse_trimmed (c : jschar) (s : jsstring) :
  trim (c :: s) = c :: s ->
  parseBirthdayInput nativeDateParse (c :: s)
  = tryIso nativeDateParse (c :: s).
Proof.
  intros H. unfold parseBirthdayInput. rewrite H. reflexivity.
Qed.

Lemma numeral_nonempty (lo hi : nat) (a : jsstring) :
  numeral (S lo) hi a -> a <> [].
Proof. intros [_ H] ->. simpl in H. lia. Qed.

Lemma euro_match (a b y : jsstring) (s1 s2 : jschar) :
  numeral 1 2 a -> numeral 1 2 b -> numeral 4 4 y ->
  isEuroSep s1 = true -> isEuroSep s2 = true ->
  rxMatchWhole euroRe (a ++ s1 :: b ++ s2 :: y) = Some [a; b; y].
Proof.
  intros [Ha La] [Hb Lb] [Hy Ly] H1 H2.
  unfold rxMatchWhole, euroRe.
  apply (rx_item_ok true (digits 1 2) _ a _ [b; y]);
    cbn [digits group rxClass rxMin rxMax]; auto; try lia.
  { cbn [stops]. apply eurosep_not_digit, H1. }
  apply rx_one_ok; [exact H1 |].
  apply (rx_item_ok true (digits 1 2) _ b _ [y]);
    cbn [digits group rxClass rxMin rxMax]; auto; try lia.
  { cbn [stops]. apply eurosep_not_digit, H2. }
  apply rx_one_ok; [exact H2 |].
  rewrite <- (app_nil_r y) at 1.
  apply (rx_item_ok true (digits 4 4) [] y [] []);
    cbn [digits group rxClass rxMin rxMax stops]; auto; try lia.
Qed.

Lemma iso_match (y m d : jsstring) :
  numeral 4 4 y -> numeral 1 2 m -> numeral 1 2 d ->
  rxMatchWhole isoRe (y ++ dash :: m ++ dash :: d) = Some [y; m; d].
Proof.
  intros [Hy Ly] [Hm Lm] [Hd Ld].
  unfold rxMatchWhole, isoRe.
  apply (rx_item_ok true (digits 4 4) _ y _ [m; d]);
    cbn [digits group rxClass rxMin rxMax]; auto; try lia.
  { reflexivity. }
  apply rx_one_ok; [reflexivity |].
  apply (rx_item_ok true (digits 1 2) _ m _ [d]);
    cbn [digits group rxClass rxMin rxMax]; auto; try lia.
  { reflexivity. }
  apply rx_one_ok; [reflexivity |].
  rewrite <- (app_nil_r d) at 1.
  apply (rx_item_ok true (digits 1 2) [] d [] []);
    cbn [digits group rxClass rxMin rxMax stops]; auto; try lia.
Qed.

(** The ISO pattern needs four digits in front. *)
Lemma iso_rejects_short (a rest : jsstring) :
  numeral 1 2 a -> stops isDigit rest ->
  rxMatchWhole isoRe (a ++ rest) = None.
Proof.
  intros [Ha La] Hs. unfold rxMatchWhole, isoRe.
  apply rx_item_short. unfold maxRun.
  cbn [digits group rxClass rxMin rxMax].
  rewrite runLength_stops; auto; lia.
Qed.

(** Every separated numeric triple is read as day, month, year. *)
Lemma parse_separated_triple (day month year : jsstring) (s1 s2 : jschar) :
  numeral 1 2 day -> numeral 1 2 month -> numeral 4 4 year ->
  isEuroSep s1 = true -> isEuroSep s2 = true ->
  parseBirthdayInput nativeDateParse (day ++ s1 :: month ++ s2 :: year)
  = PDate (fieldsDate year month day).
Proof.
  intros Hd Hm Hy H1 H2.
  destruct (trim_between_digits day (s1 :: month ++ [s2]) year)
    as [c [s [Hs Htrim]]];
    try (apply Hd || apply Hy);
    try (eapply numeral_nonempty; eassumption).
  replace (day ++ (s1 :: month ++ [s2]) ++ year)
    with (day ++ s1 :: month ++ s2 :: year) in Hs
    by (cbn [app]; rewrite <- app_assoc; reflexivity).
  rewrite Hs, (parse_trimmed c s Htrim), <- Hs.
  unfold tryIso.
  rewrite iso_rejects_short;
    [| exact Hd | cbn [stops]; apply eurosep_not_digit, H1].
  unfold tryEuro. rewrite euro_match by assumption. reflexivity.
Qed.

Lemma parse_iso (year month day : jsstring) :
  numeral 4 4 year -> numeral 1 2 month -> numeral 1 2 day ->
  parseBirthdayInput nativeDateParse
    (year ++ dash :: month ++ dash :: day)
  = PDate (fieldsDate year month day).
Proof.
  intros Hy Hm Hd.
  destruct (trim_between_digits year (dash :: month ++ [dash]) day)
    as [c [s [Hs Htrim]]];
    try (apply Hd || apply Hy);
    try (eapply numeral_nonempty; eassumption).
  replace (year ++ (dash :: month ++ [dash]) ++ day)
    with (year ++ dash :: month ++ dash :: day) in Hs
    by (cbn [app]; rewrite <- app_assoc; reflexivity).
  rewrite Hs, (parse_trimmed c s Htrim), <- Hs.
  unfold tryIso. rewrite iso_match by assumption. reflexivity.
Qed.

(** Fields that name an existing day, in a year written with its
    century, give that day. *)
Lemma newDate_existing_day (y m d : Z) :
  100 <= y -> 1 <= m <= 12 -> 1 <= d <= DaysInMonth y (m - 1) ->
  ymd (newDate y (m - 1) d) = (y, m, d).
Proof.
  intros Hy Hm Hd. unfold ymd, newDate, getFullYear, getMonth, getDate.
  destruct (Z.leb_spec y 99); [lia |].
  rewrite andb_false_r.
  destruct (civil_MakeDay y (m - 1) d 0) as [E1 [E2 E3]];
    try lia; [unfold msPerDay; lia |].
  rewrite E1, E2, E3. f_equal. f_equal. lia.
Qed.

End ParserFacts.

Lemma usRe_wider : rxWider usRe euroRe.
Proof.
  unfold usRe, euroRe.
  repeat (constructor; try reflexivity; try (intros c H; exact H);
          try (intros c H; apply ussep_eurosep; exact H)).
Qed.

(** Claim C3, as the code has it: on a numeric date, written day-month-year
    with separators [/], [-] or [.] or written ISO, the parser never returns
    [null]: it returns [new Date(year, month - 1, day)] of the fields.  When
    the fields name an existing calendar day (of a year from 100 on) that is
    this day; a month or day out of range is carried into the following
    month or year by the [Date] constructor. *)
Theorem numeric_dates_normalised
    (nativeDateParse : jsstring -> option Date)
    (year month day : jsstring) (s1 s2 : jschar) :
  numeral 4 4 year -> numeral 1 2 month -> numeral 1 2 day ->
  isEuroSep s1 = true -> isEuroSep s2 = true ->
  parseBirthdayInput nativeDateParse (day ++ s1 :: month ++ s2 :: year)
  = PDate (fieldsDate year month day) /\
  parseBirthdayInput nativeDateParse (year ++ dash :: month ++ dash :: day)
  = PDate (fieldsDate year month day) /\
  (100 <= parseInt year -> 1 <= parseInt month <= 12 ->
   1 <= parseInt day <= DaysInMonth (parseInt year) (parseInt month - 1) ->
   ymd (fieldsDate year month day)
   = (parseInt year, parseInt month, parseInt day)).
Proof.
  intros Hy Hm Hd H1 H2. repeat split.
  - apply parse_separated_triple; assumption.
  - apply parse_iso; assumption.
  - apply newDate_existing_day.
Qed.

(** ["13/13/2020"] and ["2020-13-13"] both give 13 January 2021. *)
Lemma numeric_dates_normalised_witness :
  parseBirthdayInput (fun _ => None) (lit "13/13/2020")
  = PDate (newDate 2020 12 13) /\
  parseBirthdayInput (fun _ => None) (lit "2020-13-13")
  = PDate (newDate 2020 12 13) /\
  ymd (newDate 2020 12 13) = (2021, 1, 13).
Proof.
  destruct (numeric_dates_normalised (fun _ => None)
              (lit "2020") (lit "13") (lit "13") slash slash)
    as [H1 [H2 _]];
    try (split; [repeat constructor | simpl; lia]);
    try reflexivity.
  split; [exact H1 | split; [exact H2 | vm_compute; reflexivity]].
Defined.

(** Claim C3 as stated fails: for ["13/13/2020"], whose month is 13, the
    parser does not return [null], whatever the host's own date parser
    does; the day-month-year branch returns 13 January 2021. *)
Lemma invalid_month_counterexample :
  ~ (exists nativeDateParse : jsstring -> option Date,
        parseBirthdayInput nativeDateParse (lit "13/13/2020") = PNull).
Proof.
  intros [native H]. vm_compute in H. discriminate.
Qed.

(** Claim C4, what the code does instead: a separated numeric triple is
    read day-month-year whatever its numbers, also when the first is at
    most 12 and the second greater than 12; the month-day-year branch is
    never reached, because every text its pattern matches is matched by the
    day-month-year pattern tried before it. *)
Theorem separated_triple_read_day_month_year
    (nativeDateParse : jsstring -> option Date)
    (first second year : jsstring) (s1 s2 : jschar) :
  numeral 1 2 first -> numeral 1 2 second -> numeral 4 4 year ->
  isUsSep s1 = true -> isUsSep s2 = true ->
  parseBirthdayInput nativeDateParse (first ++ s1 :: second ++ s2 :: year)
  = PDate (newDate (parseInt year) (parseInt second - 1) (parseInt first)) /\
  (forall s, rxMatchWhole usRe s <> None -> rxMatchWhole euroRe s <> None).
Proof.
  intros Hf Hs Hy H1 H2. split.
  - apply parse_separated_triple; auto using ussep_eurosep.
  - apply rxWider_match, usRe_wider.
Qed.

(** ["04-15-1988"] is read as day 4 of month 15 of 1988: 4 March 1989. *)
Lemma separated_triple_read_day_month_year_witness :
  parseBirthdayInput (fun _ => None) (lit "04-15-1988")
  = PDate (newDate 1988 14 4) /\
  ymd (newDate 1988 14 4) = (1989, 3, 4) /\
  ymd (newDate 1988 3 15) = (1988, 4, 15).
Proof.
  destruct (separated_triple_read_day_month_year (fun _ => None)
              (lit "04") (lit "15") (lit "1988") dash dash)
    as [H _];
    try (split; [repeat constructor | simpl; lia]);
    try reflexivity.
  split; [exact H | split; vm_compute; reflexivity].
Defined.

(* ====================================================================== *)
(** * Detection of completed birthday tasks *)
(* ====================================================================== *)

Section DetectionFacts.

Lemma startsWith_app (n post : jsstring) : startsWith (n ++ post) n = true.
Proof.
  induction n as [| c n IH]; [destruct post; reflexivity |].
  cbn [app startsWith]. rewrite N.eqb_refl, IH. reflexivity.
Qed.

Lemma includes_app (pre n post : jsstring) :
  includes (pre ++ n ++ post) n = true.
Proof.
  induction pre as [| c pre IH].
  - cbn [app]. destruct (n ++ post) eqn:E; cbn [includes];
      rewrite <- E, startsWith_app; reflexivity.
  - cbn [app includes]. rewrite IH. apply orb_true_r.
Qed.

Lemma rxSearch_app (items : list rxitem) (pre s : jsstring) :
  rxMatchHere false items s <> None ->
  rxSearch items (pre ++ s) <> None.
Proof.
  intros Hs. induction pre as [| c pre IH].
  - cbn [app]. destruct s; cbn [rxSearch];
      destruct (rxMatchHere false items _); congruence.
  - cbn [app rxSearch].
    destruct (rxMatchHere false items (c :: pre ++ s)); [discriminate |].
    exact IH.
Qed.

Lemma rxSearch_inv (items : list rxitem) (s : jsstring)
    (caps : list jsstring) :
  rxSearch items s = Some caps ->
  exists s', rxMatchHere false items s' = Some caps.
Proof.
  induction s as [| c s IH]; cbn [rxSearch];
    destruct (rxMatchHere false items _) eqn:E.
  - intros [= <-]. eauto.
  - discriminate.
  - intros [= <-]. eauto.
  - exact IH.
Qed.

Lemma tryLengths_inv {R : Type} (k : nat -> option R) (lo n : nat) (r : R) :
  tryLengths k lo n = Some r ->
  exists m, (lo <= m <= n)%nat /\ k m = Some r.
Proof.
  induction n as [| n IH]; cbn [tryLengths];
    match goal with
    | |- context [(?x <? lo)%nat] =>
        destruct (Nat.ltb_spec x lo); [discriminate |]
    end.
  - destruct (k 0%nat) eqn:E; [| discriminate].
    intros [= <-]. exists 0%nat. split; [lia | exact E].
  - destruct (k (S n)) eqn:E.
    + intros [= <-]. exists (S n). split; [lia | exact E].
    + intros H'. destruct (IH H') as [m [Hm Hk]].
      exists m. split; [lia | exact Hk].
Qed.

(** A pattern without groups captures nothing. *)
Lemma rx_no_groups (toEnd : bool) (items : list rxitem) :
  Forall (fun it => rxCapture it = false) items ->
  forall s caps, rxMatchHere toEnd items s = Some caps -> caps = [].
Proof.
  induction 1 as [| it items Hit _ IH]; intros s caps.
  - cbn [rxMatchHere]. destruct toEnd; [destruct s |];
      congruence.
  - cbn [rxMatchHere]. intros Hm. apply tryLengths_inv in Hm.
    destruct Hm as [m [_ Hk]]. cbv beta in Hk. rewrite Hit in Hk.
    destruct (rxMatchHere toEnd items (skipn m s)) eqn:E; [| discriminate].
    injection Hk as <-. eapply IH, E.
Qed.

Lemma rx_item_inv (toEnd : bool) (it : rxitem) (items : list rxitem)
    (s : jsstring) (caps : list jsstring) :
  rxMatchHere toEnd (it :: items) s = Some caps ->
  exists m caps',
    (rxMin it <= m <= maxRun it s)%nat /\
    rxMatchHere toEnd items (skipn m s) = Some caps' /\
    caps = if rxCapture it then firstn m s :: caps' else caps'.
Proof.
  cbn [rxMatchHere]. intros Hm. apply tryLengths_inv in Hm.
  destruct Hm as [m [Hr Hk]]. cbv beta in Hk.
  destruct (rxMatchHere toEnd items (skipn m s)) as [caps' |] eqn:E;
    [| discriminate].
  exists m, caps'. split; [exact Hr | split; [exact E |]].
  injection Hk as Hk. symmetry. exact Hk.
Qed.

Lemma rx_one_inv (toEnd : bool) (cls : jschar -> bool)
    (items : list rxitem) (s : jsstring) (caps : list jsstring) :
  rxMatchHere toEnd (one cls :: items) s = Some caps ->
  exists c rest, s = c :: rest /\ cls c = true /\
                 rxMatchHere toEnd items rest = Some caps.
Proof.
  cbn [rxMatchHere]. intros Hm. apply tryLengths_inv in Hm.
  destruct Hm as [m [[Hlo Hhi] Hk]]. cbv beta in Hk.
  cbn [one rxMin rxCapture] in *.
  unfold maxRun in Hhi. cbn [one rxClass rxMax] in Hhi.
  destruct s as [| c rest]; [cbn [runLength] in Hhi; lia |].
  cbn [runLength] in Hhi. destruct (cls c) eqn:Ec; [| lia].
  assert (m = 1%nat) by (cbn [runLength] in Hhi; lia). subst m.
  cbn [skipn] in Hk.
  destruct (rxMatchHere toEnd items rest) eqn:E; [| discriminate].
  exists c, rest. repeat split; congruence.
Qed.

(** What the birthday-task pattern captures is one non-empty name. *)
Lemma birthdayTaskRe_capture (s : jsstring) (caps : list jsstring) :
  rxMatchHere false birthdayTaskRe s = Some caps ->
  exists c personName, caps = [c :: personName].
Proof.
  unfold birthdayTaskRe. cbn [chars list_ascii_of_string map app].
  intros Hm.
  apply rx_one_inv in Hm. destruct Hm as [c1 [r1 [-> [_ Hm]]]].
  apply rx_one_inv in Hm. destruct Hm as [c2 [r2 [-> [_ Hm]]]].
  apply rx_item_inv in Hm.
  destruct Hm as [m [caps' [[Hlo Hhi] [E Hk]]]].
  cbn [group rxMin rxCapture] in *.
  assert (Hnil : caps' = []).
  { eapply rx_no_groups; [| exact E].
    repeat constructor. }
  subst caps' caps.
  pose proof (runLength_le notCloseBracket (List.length r2) r2) as [_ Hlen].
  unfold maxRun in Hhi. cbn [group rxClass rxMax] in Hhi.
  assert (Hm : (1 <= m <= List.length r2)%nat) by lia.
  clear Hlen Hhi Hlo E.
  destruct r2 as [| c r2]; [cbn [List.length] in Hm; lia |].
  destruct m as [| m]; [lia |].
  cbn [firstn]. eauto.
Qed.

Lemma birthdayTaskRe_match (personName post : jsstring) :
  personName <> [] -> allIn notCloseBracket personName ->
  rxMatchHere false birthdayTaskRe
    (lit "[[" ++ personName ++ lit "]]"
     ++ straightApostrophe :: lit "s Birthday" ++ post)
  = Some [personName].
Proof.
  intros Hne Hall. unfold birthdayTaskRe.
  cbn [chars list_ascii_of_string map app lit].
  do 2 (apply rx_one_ok; [reflexivity |]).
  apply (rx_item_ok false (group notCloseBracket 1 None) _ personName _ []);
    cbn [group rxClass rxMin rxMax]; auto.
  { destruct personName; [contradiction | cbn [List.length]; lia]. }
  reflexivity.
Qed.

End DetectionFacts.

(** Claim C5, as the code has it: every completed task (its text starts
    with [DONE]) whose content matches [[[<Name>]]'s Birthday] with a
    straight apostrophe triggers the handler, for a non-empty name; a
    completed task in which no [s Birthday] follows a straight apostrophe
    does not trigger. *)
Theorem completed_birthday_task_triggers (text : jsstring) :
  startsWith text (lit "DONE") = true ->
  (matchesBirthdayPattern straightApostrophe text ->
   exists c personName,
     completionTrigger {| content := Some text |} = Some (c :: personName) /\
     onChanged [{| content := Some text |}] = [c :: personName]) /\
  (includes text (lit "'s Birthday") = false ->
   onChanged [{| content := Some text |}] = []).
Proof.
  intros Hdone. split.
  - intros [pre [nm [post [Hc [Hne Hall]]]]].
    assert (Hinc1 : includes text (lit "'s Birthday") = true).
    { rewrite Hc.
      replace (pre ++ lit "[[" ++ nm ++ lit "]]"
               ++ straightApostrophe :: lit "s Birthday" ++ post)
        with ((pre ++ lit "[[" ++ nm ++ lit "]]")
              ++ lit "'s Birthday" ++ post)
        by (rewrite <- !app_assoc; reflexivity).
      apply includes_app. }
    assert (Hinc2 : includes text (lit "[[") = true).
    { rewrite Hc. apply includes_app. }
    assert (Hs : rxSearch birthdayTaskRe text <> None).
    { rewrite Hc. apply rxSearch_app.
      rewrite birthdayTaskRe_match by assumption. discriminate. }
    destruct (rxSearch birthdayTaskRe text) as [caps |] eqn:E;
      [| contradiction].
    destruct (rxSearch_inv _ _ _ E) as [s' Hs'].
    destruct (birthdayTaskRe_capture _ _ Hs') as [c [personName ->]].
    exists c, personName.
    assert (Ht : completionTrigger {| content := Some text |}
                 = Some (c :: personName)).
    { unfold completionTrigger, isBirthdayTask, extractBirthdayPersonName.
      cbn [content].
      rewrite Hinc1, Hinc2, Hdone, E. reflexivity. }
    split; [exact Ht |].
    unfold onChanged. cbn [filterMap]. rewrite Ht. reflexivity.
  - intros Hno. unfold onChanged, completionTrigger, isBirthdayTask.
    cbn [filterMap content]. rewrite Hno. reflexivity.
Qed.

Lemma completed_birthday_task_triggers_witness :
  exists c personName,
    completionTrigger
      {| content := Some (lit "DONE [[Alice]]'s Birthday!") |}
    = Some (c :: personName) /\
    onChanged [{| content := Some (lit "DONE [[Alice]]'s Birthday!") |}]
    = [c :: personName].
Proof.
  destruct (completed_birthday_task_triggers
              (lit "DONE [[Alice]]'s Birthday!") eq_refl) as [H _].
  apply H. exists (lit "DONE "), (lit "Alice"), (lit "!").
  split; [reflexivity | split; [discriminate | repeat constructor]].
Defined.

(** Claim C5 as stated fails: the completed task
    [DONE [[Alice]]'s Birthday!] written with the curly apostrophe
    U+2019, matches the pattern and triggers nothing, since both
    [isBirthdayTask] and the regular expression of
    [extractBirthdayPersonName] know the straight apostrophe only. *)
Lemma curly_apostrophe_counterexample :
  ~ (forall (text : jsstring) (apos : jschar),
        apos = straightApostrophe \/ apos = curlyApostrophe ->
        startsWith text (lit "DONE") = true ->
        matchesBirthdayPattern apos text ->
        completionTrigger {| content := Some text |} <> None).
Proof.
  intros H.
  apply (H (lit "DONE [[Alice]]" ++ curlyApostrophe :: lit "s Birthday!")
           curlyApostrophe).
  - right. reflexivity.
  - reflexivity.
  - exists (lit "DONE "), (lit "Alice"), (lit "!").
    split; [reflexivity | split; [discriminate | repeat constructor]].
  - vm_compute. reflexivity.
Qed.

(* ====================================================================== *)
(** * Programs run against a host *)
(* ====================================================================== *)

Section RunFacts.
Context {S : Type} (h : Handler S).

Lemma run_bind {A B : Type} (p : Prog A) (f : A -> Prog B) (s : S) :
  run h (bind p f) s =
  let '(s1, calls1, r1) := run h p s in
  match r1 with
  | Resolved a =>
      let '(s2, calls2, r2) := run h (f a) s1 in
      (s2, calls1 ++ calls2, r2)
  | Rejected e => (s1, calls1, Rejected e)
  end.
Proof.
  revert s. induction p as [a | e | X c k IH]; intros s; cbn [bind run].
  - destruct (run h (f a) s) as [[s2 calls2] r2]. reflexivity.
  - reflexivity.
  - destruct (h X c s) as [s1 o]. rewrite IH.
    destruct (run h (k o) s1) as [[s2 calls2] r2].
    destruct r2 as [a | e]; [| reflexivity].
    destruct (run h (f a) s2) as [[s3 calls3] r3]. reflexivity.
Qed.

(** A [try] whose [catch] returns a value never throws. *)
Lemma run_tryCatch_resolves {A : Type} (p : Prog A)
    (handler : Error -> A) (s : S) :
  exists a, snd (run h (tryCatch p (fun e => Ret (handler e))) s)
            = Resolved a.
Proof.
  revert s. induction p as [a | e | X c k IH]; intros s;
    cbn [tryCatch run snd]; eauto.
  destruct (h X c s) as [s1 o]. destruct (IH o s1) as [a Ha].
  destruct (run h (tryCatch (k o) _) s1) as [[s2 calls2] r2].
  exists a. exact Ha.
Qed.

(** When the body does not throw, [try] changes nothing. *)
Lemma run_tryCatch_ok {A : Type} (p : Prog A) (handler : Error -> Prog A)
    (s s' : S) (calls : list AnyCall) (a : A) :
  run h p s = (s', calls, Resolved a) ->
  run h (tryCatch p handler) s = (s', calls, Resolved a).
Proof.
  revert s calls. induction p as [a0 | e | X c k IH]; intros s calls;
    cbn [tryCatch run]; auto; [discriminate |].
  destruct (h X c s) as [s1 o].
  destruct (run h (k o) s1) as [[s2 calls2] r2] eqn:E.
  intros [= -> <- ->]. rewrite (IH o s1 calls2 E). reflexivity.
Qed.

End RunFacts.

(* ====================================================================== *)
(** * Creating a person: validation failures *)
(* ====================================================================== *)

Lemma streq_nil (s : jsstring) : streq s [] = true <-> s = [].
Proof. destruct s; cbn [streq]; split; congruence. Qed.

(** Claim C9: [createPerson] with a missing or empty name, or with the name
    of a page that exists, resolves to a failure result ([success] false
    and a message) instead of throwing, and makes no creating or writing
    call: with no name the host is not called at all, and with an existing
    name the single call is the lookup [getPage].  Whatever the host does,
    [createPerson] never throws. *)
Theorem createPerson_validation_failure
    {S : Type} (h : Handler S) (s : S)
    (nativeDateParse : jsstring -> option Date) (now : Date)
    (data : NewPersonData) :
  (nameMissing data ->
   run h (createPerson nativeDateParse now data) s
   = (s, [], Resolved (failure (lit "Name is required")))) /\
  (forall (n : jsstring) (existing : Page) (s1 : S),
      npName data = Some n -> trim n <> [] ->
      h _ (GetPage (trim n)) s = (s1, Resolved (Some existing)) ->
      run h (createPerson nativeDateParse now data) s
      = (s1, [Call (GetPage (trim n))],
         Resolved (failure (lit "A page named " ++ quote ++ trim n ++ quote
                            ++ lit " already exists")))) /\
  (exists result,
      snd (run h (createPerson nativeDateParse now data) s)
      = Resolved result).
Proof.
  split; [| split].
  - unfold nameMissing, createPerson. intros Hmiss.
    destruct (npName data) as [n |]; [| reflexivity].
    destruct n as [| c n]; [reflexivity |].
    cbn [truthyString]. rewrite Hmiss. reflexivity.
  - intros n existing s1 Hn Htrim Hget. unfold createPerson. rewrite Hn.
    assert (Hne : n <> []) by (intros ->; apply Htrim; reflexivity).
    destruct n as [| c n]; [contradiction |].
    cbn [truthyString].
    destruct (streq (trim (c :: n)) []) eqn:E;
      [apply streq_nil in E; contradiction |].
    cbn [bind await tryCatch run]. rewrite Hget. reflexivity.
  - unfold createPerson. apply run_tryCatch_resolves.
Qed.

(** In the reference host: a blank name, and the name of the one page
    there is. *)
Lemma createPerson_validation_failure_witness :
  run RefHost.handler
    (createPerson (fun _ => None) june1_2024
       {| npName := Some (lit "  "); npBirthday := None;
          npRelationship := None; npContactFrequency := None;
          npEmail := None |})
    RefHost.emptyStore
  = (RefHost.emptyStore, [], Resolved (failure (lit "Name is required"))) /\
  run RefHost.handler
    (createPerson (fun _ => None) june1_2024
       {| npName := Some (lit " Alice "); npBirthday := Some (lit "1990-06-01");
          npRelationship := None; npContactFrequency := Some 14;
          npEmail := None |})
    (RefHost.storeWithPage (lit "Alice"))
  = (RefHost.storeWithPage (lit "Alice"), [Call (GetPage (lit "Alice"))],
     Resolved (failure (lit "A page named " ++ quote ++ lit "Alice" ++ quote
                        ++ lit " already exists"))).
Proof.
  split.
  - apply (createPerson_validation_failure RefHost.handler RefHost.emptyStore).
    reflexivity.
  - apply (proj1 (proj2 (createPerson_validation_failure RefHost.handler
                           (RefHost.storeWithPage (lit "Alice"))
                           (fun _ => None) june1_2024 _))
             (lit " Alice ")
             {| pageUuid := lit "Alice"; pageProperties := [] |}).
    + reflexivity.
    + discriminate.
    + reflexivity.
Defined.

(* ====================================================================== *)
(** * Rescheduling a completed birthday task *)
(* ====================================================================== *)

Section RefHostFacts.
Import RefHost.

Lemma streq_eq (a b : jsstring) : streq a b = true <-> a = b.
Proof.
  revert b. induction a as [| x a IH]; intros [| y b]; cbn [streq];
    split; try congruence.
  - intros H. apply andb_prop in H. destruct H as [Hx Hab].
    apply N.eqb_eq in Hx. apply IH in Hab. congruence.
  - intros [= -> ->]. rewrite N.eqb_refl. apply IH. reflexivity.
Qed.

Lemma streq_refl (a : jsstring) : streq a a = true.
Proof. apply streq_eq. reflexivity. Qed.

Lemma streq_neq (a b : jsstring) : a <> b -> streq a b = false.
Proof.
  intros H. destruct (streq a b) eqn:E; [| reflexivity].
  apply streq_eq in E. contradiction.
Qed.

Lemma findPage_name (n : jsstring) (pages : list StoredPage)
    (p : StoredPage) :
  findPage n pages = Some p -> spName p = n.
Proof.
  unfold findPage. intros H. apply find_some in H.
  apply streq_eq, H.
Qed.

Lemma findPage_appendBlock (n c : jsstring) (pages : list StoredPage)
    (p : StoredPage) :
  findPage n pages = Some p ->
  findPage n (appendBlock n c pages)
  = Some {| spName := spName p; spJournal := spJournal p;
            spBlocks := spBlocks p ++ [c] |}.
Proof.
  unfold findPage, appendBlock.
  induction pages as [| q pages IH]; cbn [find map]; [discriminate |].
  destruct (streq (spName q) n) eqn:E.
  - intros [= ->]. cbn [find spName]. rewrite E. reflexivity.
  - intros H. cbn [find]. rewrite E. apply IH, H.
Qed.

Lemma findPage_appendBlock_other (n m c : jsstring)
    (pages : list StoredPage) :
  m <> n ->
  findPage m (appendBlock n c pages) = findPage m pages.
Proof.
  intros Hne. unfold findPage, appendBlock.
  induction pages as [| q pages IH]; cbn [find map]; [reflexivity |].
  destruct (streq (spName q) n) eqn:E.
  - cbn [spName]. apply streq_eq in E.
    rewrite E, (streq_neq n m) by congruence. exact IH.
  - destruct (streq (spName q) m); [reflexivity | exact IH].
Qed.

Lemma findPage_new (n m : jsstring) (j : bool) (pages : list StoredPage) :
  findPage n pages = None ->
  findPage m (pages ++ [{| spName := n; spJournal := j; spBlocks := [] |}])
  = if streq n m
    then Some {| spName := n; spJournal := j; spBlocks := [] |}
    else findPage m pages.
Proof.
  unfold findPage.
  induction pages as [| q pages IH]; cbn [find app spName].
  - intros _. destruct (streq n m); reflexivity.
  - destruct (streq (spName q) n) eqn:E; [discriminate |].
    intros H. specialize (IH H).
    destruct (streq (spName q) m) eqn:Em; [| exact IH].
    destruct (streq n m) eqn:Enm; [| reflexivity].
    apply streq_eq in Em, Enm. subst.
    rewrite streq_refl in E. discriminate.
Qed.

Lemma epoch_year (t : Date) : 0 <= t -> 1970 <= getFullYear t.
Proof.
  intros Ht. pose proof (year_end_after t) as Hend.
  assert (Hd : 0 <= Day t) by (unfold Day, msPerDay; zlia).
  destruct (Z.le_gt_cases 1970 (getFullYear t)) as [H | H]; [exact H |].
  assert (Hle : DayFromYear (getFullYear t + 1) <= DayFromYear 1970)
    by (apply DayFromYear_le; lia).
  change (DayFromYear 1970) with 0 in Hle. lia.
Qed.

Lemma scheduleOn_blocks (dateStr personName : jsstring) (st : Store) :
  exists st' calls,
    run handler (scheduleOn dateStr personName) st
    = (st', calls, Resolved tt) /\
    blocksOn st' dateStr
    = blocksOn st dateStr ++ [birthdayTaskContent personName] /\
    (forall n, n <> dateStr -> blocksOn st' n = blocksOn st n).
Proof.
  unfold scheduleOn, blocksOn.
  cbn [bind await run handler option_map].
  destruct (findPage dateStr (stPages st)) as [p |] eqn:E.
  - cbn [bind await run handler option_map pageUuid pageOf].
    rewrite (findPage_name _ _ _ E), E.
    cbn [bind await run handler blockUuid withPages stPages].
    do 2 eexists. split; [reflexivity |]. cbn [stPages]. split.
    + rewrite (findPage_appendBlock _ _ _ _ E). reflexivity.
    + intros n Hn. rewrite findPage_appendBlock_other by exact Hn.
      reflexivity.
  - cbn [bind await run handler option_map pageUuid pageOf]. rewrite E.
    cbn [bind await run handler pageUuid withPages stPages].
    rewrite (findPage_new _ _ _ _ E), streq_refl.
    cbn [bind await run handler blockUuid withPages stPages].
    do 2 eexists. split; [reflexivity |]. cbn [stPages]. split.
    + rewrite (findPage_appendBlock _ _ _
                 {| spName := dateStr; spJournal := true; spBlocks := [] |})
        by (rewrite (findPage_new _ _ _ _ E), streq_refl; reflexivity).
      reflexivity.
    + intros n Hn. rewrite findPage_appendBlock_other by exact Hn.
      rewrite (findPage_new _ _ _ _ E), streq_neq by congruence.
      reflexivity.
Qed.

End RefHostFacts.

Section Rescheduling.
Import RefHost.

Lemma handle_completed_run (resolve : Page -> Prog (option Date))
    (now b : Date) (personName : jsstring) (st st1 : Store) :
  resolvesTo resolve personName st st1 b ->
  storeAfter (run handler
                (handleBirthdayTaskCompleted resolve now personName) st)
  = storeAfter (run handler
                  (scheduleOn
                     (formatDateForLogseq (nextYearBirthday now b))
                     personName) st1).
Proof.
  intros [Hpage [calls Hres]].
  destruct (scheduleOn_blocks
              (formatDateForLogseq (nextYearBirthday now b)) personName st1)
    as [st' [calls' [Hrun _]]].
  rewrite Hrun.
  destruct (findPage personName (stPages st)) as [p |] eqn:E;
    [| contradiction].
  unfold handleBirthdayTaskCompleted.
  match goal with
  | |- context [tryCatch ?body ?hd] =>
      assert (Hbody : run handler body st
                      = (st', Call (GetPage personName) :: calls ++ calls',
                         Resolved tt))
  end.
  { rewrite run_bind.
    assert (Hget : run handler (await (GetPage personName)) st
                   = (st, [Call (GetPage personName)],
                      Resolved (Some (pageOf st personName)))).
    { cbn [await run handler]. rewrite E. cbn [option_map].
      rewrite (findPage_name _ _ _ E). reflexivity. }
    rewrite Hget. cbv beta iota.
    rewrite run_bind, Hres. cbv beta iota zeta.
    unfold scheduleOn in Hrun. rewrite Hrun. reflexivity. }
  rewrite (run_tryCatch_ok handler _ _ _ _ _ _ Hbody). reflexivity.
Qed.

End Rescheduling.

(** The date [new Date(Y + 1, month, day)] built from today's year and the
    birthday's month and day. *)
Lemma next_year_same_day (now b D : Date) :
  0 <= now -> getFullYear D = getFullYear now ->
  getMonth D = getMonth b -> getDate D = getDate b ->
  getDate D <= DaysInMonth (getFullYear D + 1) (getMonth D) ->
  ymd (newDate (getFullYear now + 1) (getMonth b) (getDate b))
  = (getFullYear D + 1, getMonth D + 1, getDate D).
Proof.
  intros Hnow Hy Hm Hd Hex.
  pose proof (epoch_year now Hnow) as Hepoch.
  destruct (civil_range b) as [Hmr [Hd1 _]].
  rewrite Hy, Hm, Hd in *.
  unfold getMonth, getDate in *.
  revert Hepoch Hex Hmr Hd1.
  generalize (getFullYear now) (MonthFromTime b) (DateFromTime b).
  clear. intros y m d Hepoch Hex Hmr Hd1.
  unfold ymd, newDate, getFullYear, getMonth, getDate.
  destruct (Z.leb_spec (y + 1) 99); [lia |].
  rewrite andb_false_r.
  destruct (civil_MakeDay (y + 1) m d 0) as [E1 [E2 E3]];
    [exact Hmr | split; assumption | unfold msPerDay; lia |].
  rewrite E1, E2, E3. reflexivity.
Qed.

(** Claim C1, as the code has it: processing the completion of a birthday
    task appends the new task to the journal page of
    [new Date(Y + 1, month, day)], where [Y] is the year of the current
    date when the completion is processed and [month], [day] are those of
    the person's birthday, and to no other page.  For a task whose
    occurrence date [D] has the birthday's month and day, this is the
    calendar date [(D.year + 1, D.month, D.day)] when the completion is
    processed within the calendar year of [D] and that day exists in the
    following year. *)
Theorem completed_task_rescheduled
    (resolve : Page -> Prog (option Date)) (now b : Date)
    (personName : jsstring) (st st1 : RefHost.Store) (D : Date) :
  resolvesTo resolve personName st st1 b ->
  let next := newDate (getFullYear now + 1) (getMonth b) (getDate b) in
  let st' :=
    storeAfter (run RefHost.handler
                  (handleBirthdayTaskCompleted resolve now personName) st) in
  RefHost.blocksOn st' (formatDateForLogseq next)
  = RefHost.blocksOn st1 (formatDateForLogseq next)
    ++ [birthdayTaskContent personName] /\
  (forall n, n <> formatDateForLogseq next ->
             RefHost.blocksOn st' n = RefHost.blocksOn st1 n) /\
  (0 <= now -> getFullYear D = getFullYear now ->
   getMonth D = getMonth b -> getDate D = getDate b ->
   getDate D <= DaysInMonth (getFullYear D + 1) (getMonth D) ->
   ymd next = (getFullYear D + 1, getMonth D + 1, getDate D)).
Proof.
  intros Hres next st'.
  assert (Hnext : nextYearBirthday now b = next).
  { unfold nextYearBirthday, next. cbv zeta. rewrite setHours0_year.
    reflexivity. }
  unfold st'. rewrite (handle_completed_run resolve now b personName st st1 Hres).
  rewrite Hnext.
  destruct (scheduleOn_blocks (formatDateForLogseq next) personName st1)
    as [st2 [calls [Hrun [Hb Ho]]]].
  rewrite Hrun. unfold storeAfter. cbn [fst].
  split; [exact Hb | split; [exact Ho |]].
  apply next_year_same_day.
Qed.

(** A birthday on 1 June 1990; the task of 1 June 2024 is completed on
    that day at 10 o'clock: the next task goes to the page 2025-06-01. *)
Lemma completed_task_rescheduled_witness :
  RefHost.blocksOn
    (storeAfter
       (run RefHost.handler
          (handleBirthdayTaskCompleted
             (fun _ => Ret (Some (newDate 1990 5 1)))
             (june1_2024 + 36000000) (lit "Alice"))
          (RefHost.storeWithPage (lit "Alice"))))
    (lit "2025-06-01")
  = [lit "[[Alice]]'s Birthday!"] /\
  ymd (newDate (getFullYear (june1_2024 + 36000000) + 1)
         (getMonth (newDate 1990 5 1)) (getDate (newDate 1990 5 1)))
  = (2025, 6, 1).
Proof.
  destruct (completed_task_rescheduled
              (fun _ => Ret (Some (newDate 1990 5 1)))
              (june1_2024 + 36000000) (newDate 1990 5 1) (lit "Alice")
              (RefHost.storeWithPage (lit "Alice"))
              (RefHost.storeWithPage (lit "Alice")) june1_2024)
    as [H1 [_ H2]].
  - split; [discriminate | exists []; reflexivity].
  - split; [exact H1 |].
    apply H2; vm_compute; congruence.
Defined.

(** Claim C1 as stated fails: the birthday is 1 June, the task of
    1 June 2024 is completed late, on 2 January 2025; the new task is put
    on the page 2026-06-01, and the page 2025-06-01, one year past the
    completed occurrence, stays empty. *)
Lemma late_completion_counterexample :
  ~ (forall (resolve : Page -> Prog (option Date)) (now b : Date)
            (personName : jsstring) (st st1 : RefHost.Store) (D : Date),
        resolvesTo resolve personName st st1 b ->
        getMonth D = getMonth b -> getDate D = getDate b ->
        In (birthdayTaskContent personName)
           (RefHost.blocksOn
              (storeAfter
                 (run RefHost.handler
                    (handleBirthdayTaskCompleted resolve now personName) st))
              (formatDateForLogseq
                 (newDate (getFullYear D + 1) (getMonth D) (getDate D))))).
Proof.
  intros H.
  specialize (H (fun _ => Ret (Some (newDate 1990 5 1)))
                (newDate 2025 0 2) (newDate 1990 5 1) (lit "Alice")
                (RefHost.storeWithPage (lit "Alice"))
                (RefHost.storeWithPage (lit "Alice"))
                (newDate 2024 5 1)).
  assert (Hin : In (lit "[[Alice]]'s Birthday!") []).
  { apply H.
    - split; [discriminate | exists []; reflexivity].
    - vm_compute. reflexivity.
    - vm_compute. reflexivity. }
  exact Hin.
Qed.

(* ====================================================================== *)
(** * Further properties of the reminder lists *)
(* ====================================================================== *)

(** Property X1: in the contact reminders, the people of any one overdue
    value appear in their input order: the people listed with the value
    [k] are, in this order, the people of the input for whom the loop
    makes a reminder with the value [k] (the sort is stable). *)
Theorem people_to_contact_ties_in_input_order
    (now : Date) (people : list Person) (k : Z) :
  map crPerson
    (filter (fun r => match daysOverdue r with Fin z => z =? k | _ => false end)
       (getPeopleToContact now people))
  = filter (fun p =>
              match contactReminderOf now p with
              | Some r =>
                  match daysOverdue r with Fin z => z =? k | _ => false end
              | None => false
              end) people.
Proof.
  unfold getPeopleToContact.
  set (rs := filterMap (contactReminderOf now) people).
  set (cmp := fun a b : ContactReminder =>
                numSub (daysOverdue b) (daysOverdue a)).
  assert (Hfin : Forall finiteOverdue rs)
    by apply contact_reminders_finite.
  assert (Hkey : forall l, Forall finiteOverdue l ->
            filter (fun r => match daysOverdue r with
                             | Fin z => z =? k | _ => false end) l
            = withKey overdueKey (- k) l).
  { intros l Hl. unfold withKey. apply filter_ext_in. intros r Hr.
    rewrite Forall_forall in Hl. destruct (Hl r Hr) as [z Hz].
    unfold overdueKey. rewrite Hz.
    destruct (Z.eqb_spec z k), (Z.eqb_spec (- z) (- k));
      reflexivity || lia. }
  rewrite Hkey by (apply arraySort_Forall, Hfin).
  rewrite (arraySort_stable cmp overdueKey finiteOverdue)
    by (assumption || (intros x y Hx Hy; apply contact_compare_key;
                       assumption)).
  rewrite <- Hkey by exact Hfin. unfold rs.
  apply (filterMap_filter (contactReminderOf now) _ crPerson).
  apply contactReminderOf_person.
Qed.

(** Property X2: when every configured cadence is positive, every contact
    reminder has a finite [daysOverdue >= 0]; the test
    [reminder.daysOverdue >= 0] that [checkAndCreateReminders] makes before
    creating a contact task then never fails. *)
Theorem people_to_contact_overdue_nonnegative
    (now : Date) (people : list Person) :
  (forall p f, In p people -> contactFrequency p = Some f -> 0 < f) ->
  Forall (fun r => (exists z, daysOverdue r = Fin z /\ 0 <= z) /\
                   numGe0 (daysOverdue r) = true)
         (getPeopleToContact now people).
Proof.
  intros Hpos. unfold getPeopleToContact.
  apply arraySort_Forall, filterMap_Forall. intros p r Hin Hr.
  apply contactReminderOf_fields in Hr. destruct Hr as [Hl ->].
  cbn [daysOverdue numGe0].
  assert (Hz : 0 <= specDaysOverdue now p).
  { unfold specListed, specDaysOverdue in *.
    destruct (contactFrequency p) as [f |] eqn:Ef; [| discriminate].
    specialize (Hpos p f Hin Ef).
    destruct (lastContact p) as [d |]; [| lia].
    apply andb_prop in Hl. destruct Hl as [_ Hl].
    apply Z.leb_le in Hl. exact Hl. }
  split; [eexists; split; [reflexivity | exact Hz] |].
  apply Z.leb_le, Hz.
Qed.

Lemma people_to_contact_overdue_nonnegative_witness :
  Forall (fun r => (exists z, daysOverdue r = Fin z /\ 0 <= z) /\
                   numGe0 (daysOverdue r) = true)
         (getPeopleToContact june1_2024 [dave; carol; bob]).
Proof.
  apply people_to_contact_overdue_nonnegative.
  intros p f [<- | [<- | [<- | []]]] [= <-]; lia.
Defined.

(** Property X3: the birthday reminders list exactly the people who have a
    birthday whose next occurrence is within the window, each once. *)
Theorem upcoming_birthdays_listed
    (now : Date) (people : list Person) (withinDays : Z) :
  Permutation
    (map brPerson (getUpcomingBirthdays now people withinDays))
    (filter (fun p =>
               match birthday p with
               | Some b => getDaysUntilBirthday now b <=? withinDays
               | None => false
               end) people).
Proof.
  unfold getUpcomingBirthdays.
  eapply perm_trans.
  - apply Permutation_map, Permutation_sym, arraySort_perm.
  - rewrite (filterMap_map_filter (birthdayReminderOf now withinDays)
               (fun p =>
                  match birthday p with
                  | Some b => getDaysUntilBirthday now b <=? withinDays
                  | None => false
                  end) brPerson); [apply Permutation_refl | |].
    + intros p. unfold birthdayReminderOf. cbv zeta.
      destruct (birthday p) as [b |]; [| reflexivity].
      destruct (getDaysUntilBirthday now b <=? withinDays); reflexivity.
    + intros p r Hr. apply birthdayReminderOf_Some in Hr.
      destruct Hr as [b [_ [Hp _]]]. exact Hp.
Qed.

(* ====================================================================== *)
(** * Further properties of the date utilities *)
(* ====================================================================== *)

Section DateUtilityFacts.




Lemma Day_le (a b : Z) : a <= b -> Day a <= Day b.
Proof. unfold Day, msPerDay. intros. zlia. Qed.


Lemma MakeDay_civil (t : Z) :
  MakeDay (YearFromTime t) (MonthFromTime t) (DateFromTime t) = Day t.
Proof.
  destruct (civil_range t) as [Hm _].
  unfold MakeDay.
  replace (MonthFromTime t / 12) with 0 by zlia.
  replace (MonthFromTime t mod 12) with (MonthFromTime t) by zlia.
  replace (YearFromTime t + 0) with (YearFromTime t) by lia.
  unfold DateFromTime, DayWithinYear, InLeapYear. lia.
Qed.

Lemma civil_day_bound (t : Date) :
  0 <= MonthFromTime t <= 11 /\
  1 <= DateFromTime t <= daysInMonthTable 1 (MonthFromTime t).
Proof.
  destruct (civil_range t) as [Hm [Hlo Hhi]].
  repeat split; try lia.
  eapply Z.le_trans; [exact Hhi |]. unfold DaysInMonth.
  apply daysInMonthTable_le. destruct (isLeapYear _); lia.
Qed.



(** From the epoch on, [new Date(year, ...)] takes the year as it is. *)
Lemma newDate_plain (y m d : Z) :
  100 <= y -> newDate y m d = MakeDate (MakeDay y m d) 0.
Proof.
  intros Hy. unfold newDate.
  destruct (Z.leb_spec y 99); [lia |]. rewrite andb_false_r. reflexivity.
Qed.








End DateUtilityFacts.





Section AgeFacts.

Lemma monthOfYearDay_mono (leap x y : Z) :
  x <= y -> monthOfYearDay leap x <= monthOfYearDay leap y.
Proof.
  intros Hxy. unfold monthOfYearDay.
  repeat match goal with
         | |- context [?a <? ?b] => destruct (Z.ltb_spec a b); try lia
         end.
Qed.

Lemma year_mono (a b : Date) :
  Day a <= Day b -> YearFromTime a <= YearFromTime b.
Proof.
  intros Hab.
  pose proof (year_start_before a) as Ha.
  pose proof (year_end_after b) as Hb.
  unfold getFullYear in *.
  destruct (Z.le_gt_cases (YearFromTime a) (YearFromTime b)) as [H | H];
    [exact H |].
  assert (Hle : DayFromYear (YearFromTime b + 1)
                <= DayFromYear (YearFromTime a))
    by (apply DayFromYear_le; lia).
  lia.
Qed.

(** Later days have later calendar dates, compared as (year, month, day). *)
Lemma civil_mono (a b : Date) :
  Day a <= Day b ->
  YearFromTime a < YearFromTime b \/
  (YearFromTime a = YearFromTime b /\
   (MonthFromTime a < MonthFromTime b \/
    (MonthFromTime a = MonthFromTime b /\ DateFromTime a <= DateFromTime b))).
Proof.
  intros Hab. pose proof (year_mono a b Hab) as Hy.
  destruct (Z.eq_dec (YearFromTime a) (YearFromTime b)) as [E | E];
    [right | left; lia].
  split; [exact E |].
  assert (Hl : InLeapYear a = InLeapYear b)
    by (unfold InLeapYear; rewrite E; reflexivity).
  assert (Hd : DayWithinYear a <= DayWithinYear b)
    by (unfold DayWithinYear; rewrite E; lia).
  pose proof (monthOfYearDay_mono (InLeapYear b) _ _ Hd) as Hm.
  unfold DateFromTime, MonthFromTime in *. rewrite Hl in *.
  destruct (Z.eq_dec (monthOfYearDay (InLeapYear b) (DayWithinYear a))
                     (monthOfYearDay (InLeapYear b) (DayWithinYear b)))
    as [Em | Em]; [right | left; lia].
  split; [exact Em |]. rewrite Em. lia.
Qed.

End AgeFacts.

(** Property X6: the age of a person born on or before today is never
    negative, it is 0 on the day of birth, and it never exceeds the
    difference of the years. *)
Theorem age_not_negative (now birthday : Date) :
  (birthday <= now -> 0 <= calculateAge now birthday) /\
  (Day birthday = Day now -> calculateAge now birthday = 0) /\
  calculateAge now birthday <= getFullYear now - getFullYear birthday.
Proof.
  unfold calculateAge, getFullYear, getMonth, getDate. cbv zeta.
  split; [| split].
  - intros Hle. apply Day_le in Hle. apply civil_mono in Hle.
    revert Hle.
    generalize (YearFromTime now) (YearFromTime birthday)
      (MonthFromTime now) (MonthFromTime birthday)
      (DateFromTime now) (DateFromTime birthday).
    intros y1 y0 m1 m0 d1 d0 Hle.
    destruct (Z.ltb_spec (m1 - m0) 0); cbn [orb]; [lia |].
    destruct (Z.eqb_spec (m1 - m0) 0); cbn [andb]; [| lia].
    destruct (Z.ltb_spec d1 d0); lia.
  - intros Heq.
    assert (Hy : YearFromTime birthday = YearFromTime now)
      by (unfold YearFromTime; rewrite Heq; reflexivity).
    assert (Hm : MonthFromTime birthday = MonthFromTime now)
      by (unfold MonthFromTime, InLeapYear, DayWithinYear, YearFromTime;
          rewrite Heq; reflexivity).
    assert (Hd : DateFromTime birthday = DateFromTime now)
      by (unfold DateFromTime, MonthFromTime, InLeapYear, DayWithinYear,
            YearFromTime; rewrite Heq; reflexivity).
    rewrite Hy, Hm, Hd, Z.sub_diag, Z.ltb_irrefl, Z.ltb_irrefl.
    cbn [Z.eqb orb andb]. apply Z.sub_diag.
  - generalize (YearFromTime now) (YearFromTime birthday)
      (MonthFromTime now) (MonthFromTime birthday)
      (DateFromTime now) (DateFromTime birthday).
    intros y1 y0 m1 m0 d1 d0.
    destruct ((m1 - m0 <? 0) || ((m1 - m0 =? 0) && (d1 <? d0))); lia.
Qed.

Lemma age_not_negative_witness :
  0 <= calculateAge june1_2024 (newDate 2023 5 2) /\
  calculateAge (june1_2024 + 1000) june1_2024 = 0.
Proof.
  destruct (age_not_negative june1_2024 (newDate 2023 5 2)) as [H1 _].
  destruct (age_not_negative (june1_2024 + 1000) june1_2024) as [_ [H2 _]].
  split; [apply H1 | apply H2]; vm_compute; congruence.
Defined.



(* ====================================================================== *)
(** * Further properties of the completion detector *)
(* ====================================================================== *)

Section DetectorFacts.

Lemma isChar_eq (a : ascii) (c : jschar) :
  isChar a c = true -> c = N_of_ascii a.
Proof. unfold isChar. apply N.eqb_eq. Qed.

Lemma isApostrophe_eq (c : jschar) :
  isApostrophe c = true -> c = straightApostrophe.
Proof.
  unfold isApostrophe. intros H. apply orb_prop in H.
  destruct H as [H | H]; apply isChar_eq in H; exact H.
Qed.

Lemma runLength_firstn (cls : jschar -> bool) (bound m : nat)
    (s : jsstring) :
  (m <= runLength cls bound s)%nat -> allIn cls (firstn m s).
Proof.
  revert m s. induction bound as [| bound IH]; intros m s Hm.
  - cbn [runLength] in Hm. assert (m = 0%nat) by lia. subst. constructor.
  - destruct s as [| c s]; cbn [runLength] in Hm.
    + assert (m = 0%nat) by lia. subst. constructor.
    + destruct (cls c) eqn:Ec.
      * destruct m as [| m]; [constructor |].
        cbn [firstn]. constructor; [exact Ec |]. apply IH. lia.
      * assert (m = 0%nat) by lia. subst. constructor.
Qed.

Lemma rx_one_fail (toEnd : bool) (cls : jschar -> bool)
    (items : list rxitem) (c : jschar) (s : jsstring) :
  cls c = false -> rxMatchHere toEnd (one cls :: items) (c :: s) = None.
Proof.
  intros Hc. apply rx_item_short. unfold maxRun.
  cbn [one rxClass rxMax rxMin runLength]. rewrite Hc. lia.
Qed.

Lemma rxSearch_prefix (items : list rxitem) (s : jsstring)
    (caps : list jsstring) :
  rxSearch items s = Some caps ->
  exists pre s', s = pre ++ s' /\ rxMatchHere false items s' = Some caps.
Proof.
  induction s as [| c s IH]; cbn [rxSearch];
    destruct (rxMatchHere false items _) eqn:E.
  - intros [= <-]. exists [], []. auto.
  - discriminate.
  - intros [= <-]. exists [], (c :: s). auto.
  - intros H. destruct (IH H) as [pre [s' [-> Hs']]].
    exists (c :: pre), s'. auto.
Qed.

(** Where the birthday-task pattern matches, the text reads
    [[[name]]'s Birthday] with a non-empty [name] free of [']']. *)
Lemma birthdayTaskRe_inv (s : jsstring) (caps : list jsstring) :
  rxMatchHere false birthdayTaskRe s = Some caps ->
  exists personName post,
    caps = [personName] /\ personName <> [] /\
    allIn notCloseBracket personName /\
    s = lit "[[" ++ personName ++ lit "]]'s Birthday" ++ post.
Proof.
  unfold birthdayTaskRe. cbn [chars list_ascii_of_string map app].
  intros Hm.
  apply rx_one_inv in Hm. destruct Hm as [c1 [r1 [-> [H1 Hm]]]].
  apply rx_one_inv in Hm. destruct Hm as [c2 [r2 [-> [H2 Hm]]]].
  apply isChar_eq in H1, H2. subst c1 c2.
  apply rx_item_inv in Hm.
  destruct Hm as [m [caps' [[Hlo Hhi] [E Hk]]]].
  cbn [group rxMin rxCapture] in *.
  assert (Hall : allIn notCloseBracket (firstn m r2)).
  { unfold maxRun in Hhi. cbn [group rxClass rxMax] in Hhi.
    eapply runLength_firstn, Hhi. }
  assert (Hne : firstn m r2 <> []).
  { pose proof (runLength_le notCloseBracket (List.length r2) r2)
      as [_ Hlen].
    unfold maxRun in Hhi. cbn [group rxClass rxMax] in Hhi.
    assert (Hm : (1 <= m <= List.length r2)%nat) by lia.
    clear - Hm.
    destruct r2 as [| c r2]; [cbn [List.length] in Hm; lia |].
    destruct m as [| m]; [lia | discriminate]. }
  pose proof (firstn_skipn m r2) as Hsplit.
  revert E Hsplit Hall Hne Hk.
  generalize (skipn m r2) (firstn m r2).
  clear. intros rest nm E Hsplit Hall Hne Hk. subst r2.
  repeat match type of E with
         | rxMatchHere false (_ :: _) _ = Some _ =>
             apply rx_one_inv in E;
             let c := fresh "c" in
             let r := fresh "r" in
             let Hc := fresh "Hc" in
             destruct E as [c [r [-> [Hc E]]]];
             first [apply isChar_eq in Hc | apply isApostrophe_eq in Hc];
             subst c
         end.
  cbn [rxMatchHere] in E. injection E as <-. subst caps.
  match goal with
  | |- context [nm ++ _ :: _ :: _ :: _ :: _ :: _ :: _ :: _ :: _ :: _ :: _
                :: _ :: _ :: ?post] => exists nm, post
  end.
  repeat split; try assumption.
Qed.

End DetectorFacts.

(** Where a name is extracted, the text reads [[[name]]'s Birthday]
    around it. *)
Lemma extract_inv (text personName : jsstring) :
  extractBirthdayPersonName text = Some personName ->
  personName <> [] /\ allIn notCloseBracket personName /\
  exists pre post,
    text = pre ++ lit "[[" ++ personName ++ lit "]]'s Birthday" ++ post.
Proof.
  unfold extractBirthdayPersonName. intros Hx.
  destruct (rxSearch birthdayTaskRe text) as [caps |] eqn:E;
    [| discriminate].
  destruct (rxSearch_prefix _ _ _ E) as [pre [s' [Htext Hs']]].
  destruct (birthdayTaskRe_inv _ _ Hs') as [nm [post [-> [Hne [Hall ->]]]]].
  injection Hx as <-.
  repeat split; try assumption. exists pre, post. exact Htext.
Qed.

(** A text of that shape has both marks [isBirthdayTask] looks for. *)
Lemma isBirthdayTask_shape (pre personName post : jsstring) :
  isBirthdayTask
    (pre ++ lit "[[" ++ personName ++ lit "]]'s Birthday" ++ post)
  = true.
Proof.
  unfold isBirthdayTask. rewrite (includes_app pre (lit "[[")).
  replace (pre ++ lit "[[" ++ personName ++ lit "]]'s Birthday" ++ post)
    with ((pre ++ lit "[[" ++ personName ++ lit "]]")
          ++ lit "'s Birthday" ++ post)
    by (rewrite <- !app_assoc; reflexivity).
  rewrite includes_app. reflexivity.
Qed.

(** With a name extracted, the listener's decision rests on [DONE]. *)
Lemma completionTrigger_of_extract (text personName : jsstring) :
  extractBirthdayPersonName text = Some personName ->
  completionTrigger {| content := Some text |}
  = (if startsWith text (lit "DONE") then Some personName else None).
Proof.
  intros Hx. destruct (extract_inv _ _ Hx) as [Hne [_ [pre [post Htext]]]].
  unfold completionTrigger. cbn [content].
  rewrite Hx. rewrite Htext at 1. rewrite isBirthdayTask_shape.
  cbn [andb]. destruct (startsWith text (lit "DONE")); [| reflexivity].
  destruct personName; [contradiction | reflexivity].
Qed.

(** Property X8: what [extractBirthdayPersonName] returns is a non-empty
    name without [']'] that stands in the text as [[[name]]'s Birthday];
    so [isBirthdayTask] holds wherever a name is extracted, and the
    listener triggers exactly on the texts that start with [DONE] and from
    which a name is extracted. *)
Theorem extracted_name_is_in_text (text personName : jsstring) :
  extractBirthdayPersonName text = Some personName ->
  personName <> [] /\ allIn notCloseBracket personName /\
  (exists pre post,
      text = pre ++ lit "[[" ++ personName ++ lit "]]'s Birthday" ++ post) /\
  isBirthdayTask text = true /\
  completionTrigger {| content := Some text |}
  = (if startsWith text (lit "DONE") then Some personName else None).
Proof.
  intros Hx.
  destruct (extract_inv _ _ Hx) as [Hne [Hall [pre [post Htext]]]].
  split; [exact Hne | split; [exact Hall | split; [| split]]].
  - exists pre, post. exact Htext.
  - rewrite Htext. apply isBirthdayTask_shape.
  - apply completionTrigger_of_extract, Hx.
Qed.

Lemma extracted_name_is_in_text_witness :
  exists pre post,
    lit "DONE [[Alice]]'s Birthday!"
    = pre ++ lit "[[" ++ lit "Alice" ++ lit "]]'s Birthday" ++ post.
Proof.
  apply (extracted_name_is_in_text (lit "DONE [[Alice]]'s Birthday!")
           (lit "Alice")).
  reflexivity.
Defined.

Section CreatedTaskFacts.

Lemma rxSearch_skip (items : list rxitem) (cls : jschar -> bool)
    (c : jschar) (s : jsstring) :
  cls c = false ->
  rxSearch (one cls :: items) (c :: s) = rxSearch (one cls :: items) s.
Proof.
  intros Hc. cbn [rxSearch]. rewrite rx_one_fail by exact Hc. reflexivity.
Qed.

Lemma rxSearch_here (items : list rxitem) (s : jsstring)
    (caps : list jsstring) :
  rxMatchHere false items s = Some caps -> rxSearch items s = Some caps.
Proof. intros H. destruct s; cbn [rxSearch]; rewrite H; reflexivity. Qed.

Lemma onChanged_single (block : ChangedBlock) (r : option jsstring) :
  completionTrigger block = r ->
  onChanged [block] = match r with Some y => [y] | None => [] end.
Proof. intros <-. reflexivity. Qed.

(** The name is found behind a prefix in which [[] does not occur. *)
Lemma extract_after_prefix (pre personName post : jsstring) :
  Forall (fun c => isChar "[" c = false) pre ->
  personName <> [] -> allIn notCloseBracket personName ->
  extractBirthdayPersonName
    (pre ++ lit "[[" ++ personName ++ lit "]]'s Birthday" ++ post)
  = Some personName.
Proof.
  intros Hpre Hne Hall. unfold extractBirthdayPersonName.
  assert (Hs : rxSearch birthdayTaskRe
                 (pre ++ lit "[[" ++ personName
                  ++ lit "]]'s Birthday" ++ post)
               = Some [personName]).
  { induction Hpre as [| c pre Hc _ IH].
    - apply rxSearch_here.
      exact (birthdayTaskRe_match personName post Hne Hall).
    - cbn [app]. unfold birthdayTaskRe in *.
      cbn [chars list_ascii_of_string map app] in *.
      unfold chr at 1. rewrite rxSearch_skip by exact Hc. exact IH. }
  rewrite Hs. reflexivity.
Qed.

End CreatedTaskFacts.

(** Property X9: the task that [createBirthdayReminderTask] and
    [handleBirthdayTaskCompleted] write for a person is recognised by the
    listener once it is marked done, with that person's name, for every
    non-empty name without [']']; as written, without [DONE] in front, it
    triggers nothing. *)
Theorem created_task_is_detected (personName : jsstring) :
  personName <> [] -> allIn notCloseBracket personName ->
  onChanged
    [{| content := Some (lit "DONE " ++ birthdayTaskContent personName) |}]
  = [personName] /\
  onChanged [{| content := Some (birthdayTaskContent personName) |}] = [].
Proof.
  intros Hne Hall. split.
  - assert (Hx : extractBirthdayPersonName
                   (lit "DONE " ++ birthdayTaskContent personName)
                 = Some personName).
    { exact (extract_after_prefix (lit "DONE ") personName (lit "!")
               ltac:(repeat constructor) Hne Hall). }
    pose proof (completionTrigger_of_extract _ _ Hx) as Ht.
    apply (onChanged_single _ (Some personName)). exact Ht.
  - unfold onChanged, completionTrigger. cbn [filterMap content].
    replace (startsWith (birthdayTaskContent personName) (lit "DONE"))
      with false by reflexivity.
    rewrite andb_false_r. reflexivity.
Qed.

Lemma created_task_is_detected_witness :
  onChanged
    [{| content := Some (lit "DONE " ++ birthdayTaskContent (lit "Alice")) |}]
  = [lit "Alice"] /\
  onChanged [{| content := Some (birthdayTaskContent (lit "Alice")) |}] = [].
Proof.
  apply created_task_is_detected; [discriminate | repeat constructor].
Defined.

(** Property X10: the reminder task that [createBirthdayTask] puts on the
    current page ([TODO [[name]]'s Birthday is TODAY!] or
    [... in N days]) is a birthday task to the listener too: with its
    [TODO] turned into [DONE] it triggers the handler for that person, and
    so schedules next year's task. *)
Theorem reminder_task_also_triggers (personName : jsstring) (daysUntil : Z) :
  personName <> [] -> allIn notCloseBracket personName ->
  startsWith (createBirthdayTaskContent personName daysUntil) (lit "TODO")
  = true /\
  onChanged
    [{| content :=
          Some (lit "DONE"
                ++ skipn 4 (createBirthdayTaskContent personName daysUntil))
     |}]
  = [personName].
Proof.
  intros Hne Hall. unfold createBirthdayTaskContent.
  destruct (daysUntil =? 0).
  - split; [reflexivity |].
    assert (Hx : extractBirthdayPersonName
                   (lit "DONE"
                    ++ skipn 4 (lit "TODO [[" ++ personName
                                ++ lit "]]'s Birthday is TODAY!"))
                 = Some personName).
    { exact (extract_after_prefix (lit "DONE ") personName
               (lit " is TODAY!") ltac:(repeat constructor) Hne Hall). }
    pose proof (completionTrigger_of_extract _ _ Hx) as Ht.
    apply (onChanged_single _ (Some personName)). exact Ht.
  - split; [reflexivity |].
    assert (Hx : extractBirthdayPersonName
                   (lit "DONE"
                    ++ skipn 4 (lit "TODO [[" ++ personName
                                ++ lit "]]'s Birthday in "
                                ++ stringOfZ daysUntil ++ lit " days"))
                 = Some personName).
    { exact (extract_after_prefix (lit "DONE ") personName
               (lit " in " ++ stringOfZ daysUntil ++ lit " days")
               ltac:(repeat constructor) Hne Hall). }
    pose proof (completionTrigger_of_extract _ _ Hx) as Ht.
    apply (onChanged_single _ (Some personName)). exact Ht.
Qed.

Lemma reminder_task_also_triggers_witness :
  onChanged [{| content := Some (lit "DONE [[Alice]]'s Birthday in 3 days") |}]
  = [lit "Alice"].
Proof.
  apply (reminder_task_also_triggers (lit "Alice") 3);
    [discriminate | repeat constructor].
Defined.

(* ====================================================================== *)
(** * Further properties of the host programs *)
(* ====================================================================== *)

Section HostFacts.
Context {S : Type} (h : Handler S).

(** A [try] whose body throws continues with the [catch] block. *)
Lemma run_tryCatch_caught {A : Type} (p : Prog A) (a : A)
    (s s' : S) (calls : list AnyCall) (e : Error) :
  run h p s = (s', calls, Rejected e) ->
  run h (tryCatch p (fun _ => Ret a)) s = (s', calls, Resolved a).
Proof.
  revert s calls. induction p as [a0 | e0 | X c k IH]; intros s calls;
    cbn [tryCatch run].
  - discriminate.
  - intros [= -> <- _]. reflexivity.
  - destruct (h X c s) as [s1 o].
    destruct (run h (k o) s1) as [[s2 calls2] r2] eqn:E.
    intros [= -> <- ->]. rewrite (IH o s1 calls2 E). reflexivity.
Qed.

End HostFacts.

(** Property X11: [handleBirthdayTaskCompleted] never throws, whatever the
    host does.  When the lookup of the person's page finds nothing or is
    rejected, that lookup is its only call; when the birthday cannot be
    resolved (no date, or an error while resolving), no call follows the
    resolver's.  In both cases nothing is created or written. *)
Theorem completion_handler_gives_up_quietly
    {S : Type} (h : Handler S) (s : S)
    (resolve : Page -> Prog (option Date)) (now : Date)
    (personName : jsstring) :
  (exists r,
      snd (run h (handleBirthdayTaskCompleted resolve now personName) s)
      = Resolved r) /\
  (forall (s1 : S) (o : Outcome (option Page)),
      h _ (GetPage personName) s = (s1, o) ->
      (forall pg, o <> Resolved (Some pg)) ->
      run h (handleBirthdayTaskCompleted resolve now personName) s
      = (s1, [Call (GetPage personName)], Resolved tt)) /\
  (forall (s1 s2 : S) (pg : Page) (calls : list AnyCall)
          (r : Outcome (option Date)),
      h _ (GetPage personName) s = (s1, Resolved (Some pg)) ->
      run h (resolve pg) s1 = (s2, calls, r) ->
      (forall d, r <> Resolved (Some d)) ->
      run h (handleBirthdayTaskCompleted resolve now personName) s
      = (s2, Call (GetPage personName) :: calls, Resolved tt)).
Proof.
  split; [| split].
  - unfold handleBirthdayTaskCompleted.
    apply (run_tryCatch_resolves h _ (fun _ => tt)).
  - intros s1 o Hget Ho. unfold handleBirthdayTaskCompleted.
    cbn [bind await tryCatch run]. rewrite Hget.
    destruct o as [[pg |] | e]; [exfalso; apply (Ho pg); reflexivity | |];
      reflexivity.
  - intros s1 s2 pg calls r Hget Hres Hr.
    unfold handleBirthdayTaskCompleted.
    match goal with
    | |- context [tryCatch ?body ?hd] =>
        assert (Hbody : run h body s
                        = (s2, Call (GetPage personName) :: calls,
                           match r with
                           | Rejected e => Rejected e
                           | Resolved _ => Resolved tt
                           end))
    end.
    { rewrite run_bind.
      assert (Hg : run h (await (GetPage personName)) s
                   = (s1, [Call (GetPage personName)], Resolved (Some pg)))
        by (cbn [await run]; rewrite Hget; reflexivity).
      rewrite Hg. cbv beta iota. rewrite run_bind, Hres.
      destruct r as [[d |] | e]; [exfalso; apply (Hr d); reflexivity | |];
        cbn [run app]; rewrite ?app_nil_r; reflexivity. }
    destruct r as [[d |] | e]; [exfalso; apply (Hr d); reflexivity | |].
    + apply run_tryCatch_ok. exact Hbody.
    + apply (run_tryCatch_caught h _ tt _ _ _ e). exact Hbody.
Qed.

(** In the reference host: no page for the person, and a page without a
    birthday. *)
Lemma completion_handler_gives_up_quietly_witness :
  run RefHost.handler
    (handleBirthdayTaskCompleted (fun _ => Ret (Some (newDate 1990 5 1)))
       june1_2024 (lit "Alice"))
    RefHost.emptyStore
  = (RefHost.emptyStore, [Call (GetPage (lit "Alice"))], Resolved tt) /\
  run RefHost.handler
    (handleBirthdayTaskCompleted (fun _ => Ret None)
       june1_2024 (lit "Alice"))
    (RefHost.storeWithPage (lit "Alice"))
  = (RefHost.storeWithPage (lit "Alice"), [Call (GetPage (lit "Alice"))],
     Resolved tt).
Proof.
  split.
  - apply (proj1 (proj2 (completion_handler_gives_up_quietly
                           RefHost.handler RefHost.emptyStore _ _ _))
             RefHost.emptyStore (Resolved None)).
    + reflexivity.
    + discriminate.
  - apply (proj2 (proj2 (completion_handler_gives_up_quietly
                           RefHost.handler
                           (RefHost.storeWithPage (lit "Alice"))
                           (fun _ => Ret None) june1_2024 (lit "Alice")))
             (RefHost.storeWithPage (lit "Alice"))
             (RefHost.storeWithPage (lit "Alice"))
             {| pageUuid := lit "Alice"; pageProperties := [] |}
             [] (Resolved None)).
    + reflexivity.
    + reflexivity.
    + discriminate.
Defined.





Section ReferenceRuns.
Import RefHost.

Lemma findPage_appendBlock_some (n m c : jsstring)
    (pages : list StoredPage) :
  findPage m pages <> None -> findPage m (appendBlock n c pages) <> None.
Proof.
  unfold findPage, appendBlock.
  induction pages as [| q pages IH]; cbn [find map]; [auto |].
  destruct (streq (spName q) m) eqn:Em.
  - intros _. destruct (streq (spName q) n); cbn [spName]; rewrite Em;
      discriminate.
  - intros H. destruct (streq (spName q) n); cbn [spName]; rewrite Em;
      apply IH, H.
Qed.

Lemma findPage_app_some (m : jsstring) (pages more : list StoredPage) :
  findPage m pages <> None -> findPage m (pages ++ more) <> None.
Proof.
  unfold findPage. induction pages as [| q pages IH]; cbn [find app];
    [congruence |].
  destruct (streq (spName q) m); [discriminate | exact IH].
Qed.

(** The run of [createBirthdayReminderTask] in the reference host. *)
Lemma reminder_task_run (now : Date) (personName : jsstring)
    (birthday : Date) (st : Store) :
  let journalDateStr :=
    formatDateForLogseq (getNextBirthdayDate now birthday) in
  exists st' calls newBlock,
    run handler (createBirthdayReminderTask now personName birthday) st
    = (st', calls, Resolved true) /\
    blocksOn st' journalDateStr
    = blocksOn st journalDateStr ++ [birthdayTaskContent personName] /\
    (forall n, n <> journalDateStr -> blocksOn st' n = blocksOn st n) /\
    stTags st' = stTags st ++ [(newBlock, TASK_TAG_UUID)] /\
    stProps st' = stProps st /\
    (forall m, findPage m (stPages st) <> None ->
               findPage m (stPages st') <> None).
Proof.
  intros d. unfold createBirthdayReminderTask. cbv zeta.
  fold d. generalize d. clear d. intros d.
  unfold blocksOn.
  cbn [bind await tryCatch run handler option_map].
  destruct (findPage d (stPages st)) as [p |] eqn:E.
  - cbn [bind await tryCatch run handler option_map pageUuid pageOf].
    rewrite (findPage_name _ _ _ E), E.
    cbn [bind await tryCatch run handler blockUuid withPages stPages
         stTags stProps].
    do 3 eexists. split; [reflexivity |].
    cbn [stPages stTags stProps]. repeat split.
    + rewrite (findPage_appendBlock _ _ _ _ E). reflexivity.
    + intros n Hn. rewrite findPage_appendBlock_other by exact Hn.
      reflexivity.
    + intros m. apply findPage_appendBlock_some.
  - cbn [bind await tryCatch run handler option_map pageUuid pageOf].
    rewrite E.
    cbn [bind await tryCatch run handler pageUuid withPages stPages].
    rewrite (findPage_new _ _ _ _ E), streq_refl.
    cbn [bind await tryCatch run handler blockUuid withPages stPages
         stTags stProps].
    do 3 eexists. split; [reflexivity |].
    cbn [stPages stTags stProps]. repeat split.
    + rewrite (findPage_appendBlock _ _ _
                 {| spName := d; spJournal := true; spBlocks := [] |})
        by (rewrite (findPage_new _ _ _ _ E), streq_refl; reflexivity).
      reflexivity.
    + intros n Hn. rewrite findPage_appendBlock_other by exact Hn.
      rewrite (findPage_new _ _ _ _ E), streq_neq by congruence.
      reflexivity.
    + intros m Hm. apply findPage_appendBlock_some, findPage_app_some, Hm.
Qed.

End ReferenceRuns.


Section PersonCreation.
Import RefHost.
Local Open Scope prog_scope.
Variable nativeDateParse : jsstring -> option Date.

Lemma upsertIf_run (page : Page) (key : jsstring)
    (value : option PropValue) (st : Store) :
  exists st' calls,
    run handler (upsertIf page key value) st = (st', calls, Resolved tt) /\
    stPages st' = stPages st /\ stTags st' = stTags st /\
    stProps st'
    = stProps st ++ match value with
                    | Some v => [(pageUuid page, key, v)]
                    | None => []
                    end.
Proof.
  destruct value as [v |]; cbn [upsertIf await run handler];
    do 2 eexists; (split; [reflexivity |]); cbn [stPages stTags stProps];
    repeat split. symmetry. apply app_nil_r.
Qed.

(** What [createPerson] does with the created page, in the reference
    host. *)
Lemma person_fields_run (now : Date) (data : NewPersonData) (page : Page)
    (personName : jsstring) (st : Store) :
  exists st' calls,
    run handler
      (upsertIf page PEOPLE_PROPERTIES.birthday
         (option_map PropStr (truthyString (npBirthday data))) ;;;
       upsertIf page PEOPLE_PROPERTIES.relationship
         (option_map PropStr (truthyString (npRelationship data))) ;;;
       upsertIf page PEOPLE_PROPERTIES.contactFrequency
         (match npContactFrequency data with
          | Some f => if 0 <? f then Some (PropNum f) else None
          | None => None
          end) ;;;
       upsertIf page PEOPLE_PROPERTIES.email
         (option_map PropStr (truthyString (npEmail data))) ;;;
       match truthyString (npBirthday data) with
       | Some b =>
           match nativeDateParse b with
           | Some birthdayDate =>
               _ <- createBirthdayReminderTask now personName
                      birthdayDate ;;
               Ret tt
           | None => Ret tt
           end
       | None => Ret tt
       end ;;;
       Ret {| success := true; error := None |}) st
    = (st', calls, Resolved {| success := true; error := None |}) /\
    stProps st'
    = stProps st
      ++ map (fun kv => (pageUuid page, fst kv, snd kv)) (writtenFields data)
    /\
    (exists tasks, stTags st' = stTags st ++ tasks) /\
    (forall m, findPage m (stPages st) <> None ->
               findPage m (stPages st') <> None) /\
    (forall b d,
        truthyString (npBirthday data) = Some b ->
        nativeDateParse b = Some d ->
        blocksOn st' (formatDateForLogseq (getNextBirthdayDate now d))
        = blocksOn st (formatDateForLogseq (getNextBirthdayDate now d))
          ++ [birthdayTaskContent personName]).
Proof.
  destruct (upsertIf_run page PEOPLE_PROPERTIES.birthday
              (option_map PropStr (truthyString (npBirthday data))) st)
    as [st1 [c1 [R1 [P1 [T1 F1]]]]].
  destruct (upsertIf_run page PEOPLE_PROPERTIES.relationship
              (option_map PropStr (truthyString (npRelationship data))) st1)
    as [st2 [c2 [R2 [P2 [T2 F2]]]]].
  destruct (upsertIf_run page PEOPLE_PROPERTIES.contactFrequency
              (match npContactFrequency data with
               | Some f => if 0 <? f then Some (PropNum f) else None
               | None => None
               end) st2)
    as [st3 [c3 [R3 [P3 [T3 F3]]]]].
  destruct (upsertIf_run page PEOPLE_PROPERTIES.email
              (option_map PropStr (truthyString (npEmail data))) st3)
    as [st4 [c4 [R4 [P4 [T4 F4]]]]].
  assert (Hprops : stProps st4
                   = stProps st
                     ++ map (fun kv => (pageUuid page, fst kv, snd kv))
                          (writtenFields data)).
  { rewrite F4, F3, F2, F1. unfold writtenFields.
    rewrite !map_app, <- !app_assoc.
    destruct (truthyString (npBirthday data)),
      (truthyString (npRelationship data)),
      (npContactFrequency data) as [f |],
      (truthyString (npEmail data));
      try destruct (0 <? f); reflexivity. }
  assert (Hpages : stPages st4 = stPages st) by congruence.
  assert (Htags : stTags st4 = stTags st) by congruence.
  rewrite run_bind, R1. cbv beta iota.
  rewrite run_bind, R2. cbv beta iota.
  rewrite run_bind, R3. cbv beta iota.
  rewrite run_bind, R4. cbv beta iota.
  rewrite run_bind.
  destruct (truthyString (npBirthday data)) as [b |] eqn:Eb;
    [destruct (nativeDateParse b) as [d |] eqn:Ed |].
  - destruct (reminder_task_run now personName d st4)
      as [st5 [c5 [blk [R5 [B5 [_ [T5 [F5 G5]]]]]]]].
    rewrite run_bind, R5. cbn [run]. do 2 eexists.
    split; [reflexivity |].
    split; [congruence |].
    split; [exists [(blk, TASK_TAG_UUID)]; congruence |].
    split; [intros m Hm; apply G5; rewrite Hpages; exact Hm |].
    intros b' d' [= <-] Hd'. rewrite Ed in Hd'. injection Hd' as <-.
    rewrite B5. unfold blocksOn. rewrite Hpages. reflexivity.
  - cbn [run]. do 2 eexists. split; [reflexivity |].
    split; [exact Hprops |].
    split; [exists []; rewrite app_nil_r; exact Htags |].
    split; [intros m Hm; rewrite Hpages; exact Hm |].
    intros b' d' [= <-] Hd'. congruence.
  - cbn [run]. do 2 eexists. split; [reflexivity |].
    split; [exact Hprops |].
    split; [exists []; rewrite app_nil_r; exact Htags |].
    split; [intros m Hm; rewrite Hpages; exact Hm |].
    intros b' d' Hb'. discriminate.
Qed.

End PersonCreation.

(** Property X15: in the reference host, [createPerson] with a usable name
    that no page has yet succeeds; afterwards the page exists, it carries
    the people tag, the properties written for it are those of the fields
    that hold something (the contact frequency only when above zero), in
    the order birthday, relationship, contact frequency, email, and when
    the birthday text is a date to the engine, the birthday task stands on
    the journal page of the next birthday. *)
Theorem createPerson_creates
    (nativeDateParse : jsstring -> option Date) (now : Date)
    (data : NewPersonData) (n : jsstring) (st : RefHost.Store) :
  npName data = Some n -> trim n <> [] ->
  RefHost.findPage (trim n) (RefHost.stPages st) = None ->
  let r := run RefHost.handler (createPerson nativeDateParse now data) st in
  let st' := storeAfter r in
  snd r = Resolved {| success := true; error := None |} /\
  RefHost.findPage (trim n) (RefHost.stPages st') <> None /\
  RefHost.stProps st'
  = RefHost.stProps st
    ++ map (fun kv => (trim n, fst kv, snd kv)) (writtenFields data) /\
  (exists tasks,
      RefHost.stTags st'
      = RefHost.stTags st ++ (trim n, PEOPLE_TAG_UUID) :: tasks) /\
  (forall b d,
      truthyString (npBirthday data) = Some b ->
      nativeDateParse b = Some d ->
      In (birthdayTaskContent (trim n))
         (RefHost.blocksOn st'
            (formatDateForLogseq (getNextBirthdayDate now d)))).
Proof.
  intros Hn Htrim Hfind r st'. subst st' r. unfold createPerson.
  rewrite Hn. destruct n as [| c n]; [exfalso; apply Htrim; reflexivity |].
  cbn [truthyString].
  destruct (streq (trim (c :: n)) []) eqn:E;
    [apply streq_nil in E; contradiction |].
  clear E Hn. revert Htrim Hfind. generalize (trim (c :: n)).
  intros nm Htrim Hfind.
  cbn [bind await tryCatch run RefHost.handler option_map].
  rewrite Hfind.
  cbn [bind await tryCatch run RefHost.handler option_map].
  rewrite Hfind.
  cbn [bind await tryCatch run RefHost.handler option_map pageUuid].
  match goal with
  | |- context [run RefHost.handler (tryCatch ?body ?hd) ?st2] =>
      destruct (person_fields_run nativeDateParse now data
                  {| pageUuid := nm; pageProperties := [] |} nm st2)
        as [st3 [calls [Hrun [Hprops [[tasks Htags] [Hpages Hblocks]]]]]];
      rewrite (run_tryCatch_ok RefHost.handler body hd _ _ _ _ Hrun)
  end.
  unfold storeAfter. cbn [fst snd].
  cbn [RefHost.stPages RefHost.stTags RefHost.stProps RefHost.withPages
       pageUuid] in *.
  split; [reflexivity |].
  split.
  { apply Hpages. rewrite (findPage_new _ _ _ _ Hfind), streq_refl.
    discriminate. }
  split; [exact Hprops |].
  split; [exists tasks; rewrite Htags, <- app_assoc; reflexivity |].
  intros b d Hb Hd. rewrite (Hblocks b d Hb Hd).
  apply in_or_app. right. left. reflexivity.
Qed.

(** Alice, born on 1 June 1990, entered on 1 June 2024 in the empty
    reference host. *)
Lemma createPerson_creates_witness :
  let r := run RefHost.handler
             (createPerson (fun _ => Some (newDate 1990 5 1)) june1_2024
                {| npName := Some (lit " Alice ");
                   npBirthday := Some (lit "1990-06-01");
                   npRelationship := None; npContactFrequency := Some 14;
                   npEmail := None |})
             RefHost.emptyStore in
  snd r = Resolved {| success := true; error := None |} /\
  In (lit "[[Alice]]'s Birthday!")
     (RefHost.blocksOn (storeAfter r) (lit "2025-06-01")).
Proof.
  destruct (createPerson_creates (fun _ => Some (newDate 1990 5 1))
              june1_2024
              {| npName := Some (lit " Alice ");
                 npBirthday := Some (lit "1990-06-01");
                 npRelationship := None; npContactFrequency := Some 14;
                 npEmail := None |}
              (lit " Alice ") RefHost.emptyStore)
    as [Hok [_ [_ [_ Htask]]]].
  - reflexivity.
  - vm_compute. discriminate.
  - reflexivity.
  - split; [exact Hok |].
    apply (Htask (lit "1990-06-01") (newDate 1990 5 1)); reflexivity.
Defined.

(* ====================================================================== *)
(** * Further properties of the birthday parser *)
(* ====================================================================== *)

Section DecimalFacts.

(** A check that holds at every integer of a range holds at each of
    them. *)
Lemma range_check (f : Z -> bool) (lo n : Z) :
  forallb (fun i => f (lo + Z.of_nat i)) (seq 0 (Z.to_nat n)) = true ->
  forall z, lo <= z < lo + n -> f z = true.
Proof.
  intros H z Hz. rewrite forallb_forall in H.
  replace z with (lo + Z.of_nat (Z.to_nat (z - lo))) by lia.
  apply H, in_seq. lia.
Qed.

Lemma isNumeral_spec (len : nat) (value : Z) (s : jsstring) :
  isNumeral len value s = true ->
  allIn isDigit s /\ List.length s = len /\ parseInt s = value.
Proof.
  unfold isNumeral. intros H.
  apply andb_prop in H. destruct H as [H Hv].
  apply andb_prop in H. destruct H as [Hd Hl].
  split; [| split].
  - unfold allIn. apply Forall_forall. apply forallb_forall. exact Hd.
  - apply Nat.eqb_eq, Hl.
  - apply Z.eqb_eq, Hv.
Qed.

(** A year of four digits is written with them. *)
Lemma year_numeral (y : Z) :
  1000 <= y <= 9999 ->
  numeral 4 4 (stringOfZ y) /\ parseInt (stringOfZ y) = y.
Proof.
  intros Hy.
  assert (H : isNumeral 4 y (stringOfZ y) = true).
  { apply (range_check (fun y => isNumeral 4 y (stringOfZ y)) 1000 9000);
      [vm_compute; reflexivity | lia]. }
  apply isNumeral_spec in H. destruct H as [Hd [Hl Hv]].
  split; [split; [exact Hd | lia] | exact Hv].
Qed.

(** A month or day number padded to two digits. *)
Lemma padded_numeral (k : Z) :
  0 <= k <= 99 ->
  numeral 1 2 (padStart2 (stringOfZ k))
  /\ parseInt (padStart2 (stringOfZ k)) = k.
Proof.
  intros Hk.
  assert (H : isNumeral 2 k (padStart2 (stringOfZ k)) = true).
  { apply (range_check (fun k => isNumeral 2 k (padStart2 (stringOfZ k)))
             0 100);
      [vm_compute; reflexivity | lia]. }
  apply isNumeral_spec in H. destruct H as [Hd [Hl Hv]].
  split; [split; [exact Hd | lia] | exact Hv].
Qed.

End DecimalFacts.

(** Property X16: the text [formatDateForLogseq] gives for a date with a
    year of four digits is read back by [parseBirthdayInput] as the
    midnight of that day. *)
Theorem format_then_parse (nativeDateParse : jsstring -> option Date)
    (date : Date) :
  1000 <= getFullYear date <= 9999 ->
  parseBirthdayInput nativeDateParse (formatDateForLogseq date)
  = PDate (setHours0 date).
Proof.
  intros Hy. destruct (civil_day_bound date) as [Hm Hd].
  assert (Hd' : 0 <= getDate date <= 99).
  { unfold getDate. revert Hd. generalize (DateFromTime date).
    generalize (MonthFromTime date). intros m d Hd.
    assert (daysInMonthTable 1 m <= 31).
    { unfold daysInMonthTable. destruct m as [| p | p]; try lia.
      repeat (destruct p as [p | p |]; try lia). }
    lia. }
  destruct (year_numeral _ Hy) as [Ny Vy].
  destruct (padded_numeral (getMonth date + 1)) as [Nm Vm];
    [unfold getMonth; lia |].
  destruct (padded_numeral (getDate date) Hd') as [Nd Vd].
  unfold formatDateForLogseq. cbv zeta.
  change (lit "-") with [dash]. cbn [app].
  rewrite (parse_iso nativeDateParse _ _ _ Ny Nm Nd).
  unfold fieldsDate. rewrite Vy, Vm, Vd.
  replace (getMonth date + 1 - 1) with (getMonth date) by lia.
  rewrite newDate_plain by lia.
  unfold getFullYear, getMonth, getDate. rewrite MakeDay_civil.
  reflexivity.
Qed.

Lemma format_then_parse_witness :
  parseBirthdayInput (fun _ => None)
    (formatDateForLogseq (june1_2024 + 36000000))
  = PDate june1_2024.
Proof.
  apply (format_then_parse (fun _ => None) (june1_2024 + 36000000)).
  vm_compute. split; congruence.
Defined.

Section ClassFacts.

Lemma space_cases (c : jschar) :
  isWhiteSpace c = true ->
  In c [9; 10; 11; 12; 13; 32; 160; 5760; 8192; 8193; 8194; 8195; 8196;
        8197; 8198; 8199; 8200; 8201; 8202; 8232; 8233; 8239; 8287; 12288;
        65279]%N.
Proof.
  unfold isWhiteSpace. intros H. apply existsb_exists in H.
  destruct H as [x [Hin Heq]]. apply N.eqb_eq in Heq. subst x. exact Hin.
Qed.

(** No white space is a digit, a letter, a comma or a separator. *)
Lemma space_not_other (c : jschar) :
  isWhiteSpace c = true ->
  isDigit c = false /\ isAlpha c = false /\ isChar "," c = false
  /\ isEuroSep c = false /\ isUsSep c = false /\ isChar "-" c = false.
Proof.
  intros H. apply space_cases in H. cbn [In] in H.
  repeat (destruct H as [<- | H]; [repeat split; reflexivity |]).
  contradiction.
Qed.

Lemma alpha_range (c : jschar) :
  isAlpha c = true -> (97 <= c <= 122 \/ 65 <= c <= 90)%N.
Proof.
  unfold isAlpha. intros H. apply orb_prop in H.
  destruct H as [H | H]; apply andb_prop in H; destruct H as [H1 H2];
    apply N.leb_le in H1, H2; lia.
Qed.

Lemma alpha_not_digit (c : jschar) : isAlpha c = true -> isDigit c = false.
Proof.
  intros H. apply alpha_range in H. unfold isDigit.
  destruct (N.leb_spec 48 c), (N.leb_spec c 57); cbn [andb]; lia.
Qed.

Lemma digit_not_alpha (c : jschar) : isDigit c = true -> isAlpha c = false.
Proof.
  intros H. destruct (isAlpha c) eqn:E; [| reflexivity].
  apply alpha_not_digit in E. congruence.
Qed.

Lemma alpha_not_space (c : jschar) :
  isAlpha c = true -> isWhiteSpace c = false.
Proof.
  intros H. destruct (isWhiteSpace c) eqn:E; [| reflexivity].
  apply space_not_other in E. destruct E as [_ [E _]]. congruence.
Qed.

Lemma digit_not_sep (c : jschar) :
  isDigit c = true ->
  isEuroSep c = false /\ isUsSep c = false /\ isChar "-" c = false.
Proof.
  intros H.
  assert (He : isEuroSep c = false).
  { destruct (isEuroSep c) eqn:E; [| reflexivity].
    apply eurosep_not_digit in E. congruence. }
  split; [exact He |].
  unfold isEuroSep in He. apply orb_false_elim in He.
  destruct He as [He _]. split; [exact He |].
  apply orb_false_elim in He. apply He.
Qed.

(** A non-empty run of one class stops a run of a class disjoint from
    it. *)
Lemma stops_app (cls cls' : jschar -> bool) (x rest : jsstring) :
  x <> [] -> allIn cls' x ->
  (forall c, cls' c = true -> cls c = false) ->
  stops cls (x ++ rest).
Proof.
  intros Hne Hx Hdis. destruct x as [| c x]; [contradiction |].
  cbn [app stops]. inversion Hx; subst. auto.
Qed.

End ClassFacts.

Section BlockedFacts.

(** An element that must take a character fails on a character outside
    its class. *)
Lemma rx_item_fail (toEnd : bool) (it : rxitem) (items : list rxitem)
    (c : jschar) (s : jsstring) :
  rxClass it c = false -> (1 <= rxMin it)%nat ->
  rxMatchHere toEnd (it :: items) (c :: s) = None.
Proof.
  intros Hc Hmin. apply rx_item_short. unfold maxRun.
  destruct (rxMax it) as [[| k] |]; cbn [runLength List.length];
    rewrite ?Hc; lia.
Qed.

Lemma rx_item_fail_app (toEnd : bool) (it : rxitem) (items : list rxitem)
    (cls' : jschar -> bool) (x rest : jsstring) :
  x <> [] -> allIn cls' x ->
  (forall c, cls' c = true -> rxClass it c = false) ->
  (1 <= rxMin it)%nat ->
  rxMatchHere toEnd (it :: items) (x ++ rest) = None.
Proof.
  intros Hne Hx Hdis Hmin. destruct x as [| c x]; [contradiction |].
  cbn [app]. inversion Hx; subst. apply rx_item_fail; auto.
Qed.

(** No length given back lets the rest of the pattern match. *)
Lemma rx_blocked (toEnd : bool) (it : rxitem) (items : list rxitem)
    (s : jsstring) :
  (forall m, (m <= maxRun it s)%nat ->
             rxMatchHere toEnd items (skipn m s) = None) ->
  rxMatchHere toEnd (it :: items) s = None.
Proof.
  intros H. cbn [rxMatchHere].
  match goal with
  | |- ?t = None => destruct t eqn:E; [| reflexivity]
  end.
  exfalso.
  assert (Hsome : tryLengths
            (fun n =>
               match rxMatchHere toEnd items (skipn n s) with
               | Some caps =>
                   Some (if rxCapture it then firstn n s :: caps else caps)
               | None => None
               end) (rxMin it) (maxRun it s) <> None)
    by (rewrite E; discriminate).
  apply tryLengths_some in Hsome. destruct Hsome as [m [[_ Hm] Hk]].
  cbv beta in Hk. rewrite (H m Hm) in Hk. apply Hk. reflexivity.
Qed.

Lemma skipn_in_run (cls : jschar -> bool) (a rest : jsstring) (m : nat) :
  allIn cls a -> (m < List.length a)%nat ->
  exists c s', skipn m (a ++ rest) = c :: s' /\ cls c = true.
Proof.
  intros Ha. revert m. induction Ha as [| c a Hc Ha IH]; intros m Hm;
    cbn [List.length] in Hm; [lia |].
  destruct m as [| m]; cbn [skipn app].
  - exists c, (a ++ rest). auto.
  - apply IH. lia.
Qed.

Lemma maxRun_le (it : rxitem) (a rest : jsstring) :
  stops (rxClass it) rest ->
  allIn (rxClass it) a ->
  (maxRun it (a ++ rest) <= List.length a)%nat /\
  match rxMax it with
  | Some hi => (maxRun it (a ++ rest) <= hi)%nat
  | None => True
  end.
Proof.
  intros Hs Ha. unfold maxRun. split.
  - set (bound := match rxMax it with
                  | Some k => k
                  | None => List.length (a ++ rest)
                  end).
    destruct (Nat.le_gt_cases (List.length a) bound) as [Hle | Hgt].
    + rewrite runLength_stops; auto.
    + pose proof (runLength_le (rxClass it) bound (a ++ rest)). lia.
  - destruct (rxMax it); [| exact I]. apply runLength_le.
Qed.

(** A run of [a] followed by [w]: when neither a character of the run
    nor [w] can start the next element, the pattern fails. *)
Lemma rx_run_blocked (toEnd : bool) (it it2 : rxitem) (items : list rxitem)
    (a : jsstring) (w : jschar) (rest : jsstring) :
  allIn (rxClass it) a -> rxClass it w = false ->
  (forall c, rxClass it c = true -> rxClass it2 c = false) ->
  rxClass it2 w = false -> (1 <= rxMin it2)%nat ->
  rxMatchHere toEnd (it :: it2 :: items) (a ++ w :: rest) = None.
Proof.
  intros Ha Hw Hdis Hw2 Hmin. apply rx_blocked. intros m Hm.
  destruct (maxRun_le it a (w :: rest) Hw Ha) as [Hlen _].
  destruct (Nat.eq_dec m (List.length a)) as [-> | Hne].
  - rewrite skipn_app, skipn_all, Nat.sub_diag. cbn [skipn app].
    apply rx_item_fail; assumption.
  - destruct (skipn_in_run _ a (w :: rest) m Ha) as [c [s' [-> Hc]]];
      [lia |].
    apply rx_item_fail; auto.
Qed.

(** A run longer than the element may take: when no character of the run
    can start the next element, the pattern fails. *)
Lemma rx_run_too_long (toEnd : bool) (it it2 : rxitem)
    (items : list rxitem) (a rest : jsstring) (hi : nat) :
  allIn (rxClass it) a -> stops (rxClass it) rest ->
  rxMax it = Some hi -> (hi < List.length a)%nat ->
  (forall c, rxClass it c = true -> rxClass it2 c = false) ->
  (1 <= rxMin it2)%nat ->
  rxMatchHere toEnd (it :: it2 :: items) (a ++ rest) = None.
Proof.
  intros Ha Hs Hmax Hhi Hdis Hmin. apply rx_blocked. intros m Hm.
  destruct (maxRun_le it a rest Hs Ha) as [_ Hle]. rewrite Hmax in Hle.
  destruct (skipn_in_run _ a rest m Ha) as [c [s' [-> Hc]]]; [lia |].
  apply rx_item_fail; auto.
Qed.

End BlockedFacts.

Section MonthNameFacts.
Variable nativeDateParse : jsstring -> option Date.

Lemma trim_ends (c l : jschar) (mid : jsstring) :
  isWhiteSpace c = false -> isWhiteSpace l = false ->
  trim (c :: mid ++ [l]) = c :: mid ++ [l].
Proof.
  intros Hc Hl. unfold trim. rewrite trimStart_id by exact Hc.
  change (c :: mid ++ [l]) with ((c :: mid) ++ [l]).
  apply trimEnd_id, Hl.
Qed.

(** A text that starts with a letter or digit and ends with a digit is
    parsed as it stands. *)
Lemma parse_as_is (first last : jsstring) (mid : jsstring) :
  first <> [] -> allIn (fun c => isDigit c || isAlpha c) first ->
  last <> [] -> allIn isDigit last ->
  parseBirthdayInput nativeDateParse (first ++ mid ++ last)
  = tryIso nativeDateParse (first ++ mid ++ last).
Proof.
  intros Hf Hfa Hl Hla.
  destruct first as [| c first]; [contradiction |].
  destruct (exists_last Hl) as [last' [l ->]].
  assert (Hc : isWhiteSpace c = false).
  { inversion Hfa as [| ? ? Hc _]; subst.
    apply orb_prop in Hc. destruct Hc as [Hc | Hc];
      [apply digit_not_space | apply alpha_not_space]; exact Hc. }
  assert (Hld : isWhiteSpace l = false).
  { apply digit_not_space. unfold allIn in Hla.
    rewrite Forall_forall in Hla. apply Hla, in_or_app. right. left.
    reflexivity. }
  replace ((c :: first) ++ mid ++ last' ++ [l])
    with (c :: (first ++ mid ++ last') ++ [l])
    by (cbn [app]; rewrite <- !app_assoc; reflexivity).
  apply parse_trimmed, trim_ends; assumption.
Qed.

Lemma allIn_weaken (cls cls' : jschar -> bool) (s : jsstring) :
  (forall c, cls c = true -> cls' c = true) -> allIn cls s -> allIn cls' s.
Proof. intros H. apply Forall_impl. exact H. Qed.

(** The key of a month in the table is found with its index. *)
Lemma monthsLookup_table (name : string) (m : Z) (month : jsstring) :
  In (name, m) months -> toLowerCase month = lit name ->
  monthsLookup (toLowerCase month) = MonthIndex m /\ month <> [].
Proof.
  intros Hin Hlow. rewrite Hlow. unfold months in Hin. cbn [In] in Hin.
  repeat (destruct Hin as [[= <- <-] | Hin];
          [split; [vm_compute; reflexivity |
                   intros ->; discriminate Hlow] |]).
  contradiction.
Qed.

End MonthNameFacts.

Section MonthNameMatches.

Lemma nonempty_length (s : jsstring) : s <> [] -> (1 <= List.length s)%nat.
Proof. destruct s; [contradiction | cbn [List.length]; lia]. Qed.

Lemma space_not_digit (c : jschar) :
  isWhiteSpace c = true -> isDigit c = false.
Proof. intros H. apply space_not_other, H. Qed.

Lemma space_not_alpha (c : jschar) :
  isWhiteSpace c = true -> isAlpha c = false.
Proof. intros H. apply space_not_other, H. Qed.

Lemma space_not_comma (c : jschar) :
  isWhiteSpace c = true -> isChar "," c = false.
Proof. intros H. apply space_not_other, H. Qed.

Lemma last_digits (toEnd : bool) (lo hi : nat) (a : jsstring) :
  numeral lo hi a ->
  rxMatchHere toEnd [digits lo hi] a = Some [a].
Proof.
  intros [Ha Hl]. rewrite <- (app_nil_r a) at 1.
  apply (rx_item_ok toEnd (digits lo hi) [] a [] []);
    cbn [digits group rxClass rxMin rxMax stops]; auto; try lia.
  destruct toEnd; reflexivity.
Qed.

Lemma dayMonthYear_match (day ws1 month ws2 year : jsstring) :
  numeral 1 2 day -> spaces ws1 -> word month -> spaces ws2 ->
  numeral 4 4 year ->
  rxMatchWhole dayMonthYearRe (day ++ ws1 ++ month ++ ws2 ++ year)
  = Some [day; month; year].
Proof.
  intros [Hd Ld] [Hw1 N1] [Hm Nm] [Hw2 N2] Hy.
  unfold rxMatchWhole, dayMonthYearRe.
  apply (rx_item_ok true (digits 1 2) _ day _ [month; year]);
    cbn [digits group rxClass rxMin rxMax]; auto; try lia.
  { apply (stops_app _ isWhiteSpace); auto using space_not_digit. }
  apply (rx_item_ok true (plus isWhiteSpace) _ ws1 _ [month; year]);
    cbn [plus rxClass rxMin rxMax]; auto using nonempty_length.
  { apply (stops_app _ isAlpha); auto using alpha_not_space. }
  apply (rx_item_ok true (group isAlpha 1 None) _ month _ [year]);
    cbn [group rxClass rxMin rxMax]; auto using nonempty_length.
  { apply (stops_app _ isWhiteSpace); auto using space_not_alpha. }
  apply (rx_item_ok true (plus isWhiteSpace) _ ws2 _ [year]);
    cbn [plus rxClass rxMin rxMax]; auto using nonempty_length.
  { rewrite <- (app_nil_r year).
    apply (stops_app _ isDigit); auto using digit_not_space.
    - eapply numeral_nonempty, Hy.
    - apply Hy. }
  apply last_digits, Hy.
Qed.

Lemma yearMonthDay_match (day ws1 month ws2 year : jsstring) :
  numeral 1 2 day -> spaces ws1 -> word month -> spaces ws2 ->
  numeral 4 4 year ->
  rxMatchWhole yearMonthDayRe (year ++ ws1 ++ month ++ ws2 ++ day)
  = Some [year; month; day].
Proof.
  intros Hd [Hw1 N1] [Hm Nm] [Hw2 N2] [Hy Ly].
  unfold rxMatchWhole, yearMonthDayRe.
  apply (rx_item_ok true (digits 4 4) _ year _ [month; day]);
    cbn [digits group rxClass rxMin rxMax]; auto; try lia.
  { apply (stops_app _ isWhiteSpace); auto using space_not_digit. }
  apply (rx_item_ok true (plus isWhiteSpace) _ ws1 _ [month; day]);
    cbn [plus rxClass rxMin rxMax]; auto using nonempty_length.
  { apply (stops_app _ isAlpha); auto using alpha_not_space. }
  apply (rx_item_ok true (group isAlpha 1 None) _ month _ [day]);
    cbn [group rxClass rxMin rxMax]; auto using nonempty_length.
  { apply (stops_app _ isWhiteSpace); auto using space_not_alpha. }
  apply (rx_item_ok true (plus isWhiteSpace) _ ws2 _ [day]);
    cbn [plus rxClass rxMin rxMax]; auto using nonempty_length.
  { rewrite <- (app_nil_r day).
    apply (stops_app _ isDigit); auto using digit_not_space.
    - eapply numeral_nonempty, Hd.
    - apply Hd. }
  apply last_digits, Hd.
Qed.

(** [comma] is [","] or empty. *)
Lemma monthDayYear_match (day ws1 month ws2 year comma : jsstring) :
  numeral 1 2 day -> spaces ws1 -> word month -> spaces ws2 ->
  numeral 4 4 year -> comma = [] \/ comma = lit "," ->
  rxMatchWhole monthDayYearRe
    (month ++ ws1 ++ day ++ comma ++ ws2 ++ year)
  = Some [month; day; year].
Proof.
  intros [Hd Ld] [Hw1 N1] [Hm Nm] [Hw2 N2] Hy Hc.
  assert (Nd : day <> []) by (intros ->; cbn [List.length] in Ld; lia).
  unfold rxMatchWhole, monthDayYearRe.
  apply (rx_item_ok true (group isAlpha 1 None) _ month _ [day; year]);
    cbn [group rxClass rxMin rxMax]; auto using nonempty_length.
  { apply (stops_app _ isWhiteSpace); auto using space_not_alpha. }
  apply (rx_item_ok true (plus isWhiteSpace) _ ws1 _ [day; year]);
    cbn [plus rxClass rxMin rxMax]; auto using nonempty_length.
  { apply (stops_app _ isDigit); auto using digit_not_space. }
  apply (rx_item_ok true (digits 1 2) _ day _ [year]);
    cbn [digits group rxClass rxMin rxMax]; auto; try lia.
  { destruct Hc as [-> | ->]; [cbn [app] | reflexivity].
    apply (stops_app _ isWhiteSpace); auto using space_not_digit. }
  apply (rx_item_ok true (optional (isChar ",")) _ comma _ [year]);
    cbn [optional rxClass rxMin rxMax].
  { destruct Hc as [-> | ->]; repeat constructor. }
  { lia. }
  { destruct Hc as [-> | ->]; cbn [List.length lit]; cbn; lia. }
  { apply (stops_app _ isWhiteSpace); auto using space_not_comma. }
  apply (rx_item_ok true (plus isWhiteSpace) _ ws2 _ [year]);
    cbn [plus rxClass rxMin rxMax]; auto using nonempty_length.
  { rewrite <- (app_nil_r year).
    apply (stops_app _ isDigit); auto using digit_not_space.
    - eapply numeral_nonempty, Hy.
    - apply Hy. }
  apply last_digits, Hy.
Qed.

End MonthNameMatches.

Section MonthNameRejects.

(** Digits followed by white space match none of the numeric patterns. *)
Lemma numeric_reject_spaced (a ws rest : jsstring) :
  allIn isDigit a -> spaces ws ->
  rxMatchWhole isoRe (a ++ ws ++ rest) = None /\
  rxMatchWhole euroRe (a ++ ws ++ rest) = None /\
  rxMatchWhole usRe (a ++ ws ++ rest) = None.
Proof.
  intros Ha [Hws Hne]. destruct ws as [| w ws]; [contradiction |].
  assert (Hw : isWhiteSpace w = true) by (inversion Hws; assumption).
  destruct (space_not_other w Hw) as [Wd [_ [_ [We [Wu Wm]]]]].
  cbn [app]. unfold rxMatchWhole, isoRe, euroRe, usRe.
  repeat split; apply rx_run_blocked; auto;
    try (intros c Hc; apply digit_not_sep, Hc).
Qed.

(** A text that starts with a letter matches no pattern that starts with
    digits. *)
Lemma digit_patterns_reject_word (month rest : jsstring) :
  word month ->
  rxMatchWhole isoRe (month ++ rest) = None /\
  rxMatchWhole euroRe (month ++ rest) = None /\
  rxMatchWhole usRe (month ++ rest) = None /\
  rxMatchWhole dayMonthYearRe (month ++ rest) = None.
Proof.
  intros [Hm Hne]. unfold rxMatchWhole, isoRe, euroRe, usRe, dayMonthYearRe.
  repeat split;
    apply (rx_item_fail_app true _ _ isAlpha); auto using alpha_not_digit;
    cbn; lia.
Qed.

(** A year in front matches neither [day month year] nor
    [month day year]. *)
Lemma year_first_rejects (year rest : jsstring) :
  numeral 4 4 year -> stops isDigit rest ->
  rxMatchWhole dayMonthYearRe (year ++ rest) = None /\
  rxMatchWhole monthDayYearRe (year ++ rest) = None.
Proof.
  intros [Hy Ly] Hs. unfold rxMatchWhole, dayMonthYearRe, monthDayYearRe.
  split.
  - apply (rx_run_too_long true (digits 1 2) (plus isWhiteSpace) _ _ _ 2);
      auto using digit_not_space; cbn; lia.
  - apply (rx_item_fail_app true _ _ isDigit); auto using digit_not_alpha;
      try (intros ->; cbn [List.length] in Ly; lia); cbn; lia.
Qed.

End MonthNameRejects.

Section MonthNameForms.
Variable nativeDateParse : jsstring -> option Date.

(** The four month-name spellings reach the branch that reads them, and
    give what the month table gives for the name. *)
Lemma month_name_forms (day month year ws1 ws2 : jsstring)
    (date : ParsedDate) :
  numeral 1 2 day -> numeral 4 4 year -> word month ->
  monthNameDate year month day = Some date ->
  spaces ws1 -> spaces ws2 ->
  parseBirthdayInput nativeDateParse (day ++ ws1 ++ month ++ ws2 ++ year)
  = date /\
  parseBirthdayInput nativeDateParse (month ++ ws1 ++ day ++ ws2 ++ year)
  = date /\
  parseBirthdayInput nativeDateParse
    (month ++ ws1 ++ day ++ lit "," ++ ws2 ++ year)
  = date /\
  parseBirthdayInput nativeDateParse (year ++ ws1 ++ month ++ ws2 ++ day)
  = date.
Proof.
  intros Hd Hy Hm Hname Hs1 Hs2.
  assert (Hdne : day <> []) by (eapply numeral_nonempty, Hd).
  assert (Hyne : year <> []) by (eapply numeral_nonempty, Hy).
  assert (Hmne : month <> []) by apply Hm.
  assert (Hda : allIn (fun c => isDigit c || isAlpha c) day).
  { eapply allIn_weaken; [| apply Hd]. intros c ->. reflexivity. }
  assert (Hya : allIn (fun c => isDigit c || isAlpha c) year).
  { eapply allIn_weaken; [| apply Hy]. intros c ->. reflexivity. }
  assert (Hmo : allIn (fun c => isDigit c || isAlpha c) month).
  { eapply allIn_weaken; [| apply Hm]. intros c ->. apply orb_true_r. }
  assert (Hasis : forall first mid last,
            first <> [] -> allIn (fun c => isDigit c || isAlpha c) first ->
            last <> [] -> allIn isDigit last ->
            parseBirthdayInput nativeDateParse (first ++ mid ++ last)
            = tryIso nativeDateParse (first ++ mid ++ last))
    by (intros; apply parse_as_is; assumption).
  split; [| split; [| split]].
  - destruct (numeric_reject_spaced day ws1 (month ++ ws2 ++ year))
      as [E1 [E2 E3]]; [apply Hd | exact Hs1 |].
    replace (day ++ ws1 ++ month ++ ws2 ++ year)
      with (day ++ (ws1 ++ month ++ ws2) ++ year)
      by (rewrite <- !app_assoc; reflexivity).
    rewrite Hasis by (assumption || apply Hy).
    replace (day ++ (ws1 ++ month ++ ws2) ++ year)
      with (day ++ ws1 ++ month ++ ws2 ++ year)
      by (rewrite <- !app_assoc; reflexivity).
    unfold tryIso. rewrite E1. unfold tryEuro. rewrite E2.
    unfold tryUs. rewrite E3. unfold tryDayMonthYear.
    rewrite dayMonthYear_match by assumption. rewrite Hname. reflexivity.
  - destruct (digit_patterns_reject_word month (ws1 ++ day ++ ws2 ++ year))
      as [E1 [E2 [E3 E4]]]; [exact Hm |].
    replace (month ++ ws1 ++ day ++ ws2 ++ year)
      with (month ++ (ws1 ++ day ++ ws2) ++ year)
      by (rewrite <- !app_assoc; reflexivity).
    rewrite Hasis by (assumption || apply Hy).
    replace (month ++ (ws1 ++ day ++ ws2) ++ year)
      with (month ++ ws1 ++ day ++ ws2 ++ year)
      by (rewrite <- !app_assoc; reflexivity).
    unfold tryIso. rewrite E1. unfold tryEuro. rewrite E2.
    unfold tryUs. rewrite E3. unfold tryDayMonthYear. rewrite E4.
    unfold tryMonthDayYear.
    pose proof (monthDayYear_match day ws1 month ws2 year []
                  Hd Hs1 Hm Hs2 Hy (or_introl eq_refl)) as Em.
    cbn [app] in Em. rewrite Em, Hname. reflexivity.
  - destruct (digit_patterns_reject_word month
                (ws1 ++ day ++ lit "," ++ ws2 ++ year))
      as [E1 [E2 [E3 E4]]]; [exact Hm |].
    replace (month ++ ws1 ++ day ++ lit "," ++ ws2 ++ year)
      with (month ++ (ws1 ++ day ++ lit "," ++ ws2) ++ year)
      by (rewrite <- !app_assoc; reflexivity).
    rewrite Hasis by (assumption || apply Hy).
    replace (month ++ (ws1 ++ day ++ lit "," ++ ws2) ++ year)
      with (month ++ ws1 ++ day ++ lit "," ++ ws2 ++ year)
      by (rewrite <- !app_assoc; reflexivity).
    unfold tryIso. rewrite E1. unfold tryEuro. rewrite E2.
    unfold tryUs. rewrite E3. unfold tryDayMonthYear. rewrite E4.
    unfold tryMonthDayYear.
    rewrite (monthDayYear_match day ws1 month ws2 year (lit ","))
      by (assumption || (right; reflexivity)).
    rewrite Hname. reflexivity.
  - destruct (numeric_reject_spaced year ws1 (month ++ ws2 ++ day))
      as [E1 [E2 E3]]; [apply Hy | exact Hs1 |].
    destruct (year_first_rejects year (ws1 ++ month ++ ws2 ++ day))
      as [E4 E5]; [exact Hy | |].
    { destruct Hs1 as [Hw1 N1].
      apply (stops_app _ isWhiteSpace); auto using space_not_digit. }
    replace (year ++ ws1 ++ month ++ ws2 ++ day)
      with (year ++ (ws1 ++ month ++ ws2) ++ day)
      by (rewrite <- !app_assoc; reflexivity).
    rewrite Hasis by (assumption || apply Hd).
    replace (year ++ (ws1 ++ month ++ ws2) ++ day)
      with (year ++ ws1 ++ month ++ ws2 ++ day)
      by (rewrite <- !app_assoc; reflexivity).
    unfold tryIso. rewrite E1. unfold tryEuro. rewrite E2.
    unfold tryUs. rewrite E3. unfold tryDayMonthYear. rewrite E4.
    unfold tryMonthDayYear. rewrite E5. unfold tryYearMonthDay.
    rewrite yearMonthDay_match by assumption. rewrite Hname. reflexivity.
Qed.

End MonthNameForms.

(** Property X17: a date written with a month name from the table, in any
    letter case, with a day of one or two digits and a year of four, is
    read in each of the spellings [15 Apr 1988], [Apr 15 1988],
    [Apr 15, 1988] and [1988 Apr 15], with any white space between the
    parts, as [new Date(year, index of the month, day)]. *)
Theorem month_name_dates (nativeDateParse : jsstring -> option Date)
    (day month year ws1 ws2 : jsstring) (name : string) (m : Z) :
  numeral 1 2 day -> numeral 4 4 year ->
  allIn isAlpha month ->
  In (name, m) months -> toLowerCase month = lit name ->
  spaces ws1 -> spaces ws2 ->
  let date := PDate (newDate (parseInt year) m (parseInt day)) in
  parseBirthdayInput nativeDateParse (day ++ ws1 ++ month ++ ws2 ++ year)
  = date /\
  parseBirthdayInput nativeDateParse (month ++ ws1 ++ day ++ ws2 ++ year)
  = date /\
  parseBirthdayInput nativeDateParse
    (month ++ ws1 ++ day ++ lit "," ++ ws2 ++ year)
  = date /\
  parseBirthdayInput nativeDateParse (year ++ ws1 ++ month ++ ws2 ++ day)
  = date.
Proof.
  intros Hd Hy Hma Hin Hlow Hs1 Hs2 date.
  destruct (monthsLookup_table name m month Hin Hlow) as [Hlook Hmne].
  apply month_name_forms; try assumption; [split; assumption |].
  unfold monthNameDate. rewrite Hlook. reflexivity.
Qed.

Lemma month_name_dates_witness :
  parseBirthdayInput (fun _ => None) (lit "15 Apr 1988")
  = PDate (newDate 1988 3 15) /\
  parseBirthdayInput (fun _ => None) (lit "APR 15 1988")
  = PDate (newDate 1988 3 15) /\
  parseBirthdayInput (fun _ => None) (lit "april 15, 1988")
  = PDate (newDate 1988 3 15) /\
  parseBirthdayInput (fun _ => None) (lit "1988 April 15")
  = PDate (newDate 1988 3 15).
Proof.
  assert (Hd : numeral 1 2 (lit "15"))
    by (split; [repeat constructor | cbn; lia]).
  assert (Hy : numeral 4 4 (lit "1988"))
    by (split; [repeat constructor | cbn; lia]).
  assert (Hs : spaces (lit " "))
    by (split; [repeat constructor | discriminate]).
  assert (H3 : In ("apr"%string, 3) months)
    by (unfold months; cbn [In]; tauto).
  assert (H4 : In ("april"%string, 3) months)
    by (unfold months; cbn [In]; tauto).
  split; [| split; [| split]].
  - apply (month_name_dates (fun _ => None) (lit "15") (lit "Apr")
             (lit "1988") (lit " ") (lit " ") "apr" 3);
      try assumption; [repeat constructor | reflexivity].
  - apply (month_name_dates (fun _ => None) (lit "15") (lit "APR")
             (lit "1988") (lit " ") (lit " ") "apr" 3);
      try assumption; [repeat constructor | reflexivity].
  - apply (month_name_dates (fun _ => None) (lit "15") (lit "april")
             (lit "1988") (lit " ") (lit " ") "april" 3);
      try assumption; [repeat constructor | reflexivity].
  - apply (month_name_dates (fun _ => None) (lit "15") (lit "April")
             (lit "1988") (lit " ") (lit " ") "april" 3);
      try assumption; [repeat constructor | reflexivity].
Defined.

(** Property X18: the month table is an object literal, so the name
    [constructor], in any letter case, is found in it although it is no
    month; the date built from it has no time value.  Such a text gives
    an invalid date, not [null], and the engine's own parser is not
    asked. *)
Theorem inherited_month_name_invalid
    (nativeDateParse : jsstring -> option Date)
    (day month year ws1 ws2 : jsstring) :
  numeral 1 2 day -> numeral 4 4 year ->
  allIn isAlpha month -> toLowerCase month = lit "constructor" ->
  spaces ws1 -> spaces ws2 ->
  parseBirthdayInput nativeDateParse (day ++ ws1 ++ month ++ ws2 ++ year)
  = PInvalidDate /\
  parseBirthdayInput nativeDateParse (month ++ ws1 ++ day ++ ws2 ++ year)
  = PInvalidDate /\
  parseBirthdayInput nativeDateParse
    (month ++ ws1 ++ day ++ lit "," ++ ws2 ++ year)
  = PInvalidDate /\
  parseBirthdayInput nativeDateParse (year ++ ws1 ++ month ++ ws2 ++ day)
  = PInvalidDate.
Proof.
  intros Hd Hy Hma Hlow Hs1 Hs2.
  apply month_name_forms; try assumption.
  - split; [exact Hma | intros ->; discriminate Hlow].
  - unfold monthNameDate. rewrite Hlow. reflexivity.
Qed.

Lemma inherited_month_name_invalid_witness :
  parseBirthdayInput (fun s => Some 0) (lit "15 Constructor 1988")
  = PInvalidDate.
Proof.
  apply (inherited_month_name_invalid (fun s => Some 0) (lit "15")
           (lit "Constructor") (lit "1988") (lit " ") (lit " "));
    try (split; [repeat constructor | try discriminate; cbn; lia]);
    [repeat constructor | reflexivity].
Defined.

Section NoDigits.

(** A pattern with an element that must take a digit matches only a text
    with a digit. *)
Lemma rx_needs_digit (toEnd : bool) (items : list rxitem) :
  Exists (fun it => (forall c, rxClass it c = true -> isDigit c = true)
                    /\ (1 <= rxMin it)%nat) items ->
  forall s, rxMatchHere toEnd items s <> None ->
            Exists (fun c => isDigit c = true) s.
Proof.
  induction items as [| it items IH]; intros Hex s Hm;
    [inversion Hex |].
  destruct (rxMatchHere toEnd (it :: items) s) as [caps |] eqn:E;
    [| congruence].
  apply rx_item_inv in E.
  destruct E as [m [caps' [[Hlo Hhi] [E _]]]].
  inversion Hex as [? ? [Hcls Hmin] | ? ? Hrest]; subst.
  - assert (Hall : allIn (rxClass it) (firstn m s)).
    { eapply runLength_firstn. exact Hhi. }
    destruct s as [| c s].
    + unfold maxRun in Hhi.
      match type of Hhi with
      | (_ <= runLength ?c ?b ?l)%nat =>
          pose proof (runLength_le c b l) as [_ Hle]
      end.
      cbn [List.length] in Hle, Hhi. exfalso. lia.
    + destruct m as [| m]; [lia |]. cbn [firstn] in Hall.
      inversion Hall; subst. constructor. apply Hcls. assumption.
  - rewrite <- (firstn_skipn m s). apply Exists_app. right.
    apply IH; [exact Hrest | rewrite E; discriminate].
Qed.

Lemma no_digit_no_match (items : list rxitem) (s : jsstring) :
  Exists (fun it => (forall c, rxClass it c = true -> isDigit c = true)
                    /\ (1 <= rxMin it)%nat) items ->
  Forall (fun c => isDigit c = false) s ->
  rxMatchWhole items s = None.
Proof.
  intros Hex Hs. unfold rxMatchWhole.
  destruct (rxMatchHere true items s) eqn:E; [| reflexivity].
  exfalso.
  assert (Hd : Exists (fun c => isDigit c = true) s)
    by (eapply rx_needs_digit; [exact Hex | rewrite E; discriminate]).
  apply Exists_exists in Hd. destruct Hd as [c [Hin Hc]].
  rewrite Forall_forall in Hs. rewrite (Hs c Hin) in Hc. discriminate.
Qed.

Lemma trimStart_Forall (P : jschar -> Prop) (s : jsstring) :
  Forall P s -> Forall P (trimStart s).
Proof.
  induction 1 as [| c s Hc Hs IH]; cbn [trimStart]; [constructor |].
  destruct (isWhiteSpace c); [exact IH | constructor; assumption].
Qed.

Lemma trim_Forall (P : jschar -> Prop) (s : jsstring) :
  Forall P s -> Forall P (trim s).
Proof.
  intros H. unfold trim, trimEnd.
  apply Forall_rev, trimStart_Forall, Forall_rev, trimStart_Forall, H.
Qed.

End NoDigits.

(** Property X19: a text without a digit matches none of the six patterns
    of [parseBirthdayInput]: once trimmed it is left to the engine's own
    date parsing, and the result is [null] when the text is blank or the
    engine rejects it. *)
Theorem text_without_digits_left_to_engine
    (nativeDateParse : jsstring -> option Date) (input : jsstring) :
  Forall (fun c => isDigit c = false) input ->
  parseBirthdayInput nativeDateParse input
  = match trim input with
    | [] => PNull
    | trimmed =>
        match nativeDateParse trimmed with
        | Some date => PDate date
        | None => PNull
        end
    end.
Proof.
  intros Hin. apply (trim_Forall _ _) in Hin as Ht.
  unfold parseBirthdayInput.
  destruct input as [| c0 input]; [reflexivity |].
  revert Ht. generalize (trim (c0 :: input)). intros t Ht.
  destruct t as [| c t]; [reflexivity |]. cbn [streq].
  assert (Hdig : forall lo hi, (1 <= lo)%nat ->
            (forall c, rxClass (digits lo hi) c = true -> isDigit c = true)
            /\ (1 <= rxMin (digits lo hi))%nat).
  { intros lo hi Hlo. split; [intros x Hx; exact Hx | exact Hlo]. }
  unfold tryIso.
  rewrite (no_digit_no_match isoRe) by
    (try exact Ht; apply Exists_cons_hd, Hdig; lia).
  unfold tryEuro.
  rewrite (no_digit_no_match euroRe) by
    (try exact Ht; apply Exists_cons_hd, Hdig; lia).
  unfold tryUs.
  rewrite (no_digit_no_match usRe) by
    (try exact Ht; apply Exists_cons_hd, Hdig; lia).
  unfold tryDayMonthYear.
  rewrite (no_digit_no_match dayMonthYearRe) by
    (try exact Ht; apply Exists_cons_hd, Hdig; lia).
  unfold tryMonthDayYear.
  rewrite (no_digit_no_match monthDayYearRe) by
    (try exact Ht;
     apply Exists_cons_tl, Exists_cons_tl, Exists_cons_hd, Hdig; lia).
  unfold tryYearMonthDay.
  rewrite (no_digit_no_match yearMonthDayRe) by
    (try exact Ht; apply Exists_cons_hd, Hdig; lia).
  reflexivity.
Qed.

(** Words only, for an engine that rejects them. *)
Lemma text_without_digits_left_to_engine_witness :
  parseBirthdayInput (fun _ => None) (lit " next June ") = PNull.
Proof.
  apply (text_without_digits_left_to_engine (fun _ => None)
           (lit " next June ")).
  repeat constructor.
Defined.

(* ====================================================================== *)
(** * Further properties of the property helpers *)
(* ====================================================================== *)

Section DecimalSnoc.

Lemma lit_app (a b : string) : lit (a ++ b)%string = lit a ++ lit b.
Proof.
  unfold lit. induction a as [| c a IH]; cbn [String.append list_ascii_of_string map app];
    [reflexivity |]. rewrite IH. reflexivity.
Qed.

Lemma string_append_assoc (a b c : string) :
  ((a ++ b) ++ c = a ++ (b ++ c))%string.
Proof.
  induction a as [| x a IH]; cbn [String.append]; [reflexivity |].
  rewrite IH. reflexivity.
Qed.

Lemma string_of_revapp (x y : Decimal.uint) :
  NilEmpty.string_of_uint (Decimal.revapp x y)
  = (NilEmpty.string_of_uint (Decimal.rev x)
     ++ NilEmpty.string_of_uint y)%string.
Proof.
  revert y. unfold Decimal.rev.
  induction x as [| x IH | x IH | x IH | x IH | x IH | x IH | x IH | x IH
                  | x IH | x IH]; intros y; cbn [Decimal.revapp];
    [reflexivity | ..];
    rewrite IH; symmetry; rewrite IH;
    rewrite string_append_assoc; reflexivity.
Qed.

(** The little-endian digits of [10 * p + r]. *)
Lemma to_little_uint_snoc (p : positive) (r : N) :
  (r <= 9)%N ->
  DecimalPos.Unsigned.to_lu (10 * N.pos p + r)
  = N.iter r Decimal.Little.succ
      (Decimal.D0 (Pos.to_little_uint p)).
Proof.
  intros Hr. induction r as [| r IH] using N.peano_ind.
  - rewrite N.add_0_r. apply (DecimalPos.Unsigned.to_ldec_tenfold p).
  - rewrite N.add_succ_r, DecimalPos.Unsigned.to_lu_succ, IH by lia.
    rewrite N.iter_succ. reflexivity.
Qed.

Lemma stringOfZ_snoc (n r : Z) :
  0 < n -> 0 <= r <= 9 ->
  stringOfZ (10 * n + r) = stringOfZ n ++ [Z.to_N (48 + r)].
Proof.
  intros Hn Hr. destruct n as [| p | p]; try lia.
  assert (Hq : 10 * Z.pos p + r = Z.of_N (10 * N.pos p + Z.to_N r)) by lia.
  rewrite Hq.
  pose proof (to_little_uint_snoc p (Z.to_N r)) as Hlu.
  destruct (10 * N.pos p + Z.to_N r)%N as [| q] eqn:Eq; [lia |].
  cbn [Z.of_N DecimalPos.Unsigned.to_lu] in *.
  unfold stringOfZ. cbn [Z.to_int NilZero.string_of_int].
  assert (Hnn : forall x, Pos.to_uint x <> Decimal.Nil)
    by apply DecimalPos.Unsigned.to_uint_nonnil.
  assert (Hz : forall d, d <> Decimal.Nil ->
                 NilZero.string_of_uint d = NilEmpty.string_of_uint d)
    by (intros [] H; congruence || reflexivity).
  rewrite !Hz by apply Hnn.
  unfold Pos.to_uint. rewrite Hlu by lia.
  assert (Hc : r = 0 \/ r = 1 \/ r = 2 \/ r = 3 \/ r = 4 \/ r = 5 \/ r = 6
               \/ r = 7 \/ r = 8 \/ r = 9) by lia.
  unfold Decimal.rev at 1.
  repeat (destruct Hc as [-> | Hc]);
    try subst r; cbn [Z.to_N N.iter Pos.iter Decimal.Little.succ Decimal.revapp];
    rewrite string_of_revapp, lit_app; reflexivity.
Qed.

End DecimalSnoc.

Section JournalDayFacts.

Lemma takeWhile_all (cls : jschar -> bool) (s : jsstring) :
  allIn cls s -> takeWhile cls s = s.
Proof.
  intros H. unfold takeWhile.
  pose proof (runLength_stops cls (List.length s) s [] H (le_n _) I) as E.
  rewrite app_nil_r in E. rewrite E. apply firstn_all.
Qed.

(** On a run of digits [parseInt] reads the number they write. *)
Lemma jsParseInt_digits (s : jsstring) :
  allIn isDigit s -> s <> [] -> jsParseInt s = Some (parseInt s).
Proof.
  intros Hs Hne. destruct s as [| c s]; [contradiction |].
  assert (Hc : isDigit c = true) by (inversion Hs; assumption).
  unfold jsParseInt.
  rewrite trimStart_id by (apply digit_not_space, Hc).
  assert (Hm : isChar "-" c = false) by (apply digit_not_sep, Hc).
  assert (Hp : isChar "+" c = false).
  { unfold isDigit in Hc. apply andb_prop in Hc. destruct Hc as [H1 _].
    apply N.leb_le in H1. unfold isChar. apply N.eqb_neq.
    intros ->. vm_compute in H1. apply H1. reflexivity. }
  rewrite Hm, Hp. cbv beta iota zeta.
  assert (Hdone : match takeWhile isDigit (c :: s) with
                  | [] => None
                  | j :: l => Some (1 * parseInt (j :: l))
                  end = Some (parseInt (c :: s))).
  { rewrite takeWhile_all by exact Hs. f_equal. lia. }
  clear Hne.
  destruct s as [| x r]; [exact Hdone |].
  assert (Hxd : isDigit x = true).
  { inversion Hs as [| ? ? _ Hs']; subst.
    inversion Hs'; assumption. }
  assert (isChar "x" x = false /\ isChar "X" x = false) as [-> ->].
  { unfold isDigit in Hxd. apply andb_prop in Hxd. destruct Hxd as [_ H2].
    apply N.leb_le in H2. unfold isChar.
    split; apply N.eqb_neq; intros ->; vm_compute in H2; apply H2;
      reflexivity. }
  rewrite andb_false_r. exact Hdone.
Qed.

End JournalDayFacts.

Section JournalDayDecoding.

Lemma digit_char (r : Z) :
  0 <= r <= 9 ->
  isDigit (Z.to_N (48 + r)) = true /\ Z.of_N (Z.to_N (48 + r)) - 48 = r.
Proof.
  intros Hr. split; [| lia]. unfold isDigit.
  apply andb_true_intro. split; apply N.leb_le; lia.
Qed.

(** Two digits written after a number. *)
Lemma stringOfZ_two (n k : Z) :
  0 < n -> 0 <= k <= 99 ->
  exists c1 c0,
    stringOfZ (n * 100 + k) = stringOfZ n ++ [c1; c0] /\
    allIn isDigit [c1; c0] /\ parseInt [c1; c0] = k.
Proof.
  intros Hn Hk.
  exists (Z.to_N (48 + k / 10)), (Z.to_N (48 + k mod 10)).
  assert (H1 : 0 <= k / 10 <= 9) by zlia.
  assert (H0 : 0 <= k mod 10 <= 9) by zlia.
  destruct (digit_char _ H1) as [D1 V1].
  destruct (digit_char _ H0) as [D0 V0].
  split; [| split].
  - replace (n * 100 + k) with (10 * (10 * n + k / 10) + k mod 10)
      by zlia.
    rewrite !stringOfZ_snoc by lia.
    rewrite <- app_assoc. reflexivity.
  - repeat constructor; assumption.
  - unfold parseInt. cbn [fold_left]. rewrite V1, V0. zlia.
Qed.

End JournalDayDecoding.

(** Property X20: a journal day, the number [YYYYMMDD], with a year of
    four digits is decoded by [parseJournalDay] into
    [new Date(YYYY, MM - 1, DD)]. *)
Theorem journal_day_decoded (y m d : Z) :
  1000 <= y <= 9999 -> 0 <= m <= 99 -> 0 <= d <= 99 ->
  parseJournalDay (y * 10000 + m * 100 + d) = PDate (newDate y (m - 1) d).
Proof.
  intros Hy Hm Hd.
  destruct (stringOfZ_two y m) as [m1 [m0 [Em [Dm Vm]]]]; [lia | exact Hm |].
  destruct (stringOfZ_two (y * 100 + m) d) as [d1 [d0 [Ed [Dd Vd]]]];
    [lia | exact Hd |].
  destruct (year_numeral y Hy) as [[Dy Ly] Vy].
  unfold parseJournalDay. cbv zeta.
  replace (y * 10000 + m * 100 + d) with ((y * 100 + m) * 100 + d) by lia.
  rewrite Ed, Em. revert Dy Ly Vy. generalize (stringOfZ y).
  intros ys Dy Ly Vy.
  destruct ys as [| a [| b [| c [| e [| f ys]]]]];
    cbn [List.length] in Ly; try lia.
  cbn [substring app skipn firstn Nat.sub].
  rewrite !jsParseInt_digits by (assumption || discriminate).
  rewrite Vy, Vm, Vd. reflexivity.
Qed.

Lemma journal_day_decoded_witness :
  parseJournalDay 20240115 = PDate (newDate 2024 0 15).
Proof. apply (journal_day_decoded 2024 1 15); lia. Defined.

Section PatternFacts.

Lemma isChar_refl (a : ascii) : isChar a (N_of_ascii a) = true.
Proof. unfold isChar. apply N.eqb_refl. Qed.

(** Literal characters in front of a pattern. *)
Lemma rx_literal (toEnd : bool) (l : list ascii) (items : list rxitem)
    (s : jsstring) :
  rxMatchHere toEnd (map chr l ++ items) s <> None <->
  exists s', s = map N_of_ascii l ++ s'
             /\ rxMatchHere toEnd items s' <> None.
Proof.
  revert s. induction l as [| a l IH]; intros s; cbn [map app].
  - split; [intros H; exists s; auto | intros [s' [-> H]]; exact H].
  - split.
    + intros H.
      destruct (rxMatchHere toEnd (chr a :: map chr l ++ items) s)
        as [caps |] eqn:E; [| congruence].
      apply rx_one_inv in E. destruct E as [c [rest [-> [Hc E]]]].
      apply isChar_eq in Hc. subst c.
      destruct (proj1 (IH rest)) as [s' [-> Hs']]; [congruence |].
      exists s'. auto.
    + intros [s' [-> Hs']].
      destruct (rxMatchHere toEnd (map chr l ++ items)
                  (map N_of_ascii l ++ s')) as [caps |] eqn:E.
      * unfold chr. rewrite (rx_one_ok toEnd _ _ _ _ caps);
          [discriminate | apply isChar_refl | exact E].
      * exfalso. apply (proj2 (IH (map N_of_ascii l ++ s')));
          [exists s'; auto | exact E].
Qed.

Lemma rx_end (s : jsstring) : rxMatchHere true [] s <> None <-> s = [].
Proof.
  cbn [rxMatchHere]. destruct s; split; congruence.
Qed.

(** A run that goes to the end of the text. *)
Lemma rx_plus_end (cls : jschar -> bool) (s : jsstring) :
  rxMatchHere true [plus cls] s <> None <-> s <> [] /\ allIn cls s.
Proof.
  split.
  - intros H.
    destruct (rxMatchHere true [plus cls] s) as [caps |] eqn:E;
      [| congruence].
    apply rx_item_inv in E. destruct E as [m [caps' [[Hlo Hhi] [E _]]]].
    cbn [plus rxMin] in Hlo.
    assert (Hs : skipn m s = [])
      by (apply rx_end; rewrite E; discriminate).
    assert (Hall : allIn cls (firstn m s)).
    { eapply runLength_firstn. unfold maxRun in Hhi.
      cbn [plus rxClass rxMax] in Hhi. exact Hhi. }
    pose proof (firstn_skipn m s) as Hsplit.
    rewrite Hs, app_nil_r in Hsplit. rewrite Hsplit in Hall.
    split; [| exact Hall].
    intros ->. unfold maxRun in Hhi.
    cbn [plus rxClass rxMax List.length runLength] in Hhi. lia.
  - intros [Hne Hall].
    pose proof (rx_item_ok true (plus cls) [] s [] [] Hall) as H.
    rewrite app_nil_r in H. rewrite H; [discriminate | | exact I | exact I
                                        | reflexivity].
    cbn [plus rxMin]. destruct s; [contradiction | cbn; lia].
Qed.

(** A non-empty run of [cls] up to the character [a], which is not in
    [cls]. *)
Lemma rx_plus_until (toEnd : bool) (cls : jschar -> bool) (a : ascii)
    (items : list rxitem) (s : jsstring) :
  cls (N_of_ascii a) = false ->
  rxMatchHere toEnd (plus cls :: chr a :: items) s <> None <->
  exists id rest,
    id <> [] /\ allIn cls id /\ s = id ++ N_of_ascii a :: rest
    /\ rxMatchHere toEnd items rest <> None.
Proof.
  intros Ha. split.
  - intros H.
    destruct (rxMatchHere toEnd (plus cls :: chr a :: items) s)
      as [caps |] eqn:E; [| congruence].
    apply rx_item_inv in E. destruct E as [m [caps' [[Hlo Hhi] [E _]]]].
    cbn [plus rxMin] in Hlo.
    apply rx_one_inv in E. destruct E as [c [rest [Hs [Hc E]]]].
    apply isChar_eq in Hc. subst c.
    exists (firstn m s), rest. repeat split.
    + destruct s as [| c s]; [rewrite skipn_nil in Hs; discriminate |].
      destruct m as [| m]; [lia | discriminate].
    + eapply runLength_firstn. unfold maxRun in Hhi.
      cbn [plus rxClass rxMax] in Hhi. exact Hhi.
    + transitivity (firstn m s ++ skipn m s);
        [symmetry; apply firstn_skipn | f_equal; exact Hs].
    + rewrite E. discriminate.
  - intros [id [rest [Hne [Hall [-> Hrest]]]]].
    destruct (rxMatchHere toEnd items rest) as [caps |] eqn:E;
      [| congruence].
    rewrite (rx_item_ok toEnd (plus cls) _ id _ caps);
      [discriminate | exact Hall | | exact I | exact Ha |].
    + cbn [plus rxMin]. destruct id; [contradiction | cbn; lia].
    + unfold chr. apply rx_one_ok; [apply isChar_refl | exact E].
Qed.

Lemma rxTest_true (items : list rxitem) (key : jsstring) :
  rxTest items key = true <-> rxMatchHere true items key <> None.
Proof.
  unfold rxTest, rxMatchWhole.
  destruct (rxMatchHere true items key); split; congruence.
Qed.

End PatternFacts.

Section PropertyPatterns.

Lemma chars_lit (s : string) :
  chars s = map chr (list_ascii_of_string s)
  /\ lit s = map N_of_ascii (list_ascii_of_string s).
Proof. split; reflexivity. Qed.

Lemma rx_chars (toEnd : bool) (p : string) (items : list rxitem)
    (s : jsstring) :
  rxMatchHere toEnd (chars p ++ items) s <> None <->
  exists s', s = lit p ++ s' /\ rxMatchHere toEnd items s' <> None.
Proof. apply rx_literal. Qed.

Lemma rx_chars_end (p : string) (s : jsstring) :
  rxMatchHere true (chars p) s <> None <-> s = lit p.
Proof.
  rewrite <- (app_nil_r (chars p)), rx_chars. split.
  - intros [s' [-> H]]. apply rx_end in H. subst. apply app_nil_r.
  - intros ->. exists []. split; [symmetry; apply app_nil_r |].
    apply rx_end. reflexivity.
Qed.

Lemma suffix_tail (s : jsstring) :
  rxMatchHere true [chr "-"; plus isSuffixChar] s <> None <-> suffixOf s.
Proof.
  change [chr "-"; plus isSuffixChar]
    with (chars "-" ++ [plus isSuffixChar]).
  rewrite rx_chars. unfold suffixOf. split.
  - intros [s' [-> H]]. apply rx_plus_end in H. exists s'.
    split; [reflexivity | exact H].
  - intros [suffix [-> H]]. exists suffix.
    split; [reflexivity | apply rx_plus_end, H].
Qed.

Lemma userPropPattern_keys (baseName : string) (key : jsstring) :
  userPropPattern baseName key = true <->
  exists opt,
    key = lit ":user.property/" ++ lit baseName ++ opt /\
    (opt = [] \/ suffixOf opt).
Proof.
  unfold userPropPattern, withOptionalSuffix.
  rewrite orb_true_iff, !rxTest_true, <- !app_assoc.
  rewrite !rx_chars. split.
  - intros [[s1 [-> H]] | [s1 [-> H]]].
    + apply rx_chars in H. destruct H as [s2 [-> H]]. exists s2.
      split; [reflexivity | right; apply suffix_tail, H].
    + apply rx_chars_end in H. subst s1. exists [].
      split; [rewrite app_nil_r; reflexivity | left; reflexivity].
  - intros [opt [-> [-> | H]]].
    + right. exists (lit baseName ++ []). split; [reflexivity |].
      apply rx_chars_end, app_nil_r.
    + left. exists (lit baseName ++ opt). split; [reflexivity |].
      apply rx_chars. exists opt. split; [reflexivity |].
      apply suffix_tail, H.
Qed.

Lemma suffixedPattern_keys (baseName : string) (key : jsstring) :
  suffixedPattern baseName key = true <->
  exists opt, key = lit baseName ++ opt /\ suffixOf opt.
Proof.
  unfold suffixedPattern. rewrite rxTest_true, rx_chars.
  split; intros [opt [-> H]]; exists opt; (split; [reflexivity |]);
    apply suffix_tail, H.
Qed.

Lemma pluginPropPattern_keys (baseName : string) (key : jsstring) :
  pluginPropPattern baseName key = true <->
  exists id opt,
    id <> [] /\ allIn notSlash id /\
    key = lit ":plugin.property." ++ id ++ lit "/" ++ lit baseName ++ opt /\
    (opt = [] \/ suffixOf opt).
Proof.
  unfold pluginPropPattern, withOptionalSuffix.
  rewrite orb_true_iff, !rxTest_true, <- !app_assoc.
  rewrite !rx_chars.
  change (chars "/") with [chr "/"]. cbn [app].
  assert (Hs : notSlash (N_of_ascii "/") = false) by reflexivity.
  split.
  - intros [[s1 [-> H]] | [s1 [-> H]]];
      apply (rx_plus_until true notSlash "/" _ _ Hs) in H;
      destruct H as [id [rest [Hne [Hall [-> H]]]]].
    + apply rx_chars in H. destruct H as [opt [-> H]].
      exists id, opt. repeat split; try assumption.
      right. apply suffix_tail, H.
    + apply rx_chars_end in H. subst rest.
      exists id, []. rewrite app_nil_r. repeat split; try assumption.
      left. reflexivity.
  - intros [id [opt [Hne [Hall [-> Hopt]]]]].
    destruct Hopt as [-> | H]; [right | left].
    + exists (id ++ lit "/" ++ lit baseName ++ []).
      split; [reflexivity |].
      apply (rx_plus_until true notSlash "/" _ _ Hs).
      exists id, (lit baseName ++ []). repeat split; try assumption.
      apply rx_chars_end, app_nil_r.
    + exists (id ++ lit "/" ++ lit baseName ++ opt).
      split; [reflexivity |].
      apply (rx_plus_until true notSlash "/" _ _ Hs).
      exists id, (lit baseName ++ opt). repeat split; try assumption.
      apply rx_chars. exists opt. split; [reflexivity |].
      apply suffix_tail, H.
Qed.

End PropertyPatterns.

Section FindPropertyFacts.
Context {V : Type}.


Lemma firstKey_none (test : jsstring -> bool) (obj : list (jsstring * V)) :
  firstKey test obj = None ->
  forall key v, In (key, v) obj -> test key = false.
Proof.
  unfold firstKey. destruct (find _ obj) eqn:E; [discriminate |].
  intros _ key v Hin. apply (find_none _ _ E (key, v) Hin).
Qed.

Lemma propertyKey_tests (baseName : string) (key : jsstring) :
  propertyKey baseName key <->
  streq key (lit baseName) = true \/ userPropPattern baseName key = true
  \/ pluginPropPattern baseName key = true
  \/ suffixedPattern baseName key = true.
Proof.
  unfold propertyKey.
  rewrite streq_eq, userPropPattern_keys, pluginPropPattern_keys,
    suffixedPattern_keys.
  reflexivity.
Qed.


(** A key of one of the four shapes is enough for a result. *)
Lemma findProperty_complete (obj : list (jsstring * V))
    (baseName : string) (key : jsstring) (v : V) :
  In (key, v) obj -> propertyKey baseName key ->
  findProperty obj baseName <> None.
Proof.
  intros Hin Hkey. apply propertyKey_tests in Hkey.
  unfold findProperty.
  destruct (firstKey (fun key => streq key (lit baseName)) obj)
    as [v1 |] eqn:E1; [discriminate |].
  destruct (firstKey (userPropPattern baseName) obj) as [v2 |] eqn:E2;
    [discriminate |].
  destruct (firstKey (pluginPropPattern baseName) obj) as [v3 |] eqn:E3;
    [discriminate |].
  destruct (firstKey (suffixedPattern baseName) obj) as [v4 |] eqn:E4;
    [discriminate |].
  pose proof (firstKey_none _ _ E1 key v Hin) as H1. cbv beta in H1.
  pose proof (firstKey_none _ _ E2 key v Hin) as H2.
  pose proof (firstKey_none _ _ E3 key v Hin) as H3.
  pose proof (firstKey_none _ _ E4 key v Hin) as H4.
  destruct Hkey as [H | [H | [H | H]]]; congruence.
Qed.

End FindPropertyFacts.



(** Property X22: a property that [createPerson] writes under its
    identifier is found by [findProperty] under the base name the plugin
    reads it with, whether the host returns the identifier as it is or
    in the user namespace. *)
Theorem written_properties_are_read {V : Type} (obj : list (jsstring * V))
    (baseName : string) (ident : jsstring) (v : V) :
  In (baseName, ident) personPropertyNames ->
  In (ident, v) obj \/ In (lit ":user.property/" ++ ident, v) obj ->
  findProperty obj baseName <> None.
Proof.
  intros Hname Hin.
  assert (Hkeys : propertyKey baseName ident /\
                  propertyKey baseName (lit ":user.property/" ++ ident)).
  { unfold personPropertyNames in Hname. cbn [In] in Hname.
    repeat (destruct Hname as [[= <- <-] | Hname];
            [split; apply propertyKey_tests; vm_compute; auto |]).
    contradiction. }
  destruct Hin as [Hin | Hin];
    eapply findProperty_complete; try exact Hin; apply Hkeys.
Qed.

Lemma written_properties_are_read_witness :
  findProperty [(PEOPLE_PROPERTIES.contactFrequency, 14)]
    "contact-frequency"
  <> None.
Proof.
  apply (written_properties_are_read
           [(PEOPLE_PROPERTIES.contactFrequency, 14)]
           "contact-frequency" PEOPLE_PROPERTIES.contactFrequency 14).
  - unfold personPropertyNames. cbn [In]. tauto.
  - left. left. reflexivity.
Defined.

Section ParseDateFacts.

Lemma runLength_full (cls : jschar -> bool) (a rest : jsstring) :
  allIn cls a -> runLength cls (List.length a) (a ++ rest) = List.length a.
Proof.
  induction 1 as [| c a Hc Ha IH]; cbn [List.length app runLength];
    [reflexivity |]. rewrite Hc, IH. reflexivity.
Qed.

(** An element that takes exactly [n] characters takes the [n]
    characters of its class in front. *)
Lemma rx_item_exact (toEnd : bool) (it : rxitem) (items : list rxitem)
    (a rest : jsstring) (caps : list jsstring) :
  allIn (rxClass it) a ->
  rxMin it = List.length a -> rxMax it = Some (List.length a) ->
  rxMatchHere toEnd items rest = Some caps ->
  rxMatchHere toEnd (it :: items) (a ++ rest)
  = Some (if rxCapture it then a :: caps else caps).
Proof.
  intros Ha Hmin Hmax Hrest. cbn [rxMatchHere].
  assert (Hrun : maxRun it (a ++ rest) = List.length a)
    by (unfold maxRun; rewrite Hmax; apply runLength_full, Ha).
  rewrite Hrun. apply tryLengths_first; [lia |].
  rewrite skipn_app, skipn_all, Nat.sub_diag. cbn [skipn app].
  rewrite Hrest, firstn_app, firstn_all, Nat.sub_diag.
  cbn [firstn]. rewrite app_nil_r. reflexivity.
Qed.

Lemma ymd_match (y m d post : jsstring) :
  numeral 4 4 y -> numeral 2 2 m -> numeral 2 2 d ->
  rxMatchHere false ymdRe (y ++ dash :: m ++ dash :: d ++ post)
  = Some [y; m; d].
Proof.
  intros [Hy Ly] [Hm Lm] [Hd Ld]. unfold ymdRe.
  apply (rx_item_exact false (digits 4 4) _ y _ [m; d]);
    cbn [digits group rxClass rxMin rxMax]; auto; try (f_equal; lia).
  apply rx_one_ok; [reflexivity |].
  apply (rx_item_exact false (digits 2 2) _ m _ [d]);
    cbn [digits group rxClass rxMin rxMax]; auto; try (f_equal; lia).
  apply rx_one_ok; [reflexivity |].
  apply (rx_item_exact false (digits 2 2) [] d post []);
    cbn [digits group rxClass rxMin rxMax]; auto; try (f_equal; lia).
Qed.

(** The search passes over characters that cannot start the pattern. *)
Lemma rxSearch_after (it : rxitem) (items : list rxitem)
    (pre s : jsstring) (caps : list jsstring) :
  (1 <= rxMin it)%nat ->
  Forall (fun c => rxClass it c = false) pre ->
  rxMatchHere false (it :: items) s = Some caps ->
  rxSearch (it :: items) (pre ++ s) = Some caps.
Proof.
  intros Hmin Hpre Hs. induction Hpre as [| c pre Hc _ IH].
  - apply rxSearch_here, Hs.
  - cbn [app rxSearch]. rewrite rx_item_fail by assumption. exact IH.
Qed.

Lemma padded_two (k : Z) :
  0 <= k <= 99 ->
  numeral 2 2 (padStart2 (stringOfZ k))
  /\ parseInt (padStart2 (stringOfZ k)) = k.
Proof.
  intros Hk.
  assert (H : isNumeral 2 k (padStart2 (stringOfZ k)) = true).
  { apply (range_check (fun k => isNumeral 2 k (padStart2 (stringOfZ k)))
             0 100);
      [vm_compute; reflexivity | lia]. }
  apply isNumeral_spec in H. destruct H as [Hd [Hl Hv]].
  split; [split; [exact Hd | lia] | exact Hv].
Qed.

End ParseDateFacts.

(** Property X23: a text that the engine's own parser rejects and that
    holds a date as [formatDateForLogseq] writes it, behind a prefix
    without digits, is read by [parseDate] as the midnight of that
    day. *)
Theorem parseDate_finds_written_date
    (nativeDateParse : jsstring -> option Date)
    (pre post : jsstring) (date : Date) :
  1000 <= getFullYear date <= 9999 ->
  Forall (fun c => isDigit c = false) pre ->
  nativeDateParse (pre ++ formatDateForLogseq date ++ post) = None ->
  parseDate nativeDateParse
    (VString (pre ++ formatDateForLogseq date ++ post))
  = PDate (setHours0 date).
Proof.
  intros Hy Hpre Hnative. destruct (civil_day_bound date) as [Hm Hd].
  assert (Hd' : 0 <= getDate date <= 99).
  { unfold getDate. revert Hd. generalize (DateFromTime date).
    generalize (MonthFromTime date). intros m d Hd.
    assert (daysInMonthTable 1 m <= 31).
    { unfold daysInMonthTable. destruct m as [| p | p]; try lia.
      repeat (destruct p as [p | p |]; try lia). }
    lia. }
  destruct (year_numeral _ Hy) as [Ny Vy].
  destruct (padded_two (getMonth date + 1)) as [Nm Vm];
    [unfold getMonth; lia |].
  destruct (padded_two (getDate date) Hd') as [Nd Vd].
  assert (Hs : rxSearch ymdRe (pre ++ formatDateForLogseq date ++ post)
               = Some [stringOfZ (getFullYear date);
                       padStart2 (stringOfZ (getMonth date + 1));
                       padStart2 (stringOfZ (getDate date))]).
  { unfold ymdRe. apply rxSearch_after; [cbn; lia | exact Hpre |].
    unfold formatDateForLogseq. cbv zeta. change (lit "-") with [dash].
    rewrite <- !app_assoc. cbn [app].
    apply ymd_match; assumption. }
  assert (Hne : pre ++ formatDateForLogseq date ++ post <> []).
  { intros H0. rewrite H0 in Hs. discriminate Hs. }
  revert Hnative Hs Hne.
  generalize (pre ++ formatDateForLogseq date ++ post).
  intros s Hnative Hs Hne.
  destruct s as [| c s]; [contradiction |].
  cbn [parseDate truthy negb]. rewrite Hnative, Hs, Vy, Vm, Vd.
  replace (getMonth date + 1 - 1) with (getMonth date) by lia.
  rewrite newDate_plain by lia.
  unfold getFullYear, getMonth, getDate. rewrite MakeDay_civil.
  reflexivity.
Qed.

Lemma parseDate_finds_written_date_witness :
  parseDate (fun _ => None) (VString (lit "born 2024-06-01, a Saturday"))
  = PDate june1_2024.
Proof.
  apply (parseDate_finds_written_date (fun _ => None) (lit "born ")
           (lit ", a Saturday") (june1_2024 + 36000000)).
  - vm_compute. split; congruence.
  - repeat constructor.
  - reflexivity.
Defined.

(* ====================================================================== *)
(** * What the host is asked for *)
(* ====================================================================== *)

Section CallFacts.
Context {S : Type} (h : Handler S) (allowed : AnyCall -> Prop).

Lemma callsIn_run {A : Type} (p : Prog A) (s : S) :
  callsIn allowed p -> Forall allowed (callsOf (run h p s)).
Proof.
  unfold callsOf. revert s. induction p as [a | e | X c k IH]; intros s Hp;
    cbn [run fst snd]; [constructor | constructor |].
  destruct Hp as [Hc Hk]. destruct (h X c s) as [s1 o].
  specialize (IH o s1 (Hk o)).
  destruct (run h (k o) s1) as [[s2 calls] r]. cbn [fst snd] in *.
  constructor; assumption.
Qed.

Lemma callsIn_bind {A B : Type} (p : Prog A) (f : A -> Prog B) :
  callsIn allowed p -> (forall a, callsIn allowed (f a)) ->
  callsIn allowed (bind p f).
Proof.
  intros Hp Hf. induction p as [a | e | X c k IH]; cbn [bind callsIn];
    [apply Hf | exact I |].
  destruct Hp as [Hc Hk]. split; [exact Hc |]. intros o. apply IH, Hk.
Qed.

Lemma callsIn_tryCatch {A : Type} (p : Prog A) (handler : Error -> Prog A) :
  callsIn allowed p -> (forall e, callsIn allowed (handler e)) ->
  callsIn allowed (tryCatch p handler).
Proof.
  intros Hp Hh. induction p as [a | e | X c k IH];
    cbn [tryCatch callsIn]; [exact I | apply Hh |].
  destruct Hp as [Hc Hk]. split; [exact Hc |]. intros o. apply IH, Hk.
Qed.

Lemma callsIn_await {X : Type} (c : HostCall X) :
  allowed (Call c) -> callsIn allowed (await c).
Proof.
  intros Hc. cbn [await callsIn]. split; [exact Hc |].
  intros [x | e]; exact I.
Qed.

End CallFacts.

Section PersonCalls.
Variable nativeDateParse : jsstring -> option Date.

Lemma reminder_calls (data : NewPersonData) (now : Date) (n : jsstring)
    (birthday : Date) :
  npName data = Some n ->
  callsIn (personCall data)
    (createBirthdayReminderTask now (trim n) birthday).
Proof.
  intros Hn. unfold createBirthdayReminderTask. cbv zeta.
  apply callsIn_tryCatch; [| intros e; exact I].
  apply callsIn_bind; [apply callsIn_await; exact I |].
  intros found. apply callsIn_bind.
  { destruct found; [exact I |].
    apply callsIn_await. left. reflexivity. }
  intros [journalPage |]; [| exact I].
  apply callsIn_bind; [apply callsIn_await; exists n; auto |].
  intros newBlock. apply callsIn_bind; [| intros; exact I].
  destruct newBlock; [| exact I]. apply callsIn_await. right. reflexivity.
Qed.

Lemma upsertIf_calls (data : NewPersonData) (page : Page) (key : jsstring)
    (value : option PropValue) :
  (forall v, value = Some v -> In (key, v) (writtenFields data)) ->
  callsIn (personCall data) (upsertIf page key value).
Proof.
  intros H. destruct value as [v |]; [| exact I].
  apply callsIn_await. cbn [personCall]. apply H. reflexivity.
Qed.

End PersonCalls.

(** Property X24: whatever the host answers, [createPerson] asks it only
    for what the form holds: it creates no page but the person's and
    journal pages, writes a property only for a field that holds
    something (the contact frequency only when above zero) and with the
    value given, appends no text but the birthday task of the trimmed
    name, uses the two tags only, and shows no message. *)
Theorem createPerson_asks_only_for_the_form
    {S : Type} (h : Handler S) (s : S)
    (nativeDateParse : jsstring -> option Date) (now : Date)
    (data : NewPersonData) :
  Forall (personCall data)
    (callsOf (run h (createPerson nativeDateParse now data) s)).
Proof.
  apply callsIn_run. unfold createPerson.
  apply callsIn_tryCatch; [| intros e; exact I].
  destruct (npName data) as [n |] eqn:Hn; [| exact I].
  destruct n as [| c n]; [exact I |]. cbn [truthyString].
  destruct (streq (trim (c :: n)) []); [exact I |].
  apply callsIn_bind; [apply callsIn_await; exact I |].
  intros [existing |]; [exact I |].
  apply callsIn_bind.
  { apply callsIn_await. right. rewrite Hn. reflexivity. }
  intros [page |]; [| exact I].
  apply callsIn_bind; [apply callsIn_await; left; reflexivity |].
  intros _.
  apply callsIn_bind.
  { apply upsertIf_calls. intros v Hv. unfold writtenFields.
    destruct (truthyString (npBirthday data)); [| discriminate].
    injection Hv as <-. apply in_or_app. left. left. reflexivity. }
  intros _. apply callsIn_bind.
  { apply upsertIf_calls. intros v Hv. unfold writtenFields.
    destruct (truthyString (npRelationship data)); [| discriminate].
    injection Hv as <-. apply in_or_app. right.
    apply in_or_app. left. left. reflexivity. }
  intros _. apply callsIn_bind.
  { apply upsertIf_calls. intros v Hv. unfold writtenFields.
    destruct (npContactFrequency data) as [f |]; [| discriminate].
    destruct (0 <? f); [| discriminate].
    injection Hv as <-. apply in_or_app. right.
    apply in_or_app. right. apply in_or_app. left. left. reflexivity. }
  intros _. apply callsIn_bind.
  { apply upsertIf_calls. intros v Hv. unfold writtenFields.
    destruct (truthyString (npEmail data)); [| discriminate].
    injection Hv as <-. apply in_or_app. right.
    apply in_or_app. right. apply in_or_app. right. left. reflexivity. }
  intros _. apply callsIn_bind; [| intros; exact I].
  destruct (truthyString (npBirthday data)) as [b |]; [| exact I].
  destruct (nativeDateParse b) as [birthdayDate |]; [| exact I].
  apply callsIn_bind; [| intros; exact I].
  apply (reminder_calls data now (c :: n) birthdayDate Hn).
Qed.

(** Property X25: whatever the host answers, [handleBirthdayTaskCompleted]
    writes no property, creates journal pages only, appends no text but
    the birthday task of the person, tags with the task tag only, and
    shows no message but that of success; this for a property resolver
    that itself only looks pages and blocks up. *)
Theorem completion_handler_asks_only_for_the_task
    {S : Type} (h : Handler S) (s : S)
    (resolve : Page -> Prog (option Date)) (now : Date)
    (personName : jsstring) :
  (forall page, callsIn (completionCall personName) (resolve page)) ->
  Forall (completionCall personName)
    (callsOf (run h (handleBirthdayTaskCompleted resolve now personName) s)).
Proof.
  intros Hres. apply callsIn_run. unfold handleBirthdayTaskCompleted.
  apply callsIn_tryCatch; [| intros e; exact I].
  apply callsIn_bind; [apply callsIn_await; exact I |].
  intros [personPage |]; [| exact I].
  apply callsIn_bind; [apply Hres |].
  intros [birthdayDate |]; [| exact I]. cbv zeta.
  apply callsIn_bind; [apply callsIn_await; exact I |].
  intros found. apply callsIn_bind.
  { destruct found; [exact I |]. apply callsIn_await. reflexivity. }
  intros journalPage. apply callsIn_bind.
  - destruct journalPage; [| exact I].
    apply callsIn_bind; [apply callsIn_await; reflexivity |].
    intros [newBlock |]; [| exact I]. apply callsIn_await. reflexivity.
  - intros _. apply callsIn_await. split; reflexivity.
Qed.

(** In the reference host, with a resolver that makes no call. *)
Lemma completion_handler_asks_only_for_the_task_witness :
  Forall (completionCall (lit "Alice"))
    (callsOf
       (run RefHost.handler
          (handleBirthdayTaskCompleted
             (fun _ => Ret (Some (newDate 1990 5 1)))
             june1_2024 (lit "Alice"))
          (RefHost.storeWithPage (lit "Alice")))).
Proof.
  apply (completion_handler_asks_only_for_the_task RefHost.handler
           (RefHost.storeWithPage (lit "Alice"))
           (fun _ => Ret (Some (newDate 1990 5 1)))
           june1_2024 (lit "Alice")).
  intros page. exact I.
Defined.
